(** * Kwirk: the IRC connection engine

    A shallow embedding of the classes [IrcConnection]
    ([src/networks/base/connection.ts]) and [IRC] ([src/networks/irc/irc.ts])
    and the properties of framing, parsing, handshake, reconnection and
    server selection that hold of them.

    Conventions.
    - A JavaScript string is a [string]: a sequence of code units below 256.
      A [Buffer] is a [list byte]. The string that [toString] makes of a
      buffer is outside this type when it holds a code unit of 256 or more:
      the decoders say so, and the call of the parser with such a string is
      recorded with the bytes of the line, not followed.
    - A JavaScript number that only ever holds an integer is a [Z] (or a [nat]
      when it is an array index); the embedding is exact while the values stay
      below 2^53.
    - [undefined] and [null] are [None].
    - An object that is shared and written to (a server of the pool) lives in
      a store and is referred to by its index there.
    - Every call on a collaborator (the bot's event sink, the logger, the
      socket, the write stream, timers, callbacks) is recorded as an [event];
      a method returns the events it caused, in order. A log line is
      recorded as its fixed text and the values put into it. A handler that
      is registered on the socket runs only while [socket] holds that socket.
    - The base class [Connection] at hand is of a later revision than
      [IrcConnection]: it spells [isConnected] and [reconnectDelay] what
      [IrcConnection] calls [connected] and [reconnect_delay]. The members
      [IrcConnection] uses are the ones the base class declares. *)

From Stdlib Require Import ZArith String Ascii Strings.Byte List Lia Bool.
From stdpp Require Import base list.
Import ListNotations.
Local Open Scope string_scope.
Local Open Scope list_scope.

(** ** JavaScript string primitives used by the parser *)

Module JS.

(** Truthiness of [string | undefined]. *)
Definition truthy (v : option string) : bool :=
  match v with
  | Some s => negb (String.eqb s "")
  | None => false
  end.

(** [a || b] on [string | undefined]. *)
Definition or (a b : option string) : option string :=
  if truthy a then a else b.

(** [a || ''] *)
Definition or_empty (a : option string) : string :=
  match or a (Some "") with
  | Some s => s
  | None => ""
  end.

(** The class [\s] (WhiteSpace and LineTerminator) on code units below 256:
    TAB, LF, VT, FF, CR, SP and NBSP. *)
Definition is_space (c : ascii) : bool :=
  let n := nat_of_ascii c in
  ((9 <=? n)%nat && (n <=? 13)%nat) || (n =? 32)%nat || (n =? 160)%nat.

Definition is_cr (c : ascii) : bool := Ascii.eqb c "013".

Fixpoint drop_while (p : ascii -> bool) (s : string) : string :=
  match s with
  | String c r => if p c then drop_while p r else s
  | EmptyString => EmptyString
  end.

(** Removes the longest suffix whose characters all satisfy [p]:
    [s.replace(/p+$/, '')]. *)
Fixpoint strip_end (p : ascii -> bool) (s : string) : string :=
  match s with
  | String c r =>
      match strip_end p r with
      | EmptyString => if p c then EmptyString else String c EmptyString
      | r' => String c r'
      end
  | EmptyString => EmptyString
  end.

(** [s.trim()] *)
Definition trim (s : string) : string :=
  strip_end is_space (drop_while is_space s).

(** [s.replace(/^\r+|\r+$/, '')]: the pattern has no [g] flag, so only the
    leftmost match is removed: the leading run of CR when there is one,
    the trailing run otherwise. *)
Definition replace_cr (s : string) : string :=
  match s with
  | String c _ => if is_cr c then drop_while is_cr s else strip_end is_cr s
  | EmptyString => EmptyString
  end.

(** [s.split(sep)] for a one-character separator. *)
Fixpoint split (sep : ascii) (s : string) : list string :=
  match s with
  | EmptyString => [EmptyString]
  | String c r =>
      if Ascii.eqb c sep then EmptyString :: split sep r
      else match split sep r with
           | p :: ps => String c p :: ps
           | [] => [String c EmptyString]
           end
  end.

(** [s.split(/ +/)]; [in_sep] says that the previous character was part of
    a separator run. *)
Fixpoint split_spaces_from (in_sep : bool) (s : string) : list string :=
  match s with
  | EmptyString => [EmptyString]
  | String c r =>
      if Ascii.eqb c " " then
        if in_sep then split_spaces_from true r
        else EmptyString :: split_spaces_from true r
      else match split_spaces_from false r with
           | p :: ps => String c p :: ps
           | [] => [String c EmptyString]
           end
  end.

Definition split_spaces (s : string) : list string :=
  split_spaces_from false s.

(** [s.toLowerCase()] on code units below 256: the letters A to Z and the
    capital letters of Latin-1 (U+00C0 to U+00DE, the multiplication sign
    apart) move up by 32. *)
Definition lower (c : ascii) : ascii :=
  let n := N_of_ascii c in
  if ((65 <=? n) && (n <=? 90) || (192 <=? n) && (n <=? 222) && negb (n =? 215))%N
  then ascii_of_N (n + 32)
  else c.

Fixpoint toLowerCase (s : string) : string :=
  match s with
  | String c r => String (lower c) (toLowerCase r)
  | EmptyString => EmptyString
  end.

End JS.

(** ** A backtracking matcher for the fragment of regular expressions that
    [parse_regex] is written in

    Every repetition in [parse_regex] is over a single character class, so
    [Rep] repeats a class and the matcher is structural. Matching follows the
    ECMAScript backtracking order: alternatives left to right, greedy
    repetitions longest first, lazy ones shortest first, an optional group
    tried before it is skipped. *)

Module Regex.

Inductive regex : Type :=
| Chr (c : ascii)                                  (* a literal character *)
| Rep (greedy : bool) (min : nat) (cls : ascii -> bool)
                              (* cls{min,} ; lazy when [greedy = false] *)
| Cat (r1 r2 : regex)                              (* r1 r2 *)
| Alt (r1 r2 : regex)                              (* r1|r2 *)
| Opt (r : regex)                                  (* (?:r)? *)
| Grp (n : nat) (r : regex)                        (* capture group n *)
| NotAhead (r : regex)                             (* (?!r) *)
| Bol                                              (* ^ *)
| Eol.                                             (* $ *)

(** Capture groups, most recently set first. *)
Definition captures := list (nat * string).

Fixpoint group (n : nat) (c : captures) : option string :=
  match c with
  | (m, s) :: c' => if Nat.eqb m n then Some s else group n c'
  | [] => None
  end.

Definition cont := nat -> string -> captures -> option captures.

(** [cls{min,}] from position [pos] with [s] left to read. *)
Fixpoint rep (greedy : bool) (cls : ascii -> bool) (min pos : nat)
         (s : string) (k : nat -> string -> option captures)
  : option captures :=
  let stop := if Nat.eqb min 0 then k pos s else None in
  let more :=
    match s with
    | String a s' =>
        if cls a then rep greedy cls (Nat.pred min) (S pos) s' k else None
    | EmptyString => None
    end in
  if greedy then
    match more with Some c => Some c | None => stop end
  else
    match stop with Some c => Some c | None => more end.

Fixpoint run (r : regex) (pos : nat) (s : string) (c : captures) (k : cont)
  : option captures :=
  match r with
  | Chr a =>
      match s with
      | String b s' => if Ascii.eqb a b then k (S pos) s' c else None
      | EmptyString => None
      end
  | Rep greedy min cls =>
      rep greedy cls min pos s (fun pos' s' => k pos' s' c)
  | Cat r1 r2 =>
      run r1 pos s c (fun pos' s' c' => run r2 pos' s' c' k)
  | Alt r1 r2 =>
      match run r1 pos s c k with
      | Some c' => Some c'
      | None => run r2 pos s c k
      end
  | Opt r1 =>
      (* an iteration that consumes nothing is rejected *)
      match run r1 pos s c
                (fun pos' s' c' => if Nat.eqb pos' pos then None else k pos' s' c')
      with
      | Some c' => Some c'
      | None => k pos s c
      end
  | Grp n r1 =>
      run r1 pos s c
          (fun pos' s' c' => k pos' s' ((n, String.substring 0 (pos' - pos) s) :: c'))
  | NotAhead r1 =>
      match run r1 pos s c (fun _ _ c' => Some c') with
      | Some _ => None
      | None => k pos s c
      end
  | Bol => if Nat.eqb pos 0 then k pos s c else None
  | Eol =>
      match s with
      | EmptyString => k pos s c
      | String _ _ => None
      end
  end.

(** [r.exec(s)] for a pattern that starts with [^] and has neither the
    [g] nor the [m] flag: the only start position that can match is 0. *)
Definition exec (r : regex) (s : string) : option captures :=
  run r 0 s [] (fun _ _ c => Some c).

Fixpoint cat (rs : list regex) (last : regex) : regex :=
  match rs with
  | [] => last
  | r :: rs' => Cat r (cat rs' last)
  end.

End Regex.

(** ** The message grammar of [IrcConnection.parseMessage] *)

Module Grammar.
Import Regex.

Definition not_space (c : ascii) : bool := negb (Ascii.eqb c " ").
Definition S_ (c : ascii) : bool := negb (JS.is_space c).          (* \S, [^\s] *)
Definition not_s_bang (c : ascii) : bool :=                          (* [^\s!] *)
  negb (JS.is_space c) && negb (Ascii.eqb c "!").
Definition not_s_at (c : ascii) : bool :=                            (* [^\s@] *)
  negb (JS.is_space c) && negb (Ascii.eqb c "@").
(** [.] matches everything but the line terminators LF and CR. *)
Definition dot (c : ascii) : bool :=
  negb (Ascii.eqb c "010") && negb (Ascii.eqb c "013").

Definition plus (cls : ascii -> bool) : regex := Rep true 1 cls.

(** [(?:@([^ ]+) )?] *)
Definition tags_part : regex :=
  Opt (cat [Chr "@"; Grp 1 (plus not_space)] (Chr " ")).

(** [(?:([^\s!]+)|([^\s!]+)!([^\s@]+)@?([^\s]+)?)] *)
Definition source_part : regex :=
  Alt (Grp 2 (plus not_s_bang))
      (cat [Grp 3 (plus not_s_bang); Chr "!"; Grp 4 (plus not_s_at); Opt (Chr "@")]
           (Opt (Grp 5 (plus S_)))).

(** The pattern of [parseMessage], piece by piece:
    - [^]
    - [(?:(?:(?:@([^ ]+) )?):(?:([^\s!]+)|([^\s!]+)!([^\s@]+)@?([^\s]+)?) )?]
    - [(\S+)]
    - [(?: (?!:)(.+?))?]
    - [(?: :(.{0,}))?]   (the source writes the star for [{0,}])
    - [$]
    with the flag [i], which changes nothing: the pattern names no
    letter. *)
Definition parse_regex : regex :=
  cat [ Bol;
        Opt (cat [tags_part; Chr ":"; source_part] (Chr " "));
        Grp 6 (plus S_);
        Opt (cat [Chr " "; NotAhead (Chr ":")] (Grp 7 (Rep false 1 dot)));
        Opt (cat [Chr " "; Chr ":"] (Grp 8 (Rep true 0 dot))) ]
      Eol.

End Grammar.

(** ** Collaborator calls *)

Inductive arg : Type :=
| Network                       (* the network object *)
| Server (r : nat)              (* a server object, by reference *)
| Str (s : string)
| Num (z : Z)
| Err (message : string)        (* new Error(message) *)
| Null.

Inductive event : Type :=
| bot_emit (name : string) (args : list arg)
| Logger_info (text : string) (args : list arg)
| Logger_warn (text : string) (args : list arg)
| Logger_error (text : string) (args : list arg)
| console_log (text : string) (args : list arg)
| Hook_pre (name : string)
| Hook_post (name : string)
| callback (args : list arg)
| tls_connect (rejectUnauthorized : bool) (host : string) (port : Z)
| socket_connect (port : Z) (host : string)
| socket_on (ev handler : string)
| socket_end
| socket_destroy
| socket_removeAllListeners
| buffer_pipe
| buffer_unpipe
| buffer_on (ev : string)
| buffer_push (chunk : string)
| new_Timer (reference : string) (interval : Z) (autoStart : option bool) (handler : string)
| timer_start (reference : string)
| timer_stop (reference : string)
| process_nextTick (handler : string)
| network_clearTimers
| channel_join (name : string)
| parseMessage_wide (line : list byte)
| throw (error : arg).

(** ** Data *)

Definition Buffer := list byte.

(** *** [buf.toString( encoding )]

    [Buffer] is Node's, not part of the sources at hand: the decoders are
    written after Node's documentation of the encodings. A decoder gives
    [None] for a buffer whose string holds a code unit of 256 or more,
    which is not a [string]. *)

(** 'utf8': a byte below 0x80 is its own code unit, and the two-byte
    sequences that start with 0xC2 or 0xC3 are the code units 0x80 to
    0xFF. Any other sequence is either ill-formed, and decoded to U+FFFD,
    or a code point of 256 or more. *)
Fixpoint utf8Slice (buf : Buffer) : option string :=
  match buf with
  | [] => Some EmptyString
  | b :: rest =>
      if (Byte.to_N b <? 128)%N then
        option_map (String (ascii_of_byte b)) (utf8Slice rest)
      else
        match rest with
        | b' :: rest' =>
            if ((194 <=? Byte.to_N b) && (Byte.to_N b <=? 195)
                && (128 <=? Byte.to_N b') && (Byte.to_N b' <=? 191))%N
            then option_map
                   (String (ascii_of_N ((Byte.to_N b - 192) * 64 + (Byte.to_N b' - 128))))
                   (utf8Slice rest')
            else None
        | [] => None
        end
  end.

(** 'ascii': the highest bit of every byte is unset. *)
Definition asciiSlice (buf : Buffer) : option string :=
  Some (string_of_list_ascii
          (map (fun b => ascii_of_N (N.land (Byte.to_N b) 127)) buf)).

(** 'latin1' and its alias 'binary': every byte is its own code unit. *)
Definition latin1Slice (buf : Buffer) : option string :=
  Some (string_of_list_byte buf).

(** 'ucs2', 'utf16le': a code unit is two bytes, the low one first; a
    byte left over at the end is dropped. *)
Fixpoint ucs2Slice (buf : Buffer) : option string :=
  match buf with
  | low :: high :: rest =>
      if Byte.eqb high x00 then option_map (String (ascii_of_byte low)) (ucs2Slice rest)
      else None
  | _ => Some EmptyString
  end.

(** The digit of value [n] in [digits]. *)
Definition digit (digits : string) (n : N) : string :=
  match String.get (N.to_nat n) digits with
  | Some c => String c EmptyString
  | None => EmptyString
  end.

(** 'hex': two digits for every byte. *)
Definition hexSlice (buf : Buffer) : option string :=
  let hex := digit "0123456789abcdef" in
  Some (String.concat ""
          (map (fun b => (hex (Byte.to_N b / 16)%N ++ hex (Byte.to_N b mod 16)%N)%string)
               buf)).

(** 'base64' and 'base64url': four digits for every three bytes; the
    digits that a last group of one or two bytes does not fill are [pad]. *)
Fixpoint base64 (digits pad : string) (buf : Buffer) : string :=
  let d := digit digits in
  match buf with
  | [] => EmptyString
  | [a] =>
      (d (Byte.to_N a / 4)%N ++ d (Byte.to_N a mod 4 * 16)%N ++ pad ++ pad)%string
  | [a; b] =>
      (d (Byte.to_N a / 4)%N
       ++ d (Byte.to_N a mod 4 * 16 + Byte.to_N b / 16)%N
       ++ d (Byte.to_N b mod 16 * 4)%N ++ pad)%string
  | a :: b :: c :: rest =>
      (d (Byte.to_N a / 4)%N
       ++ d (Byte.to_N a mod 4 * 16 + Byte.to_N b / 16)%N
       ++ d (Byte.to_N b mod 16 * 4 + Byte.to_N c / 64)%N
       ++ d (Byte.to_N c mod 64)%N
       ++ base64 digits pad rest)%string
  end.

Definition base64Slice (buf : Buffer) : option string :=
  Some (base64 "ABCDEFGHIJKLMNOPQRSTUVWXYZabcdefghijklmnopqrstuvwxyz0123456789+/"
               "=" buf).

Definition base64urlSlice (buf : Buffer) : option string :=
  Some (base64 "ABCDEFGHIJKLMNOPQRSTUVWXYZabcdefghijklmnopqrstuvwxyz0123456789-_"
               "" buf).

(** The decoder of an encoding; the names are compared without regard to
    case. [None] for a name that is not an encoding. *)
Definition getEncodingOps (encoding : string) : option (Buffer -> option string) :=
  let name := JS.toLowerCase encoding in
  if String.eqb name "utf8" || String.eqb name "utf-8" then Some utf8Slice
  else if String.eqb name "ucs2" || String.eqb name "ucs-2"
          || String.eqb name "utf16le" || String.eqb name "utf-16le"
  then Some ucs2Slice
  else if String.eqb name "latin1" || String.eqb name "binary" then Some latin1Slice
  else if String.eqb name "ascii" then Some asciiSlice
  else if String.eqb name "hex" then Some hexSlice
  else if String.eqb name "base64" then Some base64Slice
  else if String.eqb name "base64url" then Some base64urlSlice
  else None.

(** What [buf.toString( encoding )] does. *)
Inductive decoded : Type :=
| text (s : string)      (* returns [s] *)
| wide                   (* returns a string with a code unit of 256 or more *)
| unknown_encoding.      (* throws TypeError: Unknown encoding *)

(** [buf.toString( encoding )] with [encoding] a string. The empty buffer
    gives the empty string before the encoding is looked at. *)
Definition Buffer_toString (encoding : string) (buf : Buffer) : decoded :=
  match buf with
  | [] => text EmptyString
  | _ =>
      match getEncodingOps encoding with
      | Some slice =>
          match slice buf with
          | Some s => text s
          | None => wide
          end
      | None => unknown_encoding
      end
  end.

(** A handle returned by the timer factory. *)
Record ITimer : Type := mkTimer
  { reference : string;
    interval : Z;
    running : bool }.

Definition timer_with_interval (v : Z) (t : ITimer) : ITimer :=
  {| reference := reference t; interval := v; running := running t |}.

Definition timer_with_running (v : bool) (t : ITimer) : ITimer :=
  {| reference := reference t; interval := interval t; running := v |}.

Record Socket : Type := mkSocket
  { encrypted : bool;
    destroyed : bool }.

(** Modelled from the spec: the class [IrcServer] ([irc_server.ts], with its
    base class [Server]) is not part of the sources at hand. "Server: host,
    port, transport-security flag, optional password, enabled/disabled flag".
    [enable], [disable], [enabled] and [disabled] write and read the flag. *)
Module IrcServer.

Record t : Type := mk
  { host : string;
    port : Z;
    ssl : bool;
    password : option string;
    _enable : bool }.

Definition enabled (s : t) : bool := _enable s.
Definition disabled (s : t) : bool := negb (_enable s).

Definition set_enable (v : bool) (s : t) : t :=
  {| host := host s; port := port s; ssl := ssl s;
     password := password s; _enable := v |}.

Definition enable : t -> t := set_enable true.
Definition disable : t -> t := set_enable false.

End IrcServer.

Global Instance IrcServer_inhabited : Inhabited IrcServer.t :=
  populate (IrcServer.mk "" 0%Z false None false).

(** The options a server is built from; [new IrcServer(network, serve)]
    copies them. *)
Abbreviation IIrcServerOptions := IrcServer.t (only parsing).

(** The fields of class [IrcConnection]. *)
Module Connection.

Record t : Type := mk
  { server : nat;                      (* a reference into [objects] *)
    reconnect_attempts : Z;
    request_disconnect : bool;
    _connected : bool;
    reconnect_delay : Z;
    pong_timer : option ITimer;
    reconnect_timer : option ITimer;
    held_data : option Buffer;
    hold_last : bool;
    socket : option Socket }.

Definition set_reconnect_attempts (v : Z) (x : t) : t :=
  {| server := server x ;
     reconnect_attempts := v ;
     request_disconnect := request_disconnect x ;
     _connected := _connected x ;
     reconnect_delay := reconnect_delay x ;
     pong_timer := pong_timer x ;
     reconnect_timer := reconnect_timer x ;
     held_data := held_data x ;
     hold_last := hold_last x ;
     socket := socket x |}.

Definition set_request_disconnect (v : bool) (x : t) : t :=
  {| server := server x ;
     reconnect_attempts := reconnect_attempts x ;
     request_disconnect := v ;
     _connected := _connected x ;
     reconnect_delay := reconnect_delay x ;
     pong_timer := pong_timer x ;
     reconnect_timer := reconnect_timer x ;
     held_data := held_data x ;
     hold_last := hold_last x ;
     socket := socket x |}.

Definition set_connected (v : bool) (x : t) : t :=
  {| server := server x ;
     reconnect_attempts := reconnect_attempts x ;
     request_disconnect := request_disconnect x ;
     _connected := v ;
     reconnect_delay := reconnect_delay x ;
     pong_timer := pong_timer x ;
     reconnect_timer := reconnect_timer x ;
     held_data := held_data x ;
     hold_last := hold_last x ;
     socket := socket x |}.

Definition set_reconnect_delay (v : Z) (x : t) : t :=
  {| server := server x ;
     reconnect_attempts := reconnect_attempts x ;
     request_disconnect := request_disconnect x ;
     _connected := _connected x ;
     reconnect_delay := v ;
     pong_timer := pong_timer x ;
     reconnect_timer := reconnect_timer x ;
     held_data := held_data x ;
     hold_last := hold_last x ;
     socket := socket x |}.

Definition set_pong_timer (v : option ITimer) (x : t) : t :=
  {| server := server x ;
     reconnect_attempts := reconnect_attempts x ;
     request_disconnect := request_disconnect x ;
     _connected := _connected x ;
     reconnect_delay := reconnect_delay x ;
     pong_timer := v ;
     reconnect_timer := reconnect_timer x ;
     held_data := held_data x ;
     hold_last := hold_last x ;
     socket := socket x |}.

Definition set_reconnect_timer (v : option ITimer) (x : t) : t :=
  {| server := server x ;
     reconnect_attempts := reconnect_attempts x ;
     request_disconnect := request_disconnect x ;
     _connected := _connected x ;
     reconnect_delay := reconnect_delay x ;
     pong_timer := pong_timer x ;
     reconnect_timer := v ;
     held_data := held_data x ;
     hold_last := hold_last x ;
     socket := socket x |}.

Definition set_held_data (v : option Buffer) (x : t) : t :=
  {| server := server x ;
     reconnect_attempts := reconnect_attempts x ;
     request_disconnect := request_disconnect x ;
     _connected := _connected x ;
     reconnect_delay := reconnect_delay x ;
     pong_timer := pong_timer x ;
     reconnect_timer := reconnect_timer x ;
     held_data := v ;
     hold_last := hold_last x ;
     socket := socket x |}.

Definition set_hold_last (v : bool) (x : t) : t :=
  {| server := server x ;
     reconnect_attempts := reconnect_attempts x ;
     request_disconnect := request_disconnect x ;
     _connected := _connected x ;
     reconnect_delay := reconnect_delay x ;
     pong_timer := pong_timer x ;
     reconnect_timer := reconnect_timer x ;
     held_data := held_data x ;
     hold_last := v ;
     socket := socket x |}.

Definition set_socket (v : option Socket) (x : t) : t :=
  {| server := server x ;
     reconnect_attempts := reconnect_attempts x ;
     request_disconnect := request_disconnect x ;
     _connected := _connected x ;
     reconnect_delay := reconnect_delay x ;
     pong_timer := pong_timer x ;
     reconnect_timer := reconnect_timer x ;
     held_data := held_data x ;
     hold_last := hold_last x ;
     socket := v |}.

End Connection.

(** The configured options of a network ([IIrcOptions]); they are merged into
    the network object by its constructor and, but for [nick] and
    [connection_attempts], never written again. *)
Record IIrcOptions : Type := mkOptions
  { name : string;
    opt_nick : string;
    altnick : string;
    user : string;
    realname : string;
    modes : list string;
    opt_password : option string;
    quit_message : string;
    encoding : string;
    reject_invalid_certs : bool;
    opt_connection_attempts : Z }.

(** The fields of class [IRC]. *)
Module Net.

Record t : Type := mk
  { options : IIrcOptions;
    nick : string;
    connection_attempts : Z;
    _enable : bool;
    _connected : bool;
    servers : list nat;                (* references into [objects] *)
    channel : list string;             (* the keys of [channel], in [_.keys] order *)
    connection : option Connection.t;
    active_server : option nat;
    _index : nat;
    auto_disabled_timer : option ITimer;
    auto_disable_interval : Z;
    auto_disable_times : Z }.

Definition set_nick (v : string) (x : t) : t :=
  {| options := options x ;
     nick := v ;
     connection_attempts := connection_attempts x ;
     _enable := _enable x ;
     _connected := _connected x ;
     servers := servers x ;
     channel := channel x ;
     connection := connection x ;
     active_server := active_server x ;
     _index := _index x ;
     auto_disabled_timer := auto_disabled_timer x ;
     auto_disable_interval := auto_disable_interval x ;
     auto_disable_times := auto_disable_times x |}.

Definition set_connection_attempts (v : Z) (x : t) : t :=
  {| options := options x ;
     nick := nick x ;
     connection_attempts := v ;
     _enable := _enable x ;
     _connected := _connected x ;
     servers := servers x ;
     channel := channel x ;
     connection := connection x ;
     active_server := active_server x ;
     _index := _index x ;
     auto_disabled_timer := auto_disabled_timer x ;
     auto_disable_interval := auto_disable_interval x ;
     auto_disable_times := auto_disable_times x |}.

Definition set_enable (v : bool) (x : t) : t :=
  {| options := options x ;
     nick := nick x ;
     connection_attempts := connection_attempts x ;
     _enable := v ;
     _connected := _connected x ;
     servers := servers x ;
     channel := channel x ;
     connection := connection x ;
     active_server := active_server x ;
     _index := _index x ;
     auto_disabled_timer := auto_disabled_timer x ;
     auto_disable_interval := auto_disable_interval x ;
     auto_disable_times := auto_disable_times x |}.

Definition set_connected (v : bool) (x : t) : t :=
  {| options := options x ;
     nick := nick x ;
     connection_attempts := connection_attempts x ;
     _enable := _enable x ;
     _connected := v ;
     servers := servers x ;
     channel := channel x ;
     connection := connection x ;
     active_server := active_server x ;
     _index := _index x ;
     auto_disabled_timer := auto_disabled_timer x ;
     auto_disable_interval := auto_disable_interval x ;
     auto_disable_times := auto_disable_times x |}.

Definition set_servers (v : list nat) (x : t) : t :=
  {| options := options x ;
     nick := nick x ;
     connection_attempts := connection_attempts x ;
     _enable := _enable x ;
     _connected := _connected x ;
     servers := v ;
     channel := channel x ;
     connection := connection x ;
     active_server := active_server x ;
     _index := _index x ;
     auto_disabled_timer := auto_disabled_timer x ;
     auto_disable_interval := auto_disable_interval x ;
     auto_disable_times := auto_disable_times x |}.

Definition set_connection (v : option Connection.t) (x : t) : t :=
  {| options := options x ;
     nick := nick x ;
     connection_attempts := connection_attempts x ;
     _enable := _enable x ;
     _connected := _connected x ;
     servers := servers x ;
     channel := channel x ;
     connection := v ;
     active_server := active_server x ;
     _index := _index x ;
     auto_disabled_timer := auto_disabled_timer x ;
     auto_disable_interval := auto_disable_interval x ;
     auto_disable_times := auto_disable_times x |}.

Definition set_active_server (v : option nat) (x : t) : t :=
  {| options := options x ;
     nick := nick x ;
     connection_attempts := connection_attempts x ;
     _enable := _enable x ;
     _connected := _connected x ;
     servers := servers x ;
     channel := channel x ;
     connection := connection x ;
     active_server := v ;
     _index := _index x ;
     auto_disabled_timer := auto_disabled_timer x ;
     auto_disable_interval := auto_disable_interval x ;
     auto_disable_times := auto_disable_times x |}.

Definition set_index (v : nat) (x : t) : t :=
  {| options := options x ;
     nick := nick x ;
     connection_attempts := connection_attempts x ;
     _enable := _enable x ;
     _connected := _connected x ;
     servers := servers x ;
     channel := channel x ;
     connection := connection x ;
     active_server := active_server x ;
     _index := v ;
     auto_disabled_timer := auto_disabled_timer x ;
     auto_disable_interval := auto_disable_interval x ;
     auto_disable_times := auto_disable_times x |}.

Definition set_auto_disabled_timer (v : option ITimer) (x : t) : t :=
  {| options := options x ;
     nick := nick x ;
     connection_attempts := connection_attempts x ;
     _enable := _enable x ;
     _connected := _connected x ;
     servers := servers x ;
     channel := channel x ;
     connection := connection x ;
     active_server := active_server x ;
     _index := _index x ;
     auto_disabled_timer := v ;
     auto_disable_interval := auto_disable_interval x ;
     auto_disable_times := auto_disable_times x |}.

Definition set_auto_disable_interval (v : Z) (x : t) : t :=
  {| options := options x ;
     nick := nick x ;
     connection_attempts := connection_attempts x ;
     _enable := _enable x ;
     _connected := _connected x ;
     servers := servers x ;
     channel := channel x ;
     connection := connection x ;
     active_server := active_server x ;
     _index := _index x ;
     auto_disabled_timer := auto_disabled_timer x ;
     auto_disable_interval := v ;
     auto_disable_times := auto_disable_times x |}.

Definition set_auto_disable_times (v : Z) (x : t) : t :=
  {| options := options x ;
     nick := nick x ;
     connection_attempts := connection_attempts x ;
     _enable := _enable x ;
     _connected := _connected x ;
     servers := servers x ;
     channel := channel x ;
     connection := connection x ;
     active_server := active_server x ;
     _index := _index x ;
     auto_disabled_timer := auto_disabled_timer x ;
     auto_disable_interval := auto_disable_interval x ;
     auto_disable_times := v |}.

End Net.

(** The world a method runs in: the network object (which owns its
    connection), the store of server objects it refers to, and the source of
    randomness. [Math_random i] is the value of
    [Math.floor( Math.random() * 26 )] at the [i]-th draw. *)
Record World : Type := mkWorld
  { network : Net.t;
    objects : list IrcServer.t;
    Math_random : nat -> nat;
    draws : nat }.

Definition set_network (v : Net.t) (w : World) : World :=
  {| network := v; objects := objects w;
     Math_random := Math_random w; draws := draws w |}.

Definition set_objects (v : list IrcServer.t) (w : World) : World :=
  {| network := network w; objects := v;
     Math_random := Math_random w; draws := draws w |}.

Definition set_draws (v : nat) (w : World) : World :=
  {| network := network w; objects := objects w;
     Math_random := Math_random w; draws := v |}.

(** ** State and trace monad *)

Definition M (S A : Type) : Type := S -> A * S * list event.

Definition ret {S A} (a : A) : M S A := fun s => (a, s, []).

Definition result {S A} (r : A * S * list event) : A := fst (fst r).
Definition state {S A} (r : A * S * list event) : S := snd (fst r).
Definition events {S A} (r : A * S * list event) : list event := snd r.

Definition bind {S A B} (m : M S A) (k : A -> M S B) : M S B :=
  fun s =>
    let r1 := m s in
    let r2 := k (result r1) (state r1) in
    (result r2, state r2, events r1 ++ events r2).

Definition gets {S A} (f : S -> A) : M S A := fun s => (f s, s, []).
Definition modify {S} (f : S -> S) : M S unit := fun s => (tt, f s, []).
Definition call {S} (e : event) : M S unit := fun s => (tt, s, [e]).
Definition when {S} (b : bool) (m : M S unit) : M S unit :=
  if b then m else ret tt.

Declare Scope monad_scope.
Delimit Scope monad_scope with monad.
Notation "x <- m ;; k" := (bind m (fun x => k))
  (at level 100, m at next level, right associativity) : monad_scope.
Notation "m ;; k" := (bind m (fun _ => k))
  (at level 100, right associativity) : monad_scope.
Local Open Scope monad_scope.

Fixpoint for_each {S A} (l : list A) (body : A -> M S unit) : M S unit :=
  match l with
  | [] => ret tt
  | x :: l' => body x ;; for_each l' body
  end.

Definition is_some {A} (o : option A) : bool :=
  match o with Some _ => true | None => false end.

(** ** [IRC.generate_nick]

    Only the call with the default arguments ([nick = this.nick],
    [force = false]) is made by the connection; with [force = false] the
    branch that retries with the alternate nick is skipped. *)

(** The characters that [.replace( /[^0-9a-zA-Z\-_.\/]/g, '' )] keeps. *)
Definition nick_char (c : ascii) : bool :=
  let n := nat_of_ascii c in
  ((48 <=? n)%nat && (n <=? 57)%nat) || ((97 <=? n)%nat && (n <=? 122)%nat)
  || ((65 <=? n)%nat && (n <=? 90)%nat)
  || Ascii.eqb c "-" || Ascii.eqb c "_" || Ascii.eqb c "." || Ascii.eqb c "/".

Fixpoint string_filter (p : ascii -> bool) (s : string) : string :=
  match s with
  | String c r => if p c then String c (string_filter p r) else string_filter p r
  | EmptyString => EmptyString
  end.

(** The [while] loop: every ['?'], leftmost first, becomes
    [String.fromCharCode( 97 + Math.floor( Math.random() * 26 ) )]. Returns
    the letters and the number of draws made so far. *)
Fixpoint fill_wildcards (random : nat -> nat) (i : nat) (letters : string)
  : string * nat :=
  match letters with
  | String c r =>
      if Ascii.eqb c "?" then
        let '(r', j) := fill_wildcards random (S i) r in
        (String (ascii_of_nat (97 + random i mod 26)) r', j)
      else
        let '(r', j) := fill_wildcards random i r in
        (String c r', j)
  | EmptyString => (EmptyString, i)
  end.

Definition generate_nick : M World string :=
  fun w =>
    let filled := fill_wildcards (Math_random w) (draws w) (Net.nick (network w)) in
    let newnick := string_filter nick_char (fst filled) in
    (newnick,
     set_draws (snd filled) (set_network (Net.set_nick newnick (network w)) w),
     []).

(** ** [IrcConnection] *)

Record tag_obj : Type := mkTag
  { tag : option string;
    value : option string }.

Record msg_obj : Type := mkMsg
  { tags : list tag_obj;
    prefix : option string;
    nick : option string;
    ident : string;
    hostname : string;
    command : option string;
    params : list string }.

Module IrcConnection.

(** A method of the connection reads and writes the connection object
    ([this]) and, through [this.network] and [this.server], the world. *)
Definition Self : Type := Connection.t * World.

Definition this {A} (f : Connection.t -> A) : M Self A :=
  gets (fun s => f (fst s)).
Definition net {A} (f : Net.t -> A) : M Self A :=
  gets (fun s => f (network (snd s))).
Definition opt {A} (f : IIrcOptions -> A) : M Self A :=
  net (fun n => f (Net.options n)).
(** [this.server] is a reference to a server object of the store. *)
Definition server {A} (f : IrcServer.t -> A) : M Self A :=
  gets (fun s => f (objects (snd s) !!! Connection.server (fst s))).
Definition update (f : Connection.t -> Connection.t) : M Self unit :=
  modify (fun s => (f (fst s), snd s)).
Definition update_world (f : World -> World) : M Self unit :=
  modify (fun s => (fst s, f (snd s))).

Definition connected : M Self bool := this Connection._connected.

(** *** parseMessage *)

(** [tags[ i ] = { tag: tag[ 0 ], value: tag[ 1 ] }] with
    [tag = tags[ i ].split( '=' )] *)
Definition parse_tag (t : string) : tag_obj :=
  let tag := JS.split "=" t in
  {| tag := tag !! 0%nat; value := tag !! 1%nat |}.

(** The object [msg_obj] that [parseMessage] builds from a match. *)
Definition build_msg_obj (message : Regex.captures) : msg_obj :=
  let m := fun n => Regex.group n message in
  let tags :=
    match m 1%nat with
    | Some t => if JS.truthy (Some t) then map parse_tag (JS.split ";" t) else []
    | None => []
    end in
  let params :=
    match m 7%nat with
    | Some p => if JS.truthy (Some p) then JS.split_spaces p else []
    | None => []
    end in
  {| tags := tags;
     prefix := m 2%nat;
     nick := JS.or (m 3%nat) (m 2%nat);
     ident := JS.or_empty (m 4%nat);
     hostname := JS.or_empty (m 5%nat);
     command := m 6%nat;
     params :=
       match m 8%nat with
       | Some t =>
           if JS.truthy (Some t) then params ++ [JS.strip_end JS.is_space t]
           else params
       | None => params
       end |}.

(** What [parseMessage] computes for [line]: [None] when it returns before
    building [msg_obj] (an empty line, a line outside the grammar). *)
Definition parse (line : string) : option msg_obj :=
  if negb (JS.truthy (Some line)) then None
  else
    let line := JS.trim line in
    match Regex.exec Grammar.parse_regex (JS.replace_cr line) with
    | None => None
    | Some message => Some (build_msg_obj message)
    end.

(** [parseMessage( line )]. The method returns nothing; [msg_obj] is a
    local of the call and the call ends once it is built. *)
Definition parseMessage (line : string) : M Self unit :=
  if negb (JS.truthy (Some line)) then ret tt
  else
    let line := JS.trim line in
    match Regex.exec Grammar.parse_regex (JS.replace_cr line) with
    | None =>
        call (Logger_warn "Malformed IRC line: %s" [Str (JS.replace_cr line)])
    | Some message =>
        let msg_obj := build_msg_obj message in
        ret tt
    end.

(** *** Timers and the socket *)

Definition stop (t : ITimer) : M Self ITimer :=
  call (timer_stop (reference t)) ;; ret (timer_with_running false t).

Definition start (t : ITimer) : M Self ITimer :=
  call (timer_start (reference t)) ;; ret (timer_with_running true t).

(** [if ( this.pong_timer ) this.pong_timer.stop()] *)
Definition stop_pong_timer : M Self unit :=
  t <- this Connection.pong_timer ;;
  match t with
  | Some t => t' <- stop t ;; update (Connection.set_pong_timer (Some t'))
  | None => ret tt
  end.

(** [this.socket.destroy()] *)
Definition socket_destroy_ : M Self unit :=
  call socket_destroy ;;
  update (fun c =>
    Connection.set_socket
      (option_map (fun k => {| encrypted := encrypted k; destroyed := true |})
                  (Connection.socket c)) c).

(** [disposeSocket()] *)
Definition disposeSocket : M Self unit :=
  sock <- this Connection.socket ;;
  when (is_some sock)
    (call socket_end ;;
     call socket_removeAllListeners ;;
     update (Connection.set_socket None)).

(** *** Sending *)

Definition CRLF : string := String "013" (String "010" EmptyString).

(** [send( data )] *)
Definition send (data : string) : M Self unit :=
  c <- connected ;;
  sock <- this Connection.socket ;;
  when (c && is_some sock) (call (buffer_push (data ++ CRLF))).

Definition send_cap_ls : M Self unit := send "CAP LS ".
Definition send_cap_req : M Self unit := send "CAP REQ :".
Definition send_cap_end : M Self unit := send "CAP END".

(** A call of a method of the network object. *)
Definition on_network {A} (m : M World A) : M Self A :=
  fun s => let r := m (snd s) in (result r, (fst s, state r), events r).

(** [send_login()] *)
Definition send_login : M Self unit :=
  server_password <- server IrcServer.password ;;
  network_password <- opt opt_password ;;
  let password := JS.or server_password network_password in
  match password with
  | Some pw => when (JS.truthy password) (send ("PASS " ++ pw))
  | None => ret tt
  end ;;
  generated <- on_network generate_nick ;;
  send ("NICK " ++ generated) ;;
  user <- opt user ;;
  modes <- opt modes ;;
  realname <- opt realname ;;
  send ("USER " ++ user ++ " "
          ++ (if existsb (String.eqb "i") modes then "8" else "0")
          ++ " * :" ++ realname).

(** [pipeSetup()] *)
Definition pipeSetup : M Self unit :=
  call buffer_pipe ;;
  call (buffer_on "pause").

(** [connectionSetup()], the handler of the socket's connect event. *)
Definition connectionSetup : M Self unit :=
  pipeSetup ;;
  name <- opt name ;;
  r <- this Connection.server ;;
  call (bot_emit ("connect::" ++ name) [Network; Server r]) ;;
  update (Connection.set_connected true) ;;
  send_cap_ls ;;
  send_cap_end ;;
  send_login ;;
  t <- this Connection.pong_timer ;;
  when (negb (is_some t))
    (call (new_Timer ("pong::" ++ name) 120000 (Some true) "pong") ;;
     update (Connection.set_pong_timer
               (Some {| reference := "pong::" ++ name;
                        interval := 120000;
                        running := true |}))) ;;
  call (socket_on "data" "onData") ;;
  call (socket_on "end" "onEnd") ;;
  call (socket_on "close" "onClose") ;;
  call (Hook_post "connect") ;;
  call (bot_emit ("registered::" ++ name) [Network; Server r]).

(** [connect()] *)
Definition connect : M Self unit :=
  c <- connected ;;
  r <- this Connection.server ;;
  if c then call (bot_emit "already connected" [Network; Server r])
  else
    call (Hook_pre "connect") ;;
    ssl <- server IrcServer.ssl ;;
    host <- server IrcServer.host ;;
    port <- server IrcServer.port ;;
    (if ssl then
       reject <- opt reject_invalid_certs ;;
       call (tls_connect reject host port) ;;
       update (Connection.set_socket (Some {| encrypted := true; destroyed := false |})) ;;
       call (socket_on "secureConnect" "connectionSetup")
     else
       update (Connection.set_socket (Some {| encrypted := false; destroyed := false |})) ;;
       call (socket_connect port host) ;;
       call (socket_on "connect" "connectionSetup")) ;;
    call (socket_on "error" "onError").

(** [disconnect( message )]; [message] defaults to the network's quit
    message. *)
Definition disconnect (message : option string) : M Self unit :=
  c <- connected ;;
  sock <- this Connection.socket ;;
  if negb c && negb (is_some sock) then ret tt
  else
    stop_pong_timer ;;
    update (Connection.set_request_disconnect true) ;;
    quit <- opt quit_message ;;
    send ("QUIT : " ++ match message with Some m => m | None => quit end) ;;
    call (process_nextTick "end").

(** [dispose( message )] *)
Definition dispose (message : option string) : M Self unit :=
  c <- connected ;;
  when c (disconnect message) ;;
  t <- this Connection.reconnect_timer ;;
  match t with
  | Some t => t' <- stop t ;; update (Connection.set_reconnect_timer (Some t'))
  | None => ret tt
  end ;;
  sock <- this Connection.socket ;;
  when (is_some sock) disposeSocket.

(** [end()] *)
Definition end_ : M Self unit :=
  disposeSocket ;;
  call network_clearTimers ;;
  call buffer_unpipe.

(** *** Framing: onData *)

Definition LF : byte := x0a.
Definition max_buffer_size : nat := 1024.

(** [data.slice( from, to )], of a buffer or an array. *)
Definition slice {A} (from to : nat) (data : list A) : list A :=
  take (to - from) (drop from data).

(** The [for] loop over [data]: [rest] is what is left to read from
    [data_pos] on. Returns [lines] and [line_start]. *)
Fixpoint scan (data rest : Buffer) (data_pos line_start : nat)
         (lines : list Buffer) : list Buffer * nat :=
  match rest with
  | [] => (lines, line_start)
  | b :: rest' =>
      if Byte.eqb b LF then
        scan data rest' (S data_pos) (S data_pos)
             (lines ++ [slice line_start data_pos data])
      else
        scan data rest' (S data_pos) line_start lines
  end.

Definition overflow : M Self unit :=
  call (bot_emit "error" [Str "Message buffer too large"]) ;;
  socket_destroy_.

(** [onData( data )] up to its last loop: the value of [lines] that the
    loop goes through, [[]] when the method has returned before. *)
Definition frame (data : Buffer) : M Self (list Buffer) :=
  let lines := fst (scan data data 0 0 []) in
  let line_start := snd (scan data data 0 0 []) in
  let data_pos := length data in
  held_data <- this Connection.held_data ;;
  match lines with
  | [] =>
      (* no complete line in this chunk *)
      (if (max_buffer_size <? match held_data with Some h => length h | None => 0 end
                              + length data)%nat
       then overflow
       else
         update (Connection.set_held_data
                   (Some match held_data with
                         | Some h => h ++ data
                         | None => data
                         end))) ;;
      ret []
  | first :: others =>
      hold_last <- this Connection.hold_last ;;
      (* [this.hold_last && this.held_data !== null]; [held_data] is a
         buffer or [null] whenever [hold_last] is set *)
      lines <-
        match hold_last, held_data with
        | true, Some h =>
            update (Connection.set_hold_last false) ;;
            update (Connection.set_held_data None) ;;
            ret ((h ++ first) :: others)
        | _, _ => ret lines
        end ;;
      if (line_start <? data_pos)%nat then
        if (max_buffer_size <? length data - line_start)%nat then
          overflow ;; ret []
        else
          update (Connection.set_hold_last true) ;;
          update (Connection.set_held_data (Some (drop line_start data))) ;;
          ret lines
      else ret lines
  end.

(** The last loop of [onData]:
    [this.parseMessage( lines[ i ].toString( this.network.encoding ) )] for
    every line. The loop ends where [toString] throws. A call of
    [parseMessage] with a string that is not a [string] is recorded, with
    the bytes of the line, and not followed. *)
Fixpoint parse_lines (encoding : string) (lines : list Buffer) : M Self unit :=
  match lines with
  | [] => ret tt
  | line :: rest =>
      match Buffer_toString encoding line with
      | text line => parseMessage line ;; parse_lines encoding rest
      | wide => call (parseMessage_wide line) ;; parse_lines encoding rest
      | unknown_encoding => call (throw (Err ("Unknown encoding: " ++ encoding)))
      end
  end.

(** [onData( data )], the handler of the socket's data event. *)
Definition onData (data : Buffer) : M Self unit :=
  lines <- frame data ;;
  encoding <- opt encoding ;;
  parse_lines encoding lines.

(** *** Reconnection *)

(** [a || b] on numbers: [a] unless it is 0. *)
Definition num_or (a b : Z) : Z := if (a =? 0)%Z then b else a.

(** [reconnect()] *)
Definition reconnect : M Self unit :=
  delay <- this Connection.reconnect_delay ;;
  attempts <- this Connection.reconnect_attempts ;;
  let delay := num_or (delay * attempts) delay in
  update (Connection.set_reconnect_delay delay) ;;
  host <- server IrcServer.host ;;
  name <- opt name ;;
  call (Logger_info "setting timer to delay reconnection" [Str host; Num delay; Str name]) ;;
  t <- this Connection.reconnect_timer ;;
  t <- match t with
       | Some t => ret (timer_with_interval delay t)
       | None =>
           call (new_Timer ("reconnect timer " ++ name) delay None "connect") ;;
           ret {| reference := "reconnect timer " ++ name;
                  interval := delay;
                  running := false |}
       end ;;
  t <- start t ;;
  update (Connection.set_reconnect_timer (Some t)).

(** [this.server.disable()] *)
Definition server_disable : M Self unit :=
  r <- this Connection.server ;;
  update_world (fun w =>
    set_objects (alter IrcServer.disable r (objects w)) w).

(** [onError( e )], by [e.code]. *)
Definition onError (code : string) : M Self unit :=
  call (console_log "onError" [Str code]) ;;
  if String.eqb code "EPIPE" then
    stop_pong_timer ;;
    requested <- this Connection.request_disconnect ;;
    when (negb requested) reconnect
  else if String.eqb code "ENETUNREACH" then
    server_disable
  else if String.eqb code "ETIMEDOUT" then
    attempts <- this Connection.reconnect_attempts ;;
    ceiling <- net Net.connection_attempts ;;
    if (attempts <? ceiling)%Z then server_disable
    else
      update (Connection.set_reconnect_attempts (attempts + 1)) ;;
      reconnect
  else
    call (Logger_error "an unswitched error occurred" [Str code]).

(** [onClose( error )] *)
Definition onClose : M Self unit :=
  call socket_end ;;
  update (Connection.set_connected false) ;;
  stop_pong_timer ;;
  requested <- this Connection.request_disconnect ;;
  when (negb requested) reconnect.

(** [onEnd()] *)
Definition onEnd : M Self unit :=
  update (Connection.set_connected false).

(** [pong( message, done )], the handler of the keep-alive timer. *)
Definition pong (message : option string) (has_done : bool) : M Self unit :=
  sock <- this Connection.socket ;;
  if match sock with Some k => destroyed k | None => false end then disconnect None
  else
    host <- server IrcServer.host ;;
    send ("PONG " ++ match message with
                     | Some m => if JS.truthy message then m else host
                     | None => host
                     end) ;;
    when has_done (call (callback [])).

(** [new IrcConnection( network, server )]. The base class sets the
    reconnection delay to 5000 and the connected flag to false. *)
Definition new (server : nat) : Connection.t :=
  {| Connection.server := server;
     Connection.reconnect_attempts := 0;
     Connection.request_disconnect := false;
     Connection._connected := false;
     Connection.reconnect_delay := 5000;
     Connection.pong_timer := None;
     Connection.reconnect_timer := None;
     Connection.held_data := None;
     Connection.hold_last := false;
     Connection.socket := None |}.

End IrcConnection.

(** ** [IRC] *)

Module IRC.

Definition this {A} (f : Net.t -> A) : M World A :=
  gets (fun w => f (network w)).
Definition opt {A} (f : IIrcOptions -> A) : M World A :=
  this (fun n => f (Net.options n)).
Definition update (f : Net.t -> Net.t) : M World unit :=
  modify (fun w => set_network (f (network w)) w).
Definition deref {A} (r : nat) (f : IrcServer.t -> A) : M World A :=
  gets (fun w => f (objects w !!! r)).

(** Modelled from the spec: the base class [Network] is not part of the
    sources at hand; [enabled()], [enable()] and [disable()] read and write
    the flag [_enable] ("administratively disabled"), [connected()] and
    [disconnected()] read [_connected]. *)
Definition enabled : M World bool := this Net._enable.
Definition enable : M World unit := update (Net.set_enable true).
Definition disable : M World unit := update (Net.set_enable false).
Definition connected : M World bool := this Net._connected.
Definition disconnected : M World bool :=
  c <- connected ;; ret (negb c).

(** A call of a method of the connection object [conn], which the network
    then holds in the state the call leaves it in. *)
Definition on_connection {A} (m : M IrcConnection.Self A) (conn : Connection.t)
  : M World A :=
  fun w =>
    let r := m (conn, w) in
    let conn' := fst (state r) in
    let w' := snd (state r) in
    (result r, set_network (Net.set_connection (Some conn') (network w')) w', events r).

(** [new IrcServer( this, serve )]: a fresh object in the store. *)
Definition new_IrcServer (serve : IIrcServerOptions) : M World nat :=
  fun w => (length (objects w), set_objects (objects w ++ [serve]) w, []).

(** [serverExists( host )], for a host name ([inl]) or a server object
    ([inr]). *)
Definition serverExists (host : string + nat) : M World bool :=
  servers <- this Net.servers ;;
  objs <- gets objects ;;
  ret (is_some
         (List.find
            (fun server =>
               match host with
               | inl h => String.eqb h (IrcServer.host (objs !!! server))
               | inr s => Nat.eqb s server
               end)
            servers)).

(** [addServer( serve, callback )]; [has_callback] says whether a callback
    was passed. *)
Definition addServer (serve : IIrcServerOptions) (has_callback : bool)
  : M World unit :=
  server <- new_IrcServer serve ;;
  host <- deref server IrcServer.host ;;
  exists_ <- serverExists (inl host) ;;
  if exists_ then
    name <- opt name ;;
    call (bot_emit (name ++ " server exists") [Network; Server server]) ;;
    when has_callback
      (call (callback [Err "network server hosts must be unique"; Server server]))
  else
    update (fun n => Net.set_servers (Net.servers n ++ [server]) n) ;;
    when has_callback (call (callback [Null; Server server])).

(** [findEnabled()] *)
Definition findEnabled : M World (option nat) :=
  servers <- this Net.servers ;;
  objs <- gets objects ;;
  ret (List.find (fun server => IrcServer.enabled (objs !!! server)) servers).

(** [( this._index + 1 ) % this.servers.length || 0]: the remainder by 0 is
    NaN, which [|| 0] turns into 0. *)
Definition advance (index len : nat) : nat :=
  if (len =? 0)%nat then 0%nat else ((index + 1) mod len)%nat.

(** [next_server( index )]; [index] is [None] when the argument is left
    out (a number that is not an integer behaves the same). *)
Definition next_server (index : option Z) : M World (option nat) :=
  servers <- this Net.servers ;;
  let by_cursor :=
    i <- this Net._index ;;
    update (Net.set_index (advance i (length servers))) ;;
    ret (servers !! i) in
  server <-
    match index with
    | Some n =>
        if ((0 <=? n) && (n <? Z.of_nat (length servers)))%Z
        then ret (servers !! Z.to_nat n)
        else by_cursor
    | None => by_cursor
    end ;;
  match server with
  | Some s =>
      off <- deref s IrcServer.disabled ;;
      if off then
        found <- findEnabled ;;
        match found with
        | Some _ => ret found
        | None =>
            disable ;;
            update (fun n => Net.set_auto_disable_times (Net.auto_disable_times n + 1) n) ;;
            update (fun n =>
              Net.set_auto_disable_interval
                (IrcConnection.num_or
                   (Net.auto_disable_interval n * Net.auto_disable_times n)
                   (Net.auto_disable_interval n)) n) ;;
            interval <- this Net.auto_disable_interval ;;
            name <- opt name ;;
            call (Logger_warn "no servers enabled, starting auto disabled timer"
                              [Num interval; Str name]) ;;
            call (new_Timer ("auto disabled timer::" ++ name) interval (Some true)
                            "disableCheck") ;;
            update (Net.set_auto_disabled_timer
                      (Some {| reference := "auto disabled timer::" ++ name;
                               interval := interval;
                               running := true |})) ;;
            ret None
        end
      else ret (Some s)
  | None => ret None
  end.

(** [connect()] *)
Definition connect : M World unit :=
  on <- enabled ;;
  up <- connected ;;
  name <- opt name ;;
  if negb on || up then
    t <- this Net.auto_disabled_timer ;;
    when (is_some t)
      (call (Logger_info "network has been autodisabled" [Str name]))
  else
    conn <- this Net.connection ;;
    match conn with
    | Some c => on_connection (IrcConnection.dispose None) c
    | None => ret tt
    end ;;
    server <- next_server None ;;
    update (Net.set_active_server server) ;;
    match server with
    | None =>
        call (Logger_warn "unable to retrieve an active server for " [Str name])
    | Some s =>
        conn <- this Net.connection ;;
        conn <- match conn with
                | Some c => ret c
                | None =>
                    update (Net.set_connection (Some (IrcConnection.new s))) ;;
                    ret (IrcConnection.new s)
                end ;;
        on_connection IrcConnection.connect conn
    end.

(** [disconnect( message, callback )] *)
Definition disconnect (message : option string) (has_callback : bool)
  : M World unit :=
  down <- disconnected ;;
  if down then when has_callback (call (callback [Null]))
  else
    conn <- this Net.connection ;;
    match conn with
    | None => update (Net.set_connected false)
    | Some c =>
        on_connection (IrcConnection.disconnect message) c ;;
        when has_callback (call (callback [Null]))
    end.

(** [jump()] *)
Definition jump : M World unit :=
  up <- connected ;;
  when up (disconnect (Some "jumping to next available server") false) ;;
  connect.

(** [servers.indexOf( server )]; [None] stands for -1. Objects are
    compared by reference. *)
Fixpoint indexOf (server : nat) (servers : list nat) : option nat :=
  match servers with
  | [] => None
  | s :: rest =>
      if (s =? server)%nat then Some 0%nat
      else option_map S (indexOf server rest)
  end.

(** [removeServer( server )] *)
Definition removeServer (server : nat) : M World unit :=
  servers <- this Net.servers ;;
  match indexOf server servers with
  | Some index =>
      (* [this.servers.slice( index, 1 )] builds a new array, which is
         dropped; [this.servers] is not written *)
      let _ := IrcConnection.slice index 1 servers in
      active <- this Net.active_server ;;
      match active with
      | Some a =>
          when (a =? server)%nat
            (update (Net.set_active_server None) ;; jump)
      | None => ret tt
      end
  | None => ret tt
  end.

(** [removeServerByHost( host )]; when no server has that host [_.find]
    gives [undefined], which is at no index of [servers]. *)
Definition removeServerByHost (host : string) : M World unit :=
  servers <- this Net.servers ;;
  objs <- gets objects ;;
  match List.find (fun s => String.eqb (IrcServer.host (objs !!! s)) host) servers with
  | Some s => removeServer s
  | None => ret tt
  end.

(** [disableCheck( done )], the handler of the auto-disable timer. *)
Definition disableCheck : M World unit :=
  name <- opt name ;;
  call (Logger_info "auto disabled timer invoked network server enabling" [Str name]) ;;
  enable ;;
  servers <- this Net.servers ;;
  for_each servers
    (fun s => modify (fun w => set_objects (alter IrcServer.enable s (objects w)) w)) ;;
  connect ;;
  call (callback []) ;;
  update (Net.set_auto_disabled_timer None).

(** [onRegistered( network )], the listener of 'registered::<name>'. *)
Definition onRegistered : M World unit :=
  update (Net.set_auto_disable_times 0) ;;
  update (Net.set_auto_disable_interval 180000) ;;
  attempts <- opt opt_connection_attempts ;;
  update (Net.set_connection_attempts attempts) ;;
  channels <- this Net.channel ;;
  for_each channels (fun name => call (channel_join name)).

(** The listener of 'connect::<name>' that the constructor installs. *)
Definition onConnect : M World unit :=
  update (Net.set_connected true).

(** The network object once its constructor has merged [options] and
    before any server is added. *)
Definition new (options : IIrcOptions) (enable : bool) : Net.t :=
  {| Net.options := options;
     Net.nick := opt_nick options;
     Net.connection_attempts := opt_connection_attempts options;
     Net._enable := enable;
     Net._connected := false;
     Net.servers := [];
     Net.channel := [];
     Net.connection := None;
     Net.active_server := None;
     Net._index := 0;
     Net.auto_disabled_timer := None;
     Net.auto_disable_interval := 180000;
     Net.auto_disable_times := 0 |}.

(** [s[ s.length - 1 ]]: [None] is [undefined], for the empty string. *)
Fixpoint last_char (s : string) : option ascii :=
  match s with
  | EmptyString => None
  | String c EmptyString => Some c
  | String _ r => last_char r
  end.

(** [generate_nick( nick, force )] in full. The method calls itself, with
    the alternate nick or with ['?'] appended; [fuel] bounds the depth of
    these calls, and the result is [None] when it runs out. *)
Fixpoint generate_nick (fuel : nat) (nick : string) (force : bool)
  : M World (option string) :=
  match fuel with
  | O => ret None
  | S fuel' =>
      random <- gets Math_random ;;
      i <- gets draws ;;
      let filled := fill_wildcards random i nick in
      modify (set_draws (snd filled)) ;;
      let newnick := string_filter nick_char (fst filled) in
      if force && String.eqb nick newnick then
        altnick <- opt altnick ;;
        if JS.truthy (Some altnick) && negb (String.eqb nick altnick) then
          generate_nick fuel' altnick true
        else if match last_char newnick with
                | Some c => Ascii.eqb c "_"
                | None => false
                end then
          generate_nick fuel' (newnick ++ "?")%string true
        else
          update (Net.set_nick (nick ++ "_")%string) ;;
          ret (Some (nick ++ "_")%string)
      else
        update (Net.set_nick newnick) ;;
        ret (Some newnick)
  end.

End IRC.

(** * Vocabulary of the properties *)

(** ** Concrete networks used in the examples *)

Module Sample.

Definition options : IIrcOptions :=
  {| name := "freenode";
     opt_nick := "kwirk";
     altnick := "kw?rk";
     user := "KwirK";
     realname := "KwirK IRC Bot";
     modes := ["i"];
     opt_password := None;
     quit_message := "KwirK, a sophisticated utility bot";
     encoding := "utf8";
     reject_invalid_certs := false;
     opt_connection_attempts := 10 |}.

Definition server (host : string) (enabled : bool) : IrcServer.t :=
  {| IrcServer.host := host;
     IrcServer.port := 6667%Z;
     IrcServer.ssl := false;
     IrcServer.password := None;
     IrcServer._enable := enabled |}.

(** An enabled network with no server yet. *)
Definition empty : World :=
  {| network := IRC.new options true;
     objects := [];
     Math_random := fun i => i;
     draws := 0 |}.

Definition add (serve : IIrcServerOptions) (w : World) : World :=
  state (IRC.addServer serve false w).

(** The pool [A(disabled), B(enabled), C(enabled)]: A, B and C are the
    objects 0, 1 and 2. *)
Definition pool : World :=
  add (server "c.example.net" true)
    (add (server "b.example.net" true)
       (add (server "a.example.net" false) empty)).

(** A connection to server A whose socket is open. *)
Definition connection : Connection.t :=
  Connection.set_socket (Some {| encrypted := false; destroyed := false |})
                        (IrcConnection.new 0).

Definition bytes (s : string) : Buffer := list_byte_of_string s.

Definition CR : string := String "013" EmptyString.
Definition CRLF : string := IrcConnection.CRLF.

End Sample.

(** ** Parsing *)

Definition full_mask_line : string :=
  "@tag=val :nick!ident@host COMMAND p1 p2 :trailing with spaces".

(** The calls that hand a value over to a collaborator: the event sink, a
    callback, a hook. *)
Definition hands_over (e : event) : bool :=
  match e with
  | bot_emit _ _ | callback _ | Hook_pre _ | Hook_post _ => true
  | _ => false
  end.

(** ** The handshake *)

(** The chunks pushed to the write stream, in order. *)
Definition pushes (evs : list event) : list string :=
  flat_map (fun e => match e with buffer_push chunk => [chunk] | _ => [] end) evs.

(** A connection to server A, which has a password. *)
Definition with_password : IrcConnection.Self :=
  (Sample.connection,
   set_objects (alter (fun s => {| IrcServer.host := IrcServer.host s;
                                   IrcServer.port := IrcServer.port s;
                                   IrcServer.ssl := IrcServer.ssl s;
                                   IrcServer.password := Some "secret";
                                   IrcServer._enable := true |})
                      0%nat (objects Sample.pool))
               Sample.pool).

(** ** Server selection *)

(** The world once the cursor has moved on. *)
Definition moved_on (w : World) : World :=
  set_network
    (Net.set_index (IRC.advance (Net._index (network w))
                                (length (Net.servers (network w))))
                   (network w)) w.

(** The world once selection has found no enabled server: the network is
    disabled, the escalation is counted, the interval is multiplied by the
    count and a timer is armed with it. *)
Definition escalated (w : World) : World :=
  let n := network (moved_on w) in
  let times := (Net.auto_disable_times n + 1)%Z in
  let interval :=
    IrcConnection.num_or (Net.auto_disable_interval n * times)
                         (Net.auto_disable_interval n) in
  set_network
    (Net.set_auto_disabled_timer
       (Some {| reference := "auto disabled timer::" ++ name (Net.options n);
                interval := interval;
                running := true |})
       (Net.set_auto_disable_interval interval
          (Net.set_auto_disable_times times
             (Net.set_enable false n))))
    w.

Definition at_cursor (w : World) : option nat :=
  Net.servers (network w) !! Net._index (network w).

Definition first_enabled (w : World) : option nat :=
  List.find (fun s => IrcServer.enabled (objects w !!! s)) (Net.servers (network w)).

(** The servers returned by [n] successive calls of [next_server()]. *)
Fixpoint selections (n : nat) (w : World) : list (option nat) :=
  match n with
  | O => []
  | S n' =>
      let r := IRC.next_server None w in
      result r :: selections n' (state r)
  end.

(** ** What a method leaves alone *)

Definition preserves {S A B} (p : S -> B) (m : M S A) : Prop :=
  forall s, p (state (m s)) = p s.

(** The pool proper: the array [servers] and the server objects. *)
Definition pool_of (w : World) : list nat * list IrcServer.t :=
  (Net.servers (network w), objects w).

Definition pool_of_self (s : IrcConnection.Self) : list nat * list IrcServer.t :=
  pool_of (snd s).

(** ** Auto-disable backoff *)

(** The interval of the auto-disable timer, when one is armed. *)
Definition armed_interval (w : World) : option Z :=
  option_map interval (Net.auto_disabled_timer (network w)).

Definition enable_each (servers : list nat) (objs : list IrcServer.t)
  : list IrcServer.t :=
  foldl (fun objs s => alter IrcServer.enable s objs) objs servers.

(** The world once the network and each server of the pool are enabled
    again. *)
Definition reenabled (w : World) : World :=
  set_objects (enable_each (Net.servers (network w)) (objects w))
              (set_network (Net.set_enable true (network w)) w).

(** A network whose only server is disabled. *)
Definition lone_server_down : World :=
  Sample.add (Sample.server "a.example.net" false) Sample.empty.

(** The socket reports an error to the connection. *)
Definition socket_error (code : string) : M World unit :=
  conn <- IRC.this Net.connection ;;
  match conn with
  | Some c => IRC.on_connection (IrcConnection.onError code) c
  | None => ret tt
  end.

(** The auto-disable timer fires and [connect()] reaches the server, which
    the socket then reports unreachable; [connect()] is called again. *)
Definition failed_round : M World unit :=
  IRC.disableCheck ;; socket_error "ENETUNREACH" ;; IRC.connect.

(** ** Reconnection delay *)

(** The interval the reconnect timer is configured with. *)
Definition configured_interval (s : IrcConnection.Self) : option Z :=
  option_map interval (Connection.reconnect_timer (fst s)).

(** A network configured with a connection-attempt ceiling of 0, so that
    every timeout is counted. *)
Definition impatient : World :=
  set_network (Net.set_connection_attempts 0 (network Sample.pool)) Sample.pool.

Definition timeout (s : IrcConnection.Self) : IrcConnection.Self :=
  state (IrcConnection.onError "ETIMEDOUT" s).

Definition broken_pipe (s : IrcConnection.Self) : IrcConnection.Self :=
  state (IrcConnection.onError "EPIPE" s).

(** ** Host uniqueness *)

(** The hosts of the servers in the pool, in order. *)
Definition hosts (w : World) : list string :=
  map (fun s => IrcServer.host (objects w !!! s)) (Net.servers (network w)).

(** Every reference held in [servers] points to a server object. *)
Definition allocated (w : World) : Prop :=
  Forall (fun s => (s < length (objects w))%nat) (Net.servers (network w)).

(** A sequence of [addServer] calls, each with or without a callback. *)
Fixpoint add_servers (calls : list (IIrcServerOptions * bool)) (w : World) : World :=
  match calls with
  | [] => w
  | (serve, has_callback) :: rest =>
      add_servers rest (state (IRC.addServer serve has_callback w))
  end.

(** The world once the server object is built, before it is looked up. *)
Definition with_object (serve : IIrcServerOptions) (w : World) : World :=
  set_objects (objects w ++ [serve]) w.

(** The invariant of the pool. *)
Definition unique_hosts (w : World) : Prop := allocated w /\ NoDup (hosts w).

(** ** The bound on the held partial line *)

Definition held_length (c : Connection.t) : nat :=
  match Connection.held_data c with
  | Some h => length h
  | None => 0
  end.

Definition destroy (c : Connection.t) : Connection.t :=
  Connection.set_socket
    (option_map (fun k => {| encrypted := encrypted k; destroyed := true |})
                (Connection.socket c)) c.

(** ** What the framer does reassemble *)

(** The framer as the spec describes it: the complete lines of
    [pending ++ data], in order, and the partial line left over. *)
Fixpoint lines_of (pending data : Buffer) : list Buffer * Buffer :=
  match data with
  | [] => ([], pending)
  | b :: rest =>
      if Byte.eqb b IrcConnection.LF
      then (pending :: fst (lines_of [] rest), snd (lines_of [] rest))
      else lines_of (pending ++ [b]) rest
  end.

(** The bytes held by the connection. *)
Definition held (c : Connection.t) : Buffer :=
  match Connection.held_data c with
  | Some h => h
  | None => []
  end.

(** What there is to hold once [data] has arrived: the held bytes plus the
    bytes of [data], less the lines that [data] completes. *)
Definition to_hold (c : Connection.t) (data : Buffer) : Buffer :=
  snd (lines_of (held c) data).

(** The connection holds the partial line [pending] the way [onData] expects
    to find it: with [hold_last] set when there is one. *)
Definition holding (c : Connection.t) (pending : Buffer) : Prop :=
  match pending with
  | [] => Connection.hold_last c = false /\ held_length c = 0%nat
  | _ :: _ => Connection.hold_last c = true /\ Connection.held_data c = Some pending
  end.

(** A chunk that does not meet the missing assignment of [hold_last]: a
    chunk without a line feed arrives only when a partial line is held. *)
Definition no_slip (pending data : Buffer) : Prop :=
  pending <> [] \/ In IrcConnection.LF data \/ data = [].

Definition within_bound (pending data : Buffer) : Prop :=
  (length (snd (lines_of pending data)) <= IrcConnection.max_buffer_size)%nat.

Fixpoint reassembles (pending : Buffer) (chunks : list Buffer) : Prop :=
  match chunks with
  | [] => True
  | data :: rest =>
      no_slip pending data /\ within_bound pending data
      /\ reassembles (snd (lines_of pending data)) rest
  end.

(** The lines that [onData] hands to the parser over successive chunks. *)
Fixpoint feed (chunks : list Buffer) (s : IrcConnection.Self) : list Buffer :=
  match chunks with
  | [] => []
  | data :: rest =>
      result (IrcConnection.frame data s) ++ feed rest (state (IrcConnection.frame data s))
  end.

(** [lines], each followed by a line feed. *)
Definition terminated (lines : list Buffer) : Buffer :=
  concat (map (fun l => l ++ [IrcConnection.LF]) lines).

(** ** Successive chunks *)

(** The socket delivers [chunks], one data event each. *)
Definition receive (chunks : list Buffer) : M IrcConnection.Self unit :=
  for_each chunks IrcConnection.onData.

Definition no_LF (l : Buffer) : Prop := ~ In IrcConnection.LF l.

(** ** What the grammar accepts *)

Fixpoint all_of (p : ascii -> bool) (s : string) : bool :=
  match s with
  | String c r => p c && all_of p r
  | EmptyString => true
  end.

(** A state of the matcher: the position, what is left to read and the
    capture groups set so far. *)
Definition config : Type := nat * string * Regex.captures.

(** [matches r x y]: a match of [r] can lead from [x] to [y]. The relation
    says what a successful run has read and captured; it leaves out the
    order in which the matcher tries the alternatives and what a lookahead
    rules out. *)
Inductive matches : Regex.regex -> config -> config -> Prop :=
| matches_Chr a pos s c :
    matches (Regex.Chr a) (pos, String a s, c) (S pos, s, c)
| matches_Rep greedy min cls pos pre s c :
    (min <= String.length pre)%nat ->
    all_of cls pre = true ->
    matches (Regex.Rep greedy min cls) (pos, (pre ++ s)%string, c)
            ((pos + String.length pre)%nat, s, c)
| matches_Cat r1 r2 x y z :
    matches r1 x y -> matches r2 y z -> matches (Regex.Cat r1 r2) x z
| matches_Alt_l r1 r2 x y : matches r1 x y -> matches (Regex.Alt r1 r2) x y
| matches_Alt_r r1 r2 x y : matches r2 x y -> matches (Regex.Alt r1 r2) x y
| matches_Opt_some r x y : matches r x y -> matches (Regex.Opt r) x y
| matches_Opt_none r x : matches (Regex.Opt r) x x
| matches_Grp n r pos s c pos' s' c' :
    matches r (pos, s, c) (pos', s', c') ->
    matches (Regex.Grp n r) (pos, s, c)
            (pos', s', (n, String.substring 0 (pos' - pos) s) :: c')
| matches_NotAhead r x : matches (Regex.NotAhead r) x x
| matches_Bol s c : matches Regex.Bol (0%nat, s, c) (0%nat, s, c)
| matches_Eol pos c : matches Regex.Eol (pos, "", c) (pos, "", c).

(** The parameters of a message: middle parameters, which hold no space,
    and at most one trailing parameter. *)
Definition well_formed_params (params : list string) : Prop :=
  exists middle trailing,
    params = middle ++ trailing
    /\ Forall (fun p => all_of Grammar.not_space p = true) middle
    /\ (length trailing <= 1)%nat.

(** A word: not empty, no white space. *)
Definition word (s : string) : Prop :=
  s <> "" /\ all_of Grammar.S_ s = true.

(** A source name (a nick or a server name): not empty, no white space,
    no ['!']. *)
Definition source_name (s : string) : Prop :=
  s <> "" /\ all_of Grammar.not_s_bang s = true.

(** ** The life of a connection *)

(** The calls a connection receives: its methods, and the handlers it has
    registered on the socket and on its timers. *)
Inductive invocation : Type :=
| Connect
| ConnectionSetup
| Disconnect (message : option string)
| Dispose (message : option string)
| OnData (data : Buffer)
| End
| Send (data : string)
| OnClose
| OnError (code : string)
| Reconnect
| OnEnd
| Pong (message : option string) (has_done : bool).

Definition invoke (i : invocation) : M IrcConnection.Self unit :=
  match i with
  | Connect => IrcConnection.connect
  | ConnectionSetup => IrcConnection.connectionSetup
  | Disconnect message => IrcConnection.disconnect message
  | Dispose message => IrcConnection.dispose message
  | OnData data => IrcConnection.onData data
  | End => IrcConnection.end_
  | Send data => IrcConnection.send data
  | OnClose => IrcConnection.onClose
  | OnError code => IrcConnection.onError code
  | Reconnect => IrcConnection.reconnect
  | OnEnd => IrcConnection.onEnd
  | Pong message has_done => IrcConnection.pong message has_done
  end.

(** The handlers registered on the socket, and the keep-alive handler,
    which reads [this.socket.destroyed]: they run while the connection has a
    socket. *)
Definition on_socket (i : invocation) : bool :=
  match i with
  | ConnectionSetup | OnData _ | OnClose | OnError _ | OnEnd | Pong _ _ => true
  | _ => false
  end.

Definition has_socket (s : IrcConnection.Self) : bool :=
  is_some (Connection.socket (fst s)).

(** A sequence of calls in which every handler of the socket finds one. *)
Fixpoint admissible (calls : list invocation) (s : IrcConnection.Self) : Prop :=
  match calls with
  | [] => True
  | i :: rest =>
      (on_socket i = true -> has_socket s = true)
      /\ admissible rest (state (invoke i s))
  end.

Definition invoke_all (calls : list invocation) : M IrcConnection.Self unit :=
  for_each calls invoke.

(** [keeps I Q m]: [m] keeps the invariant [I], and every call it makes on
    a collaborator satisfies [Q]. *)
Definition keeps {S A} (I : S -> Prop) (Q : event -> bool) (m : M S A) : Prop :=
  forall s, I s -> I (state (m s)) /\ Forall (fun e => Q e = true) (events (m s)).

Definition is_push (e : event) : bool :=
  match e with buffer_push _ => true | _ => false end.

(** A call on the socket, or a write to the stream that is piped into
    it. *)
Definition on_the_wire (e : event) : bool :=
  match e with
  | tls_connect _ _ _ | socket_connect _ _ | socket_on _ _ | socket_end
  | socket_destroy | socket_removeAllListeners | buffer_pipe | buffer_push _ => true
  | _ => false
  end.

Fixpoint ends_with (suffix s : string) : bool :=
  String.eqb s suffix
  || match s with
     | String _ r => ends_with suffix r
     | EmptyString => false
     end.

(** A chunk written to the stream is a line: it ends with CR LF. *)
Definition is_line (e : event) : bool :=
  match e with
  | buffer_push chunk => ends_with IrcConnection.CRLF chunk
  | _ => true
  end.

Definition requested (s : IrcConnection.Self) : Prop :=
  Connection.request_disconnect (fst s) = true.

Definition down (s : IrcConnection.Self) : Prop :=
  Connection._connected (fst s) = false.

Definition starts_timer (e : event) : bool :=
  match e with
  | new_Timer _ _ _ _ | timer_start _ => true
  | _ => false
  end.

Definition before_setup (i : invocation) : bool :=
  match i with ConnectionSetup => false | _ => true end.

(** A connection that is marked connected and has no socket. *)
Definition dead (s : IrcConnection.Self) : Prop :=
  Connection._connected (fst s) = true /\ Connection.socket (fst s) = None.

(** A connection that has completed a handshake with server B. *)
Definition established : IrcConnection.Self :=
  state (invoke_all [Connect; ConnectionSetup]
                    (IrcConnection.new 1, Sample.pool)).

Definition off_the_wire (e : event) : bool := negb (on_the_wire e).
Definition not_a_push (e : event) : bool := negb (is_push e).
Definition anything (s : IrcConnection.Self) : Prop := True.

(** *** Timers *)

Definition is_new_Timer (e : event) : bool :=
  match e with new_Timer _ _ _ _ => true | _ => false end.

(** The number of timers that the calls [evs] have asked the timer factory
    for. *)
Definition timers_made (evs : list event) : nat :=
  length (List.filter is_new_Timer evs).

(** The number of timers of a connection that are still to be made: the
    keep-alive timer and the reconnect timer. *)
Definition timers_missing (s : IrcConnection.Self) : nat :=
  ((if is_some (Connection.pong_timer (fst s)) then 0 else 1)
   + (if is_some (Connection.reconnect_timer (fst s)) then 0 else 1))%nat.

(** [spends B m]: every timer that [m] makes is one that was missing. *)
Definition spends {S A} (B : S -> nat) (m : M S A) : Prop :=
  forall s, (timers_made (events (m s)) + B (state (m s)) <= B s)%nat.

(** ** Nick generation *)

(** What a call of [generate_nick] that returns [n] has done: [n] is
    made of the characters a nick may have, it is the network's nick from
    then on, and no call was made on a collaborator. *)
Definition generated (r : option string * World * list event) (n : string) : Prop :=
  result r = Some n
  /\ all_of nick_char n = true
  /\ Net.nick (network (state r)) = n
  /\ events r = [].

(** [String.fromCharCode( 97 + Math.floor( Math.random() * 26 ) )] at the
    next draw. *)
Definition next_letter (w : World) : ascii :=
  ascii_of_nat (97 + Math_random w (draws w) mod 26).

(** ** The server pool *)

(** The cursor of the selection points into the pool (or is 0 while the
    pool is empty). *)
Definition cursor_in_range (w : World) : Prop :=
  (Net._index (network w) < Nat.max 1 (length (Net.servers (network w))))%nat.

(** The server that [next_server( index )] looks at first. *)
Definition looked_at (index : option Z) (w : World) : option nat :=
  match index with
  | Some n =>
      if ((0 <=? n) && (n <? Z.of_nat (length (Net.servers (network w)))))%Z
      then Net.servers (network w) !! Z.to_nat n
      else at_cursor w
  | None => at_cursor w
  end.

(** A call that opens a socket. *)
Definition opens_socket (e : event) : bool :=
  match e with
  | tls_connect _ _ _ | socket_connect _ _ => true
  | _ => false
  end.

(** The hosts of a pool that held [seen] once [new] have been offered to
    it, in order: a host that is there already is dropped. *)
Fixpoint add_hosts (seen new : list string) : list string :=
  match new with
  | [] => seen
  | h :: rest =>
      add_hosts (if existsb (String.eqb h) seen then seen else seen ++ [h]) rest
  end.

(** The error codes for which [onError] gives the server up. *)
Definition gives_up (code : string) (c : Connection.t) (w : World) : Prop :=
  code = "ENETUNREACH"
  \/ (code = "ETIMEDOUT"
      /\ (Connection.reconnect_attempts c < Net.connection_attempts (network w))%Z).

(** ** The life of a network *)

(** A call on the connection of the network, when it has one; a handler
    of the socket is not called while the connection has no socket. *)
Definition deliver (i : invocation) : M World unit :=
  conn <- IRC.this Net.connection ;;
  match conn with
  | Some c =>
      if on_socket i && negb (is_some (Connection.socket c)) then ret tt
      else IRC.on_connection (invoke i) c
  | None => ret tt
  end.

(** A network that is connected to server B: [connect()] has run, the
    socket has connected, and the listener of 'connect::<name>' has marked
    the network connected. *)
Definition online : World :=
  state ((IRC.connect ;; deliver ConnectionSetup ;; IRC.onConnect) Sample.pool).

(** [e] opens no socket but to [server]. *)
Definition dials (server : IrcServer.t) (e : event) : bool :=
  match e with
  | socket_connect port host =>
      (port =? IrcServer.port server)%Z && String.eqb host (IrcServer.host server)
  | tls_connect _ host port =>
      (port =? IrcServer.port server)%Z && String.eqb host (IrcServer.host server)
  | _ => true
  end.

(** What [next_server] leaves alone. *)
Definition beside_selection (w : World)
  : option Connection.t * list IrcServer.t * list nat * IIrcOptions * bool :=
  (Net.connection (network w), objects w, Net.servers (network w),
   Net.options (network w), Net._connected (network w)).

(** What neither [dispose] nor [connect] writes: the server the
    connection was made for, and the world. *)
Definition target (s : IrcConnection.Self) : nat * World :=
  (Connection.server (fst s), snd s).

Definition opens_none (e : event) : bool := negb (opens_socket e).
Definition any_world (w : World) : Prop := True.

(** [triple P m I Q]: from a state that satisfies [P], [m] ends in a state
    that satisfies [I], and every call it makes on a collaborator satisfies
    [Q]. *)
Definition triple {S A} (P : S -> Prop) (m : M S A) (I : S -> Prop) (Q : event -> bool)
  : Prop :=
  forall s, P s -> I (state (m s)) /\ Forall (fun e => Q e = true) (events (m s)).

(** The network has a connection, which was made for the server [k], and
    the server objects are [objs]. *)
Definition aims (k : nat) (objs : list IrcServer.t) (w : World) : Prop :=
  (exists c, Net.connection (network w) = Some c /\ Connection.server c = k)
  /\ objects w = objs.

(** What is asked of a network: the calls of its methods, the listeners and
    timer handlers it has installed, and the calls that reach its
    connection. *)
Inductive request : Type :=
| AddServer (serve : IIrcServerOptions) (has_callback : bool)
| RemoveServer (server : nat)
| RemoveServerByHost (host : string)
| ConnectNetwork
| DisconnectNetwork (message : option string) (has_callback : bool)
| Jump
| NextServer (index : option Z)
| GenerateNick (nick : string) (force : bool)
| DisableCheck
| OnRegistered
| OnConnect
| Deliver (i : invocation).

Definition perform (r : request) : M World unit :=
  match r with
  | AddServer serve has_callback => IRC.addServer serve has_callback
  | RemoveServer server => IRC.removeServer server
  | RemoveServerByHost host => IRC.removeServerByHost host
  | ConnectNetwork => IRC.connect
  | DisconnectNetwork message has_callback => IRC.disconnect message has_callback
  | Jump => IRC.jump
  | NextServer index => IRC.next_server index ;; ret tt
  | GenerateNick nick force => IRC.generate_nick 3 nick force ;; ret tt
  | DisableCheck => IRC.disableCheck
  | OnRegistered => IRC.onRegistered
  | OnConnect => IRC.onConnect
  | Deliver i => deliver i
  end.

Definition perform_all (requests : list request) : M World unit :=
  for_each requests perform.

(** The invariant of the pool: the references held in [servers] point to
    server objects, no two of these have the same host, and the cursor of
    the selection is in range. *)
Definition sound_pool (w : World) : Prop := unique_hosts w /\ cursor_in_range w.

Definition sound_pool_of_self (s : IrcConnection.Self) : Prop := sound_pool (snd s).

Definition anything_goes (e : event) : bool := true.

(** The world of a network that has just been constructed, before its
    servers are added. *)
Definition new_world (options : IIrcOptions) (enable : bool) (random : nat -> nat)
  : World :=
  {| network := IRC.new options enable;
     objects := [];
     Math_random := random;
     draws := 0 |}.

(** [o], when it is a server, is a server of the pool. *)
Definition member (w : World) (o : option nat) : Prop :=
  match o with
  | Some s => In s (Net.servers (network w))
  | None => True
  end.

(** The active server and the server of the connection are servers of the
    pool. *)
Definition selected (w : World) : Prop :=
  member w (Net.active_server (network w))
  /\ member w (option_map Connection.server (Net.connection (network w))).

(** What no method of a connection writes: the server it was made for,
    the array of servers and the active server of the network. *)
Definition anchored (k : nat) (l : list nat) (a : option nat) (s : IrcConnection.Self)
  : Prop :=
  Connection.server (fst s) = k
  /\ Net.servers (network (snd s)) = l
  /\ Net.active_server (network (snd s)) = a.

(** The world in which the network decodes with [encoding]. *)
Definition with_encoding (encoding : string) (w : World) : World :=
  let n := network w in
  let o := Net.options n in
  set_network
    {| Net.options :=
         {| name := name o;
            opt_nick := opt_nick o;
            altnick := altnick o;
            user := user o;
            realname := realname o;
            modes := modes o;
            opt_password := opt_password o;
            quit_message := quit_message o;
            encoding := encoding;
            reject_invalid_certs := reject_invalid_certs o;
            opt_connection_attempts := opt_connection_attempts o |};
       Net.nick := Net.nick n;
       Net.connection_attempts := Net.connection_attempts n;
       Net._enable := Net._enable n;
       Net._connected := Net._connected n;
       Net.servers := Net.servers n;
       Net.channel := Net.channel n;
       Net.connection := Net.connection n;
       Net.active_server := Net.active_server n;
       Net._index := Net._index n;
       Net.auto_disabled_timer := Net.auto_disabled_timer n;
       Net.auto_disable_interval := Net.auto_disable_interval n;
       Net.auto_disable_times := Net.auto_disable_times n |}
    w.

(** A character of 7-bit ASCII. *)
Definition seven_bit (c : ascii) : bool := (N_of_ascii c <? 128)%N.

(** The encodings that read a byte below 0x80 as the character of that
    code: 'utf8', the default, and the one-byte encodings. *)
Definition reads_as_written (encoding : string) : Prop :=
  In (JS.toLowerCase encoding) ["utf8"; "utf-8"; "latin1"; "binary"; "ascii"].

(** A command that cannot be taken for tags or for a source: a word that
    starts with neither ['@'] nor [':']. *)
Definition plain_command (cmd : string) : Prop :=
  all_of Grammar.S_ cmd = true
  /\ match cmd with
     | String c _ => Ascii.eqb "@" c = false /\ Ascii.eqb ":" c = false
     | EmptyString => False
     end.

(** A message that has nothing but a command and parameters. *)
Definition bare_message (cmd : string) (params : list string) : msg_obj :=
  {| tags := []; prefix := None; nick := None; ident := ""; hostname := "";
     command := Some cmd; params := params |}.

(** The selection of [w] has nothing to return: the server at the cursor
    is disabled and so is every other server of the pool; the network is
    enabled and not connected. *)
Definition exhausted (s : nat) (w : World) : Prop :=
  Net._enable (network w) = true
  /\ Net._connected (network w) = false
  /\ at_cursor w = Some s
  /\ IrcServer.disabled (objects w !!! s) = true
  /\ first_enabled w = None.

(** The network has been disabled by the selection and waits for its
    auto-disable timer. *)
Definition auto_disabled (w : World) : Prop :=
  Net._enable (network w) = false
  /\ is_some (Net.auto_disabled_timer (network w)) = true.

(** ** The reconnection counter *)

(** The counter of reconnection attempts of a connection, and the delay it
    has stored. *)
Definition counter (s : IrcConnection.Self) : Z :=
  Connection.reconnect_attempts (fst s).

Definition stored_delay (s : IrcConnection.Self) : Z :=
  Connection.reconnect_delay (fst s).

(** A number that JavaScript holds exactly: an integer from 0 to below
    2^53. *)
Definition exact (z : Z) : Prop := (0 <= z < 2 ^ 53)%Z.

(** The calls that can add to the counter: the timeout errors. *)
Definition counts (i : invocation) : bool :=
  match i with
  | OnError code => String.eqb code "ETIMEDOUT"
  | _ => false
  end.

(** The calls that can reach [reconnect()]. *)
Definition reschedules (i : invocation) : bool :=
  match i with
  | OnClose | OnError _ | Reconnect => true
  | _ => false
  end.

(** The network has a connection, whose counter is [k]. *)
Definition counted (k : Z) (w : World) : Prop :=
  exists c, Net.connection (network w) = Some c /\ Connection.reconnect_attempts c = k.

(** The requests that can add to the counter: the timeout errors that
    reach the connection. *)
Definition counting (r : request) : bool :=
  match r with
  | Deliver i => counts i
  | _ => false
  end.

(** ** Removing a server *)

(** The world once [active_server] has been cleared. *)
Definition cleared (w : World) : World :=
  set_network (Net.set_active_server None (network w)) w.

(** [s] is in the array of servers and is the active server. *)
Definition active_member (s : nat) (w : World) : Prop :=
  In s (Net.servers (network w)) /\ Net.active_server (network w) = Some s.

(** The world in which the network holds the connection [c]. *)
Definition holding_connection (c : Connection.t) (w : World) : World :=
  set_network (Net.set_connection (Some c) (network w)) w.

(** The log line of a [connect()] that returns at once. *)
Definition autodisabled_log (w : World) : list event :=
  if is_some (Net.auto_disabled_timer (network w))
  then [Logger_info "network has been autodisabled" [Str (name (Net.options (network w)))]]
  else [].

(** * Properties *)

(** ** Running a method symbolically *)

Ltac exec :=
  cbn -[lookup_total lookup List.find IRC.advance String.append String.eqb
        Z.add Z.mul Z.eqb Z.ltb alter app length].

Lemma outcome_eq {S A} (r : A * S * list event) a s e :
  result r = a -> state r = s -> events r = e -> r = (a, s, e).
Proof. destruct r as [[a' s'] e']. cbn. congruence. Qed.

(** ** Parsing *)

(** C8, as stated, fails: for the line with a full [nick!ident@host] mask the
    prefix is not ['nick']; every other field is as the claim says. *)
Lemma parse_full_mask_prefix_is_not_nick :
  (exists m, IrcConnection.parse full_mask_line = Some m
             /\ nick m = Some "nick" /\ command m = Some "COMMAND")
  /\ ~ (exists m, IrcConnection.parse full_mask_line = Some m
                  /\ prefix m = Some "nick").
Proof.
  split.
  - eexists. split; [vm_compute; reflexivity | split; reflexivity].
  - intros [m [H P]]. vm_compute in H. injection H as <-. discriminate P.
Qed.

(** C8, amended: parsing
    [@tag=val :nick!ident@host COMMAND p1 p2 :trailing with spaces] yields
    tags [[{tag: 'tag', value: 'val'}]], no prefix (the prefix slot is only
    filled by a source without [!]), nick ['nick'], ident ['ident'],
    hostname ['host'], command ['COMMAND'] and params
    [['p1', 'p2', 'trailing with spaces']]. *)
Theorem parse_full_mask :
  IrcConnection.parse full_mask_line
  = Some {| tags := [ {| tag := Some "tag"; value := Some "val" |} ];
            prefix := None;
            nick := Some "nick";
            ident := "ident";
            hostname := "host";
            command := Some "COMMAND";
            params := ["p1"; "p2"; "trailing with spaces"] |}.
Proof. vm_compute. reflexivity. Qed.

(** The tie-break of the grammar: a bare source is both prefix and nick. *)
Example parse_bare_source :
  IrcConnection.parse ":irc.example.net 001 kwirk :Welcome"
  = Some {| tags := [];
            prefix := Some "irc.example.net";
            nick := Some "irc.example.net";
            ident := "";
            hostname := "";
            command := Some "001";
            params := ["kwirk"; "Welcome"] |}.
Proof. vm_compute. reflexivity. Qed.

(** C2, as stated, fails: ["PING :abc"] matches the grammar and a message is
    built for it, but [parseMessage] hands nothing over; it makes no call at
    all. *)
Lemma parseMessage_forwards_nothing :
  IrcConnection.parse "PING :abc"
  = Some {| tags := []; prefix := None; nick := None; ident := ""; hostname := "";
            command := Some "PING"; params := ["abc"] |}
  /\ events (IrcConnection.parseMessage "PING :abc" (Sample.connection, Sample.pool)) = []
  /\ length (filter hands_over
               (events (IrcConnection.parseMessage "PING :abc"
                          (Sample.connection, Sample.pool)))) <> 1%nat.
Proof. vm_compute. repeat split; discriminate. Qed.

(** C2, amended: for every line that matches the grammar [parseMessage]
    builds a structured message (tags, prefix, nick, ident, hostname,
    command, params), which stays a local of the call: the call changes no
    state and makes no call on a collaborator. The only effect
    [parseMessage] ever has is the warning it logs for a line that is not
    empty and does not match. *)
Theorem parseMessage_effects (line : string) (s : IrcConnection.Self) :
  (forall message,
      line <> "" ->
      Regex.exec Grammar.parse_regex (JS.replace_cr (JS.trim line)) = Some message ->
      IrcConnection.parse line = Some (IrcConnection.build_msg_obj message))
  /\ state (IrcConnection.parseMessage line s) = s
  /\ events (IrcConnection.parseMessage line s)
     = match IrcConnection.parse line with
       | Some _ => []
       | None =>
           if String.eqb line "" then []
           else [Logger_warn "Malformed IRC line: %s"
                             [Str (JS.replace_cr (JS.trim line))]]
       end.
Proof.
  unfold IrcConnection.parse, IrcConnection.parseMessage, JS.truthy.
  destruct (String.eqb_spec line "") as [-> | Hne]; simpl.
  - repeat split. intros message Hne. now contradict Hne.
  - destruct (Regex.exec _ _) as [message |]; simpl; repeat split.
    + intros m _ [= ->]. reflexivity.
    + intros m _ [=].
Qed.

(** ** Framing across chunks *)

(** C1: the code does not reassemble a line whose first chunk holds no line
    feed when nothing was held before. Fed to a fresh connection as one
    chunk, ["PING :abc\r\n"] gives the parser the one line ["PING :abc\r"],
    command PING. Fed as ["PI"] then ["NG :abc\r\n"], the first chunk is
    stored in [held_data] without [hold_last] being set, so the second chunk
    is not merged with it: the parser is given ["NG :abc\r"], command NG,
    and ["PI"] stays in [held_data]. *)
Theorem onData_split_line_is_not_reassembled :
  let fresh := (Sample.connection, Sample.pool) in
  let whole := IrcConnection.frame (Sample.bytes ("PING :abc" ++ Sample.CRLF)) fresh in
  let first := IrcConnection.frame (Sample.bytes "PI") fresh in
  let second :=
    IrcConnection.frame (Sample.bytes ("NG :abc" ++ Sample.CRLF)) (state first) in
  map (Buffer_toString "utf8") (result whole) = [text ("PING :abc" ++ Sample.CR)]
  /\ map (Buffer_toString "utf8") (result first ++ result second)
     = [text ("NG :abc" ++ Sample.CR)]
  /\ option_map command (IrcConnection.parse ("PING :abc" ++ Sample.CR))
     = Some (Some "PING")
  /\ option_map command (IrcConnection.parse ("NG :abc" ++ Sample.CR))
     = Some (Some "NG")
  /\ Connection.held_data (fst (state second)) = Some (Sample.bytes "PI")
  /\ Connection.hold_last (fst (state second)) = false.
Proof. vm_compute. repeat split. Qed.

(** ** The framer of the spec *)

Lemma lines_of_app (p a b : Buffer) :
  lines_of p (a ++ b)
  = (fst (lines_of p a) ++ fst (lines_of (snd (lines_of p a)) b),
     snd (lines_of (snd (lines_of p a)) b)).
Proof.
  revert p. induction a as [| x a IH]; intros p.
  - cbn. now destruct (lines_of p b).
  - cbn [app lines_of]. destruct (Byte.eqb x IrcConnection.LF).
    + rewrite (IH []). reflexivity.
    + apply IH.
Qed.

Lemma lines_of_pending (p q d : Buffer) :
  lines_of (p ++ q) d
  = match fst (lines_of q d) with
    | [] => ([], p ++ snd (lines_of q d))
    | first :: others => ((p ++ first) :: others, snd (lines_of q d))
    end.
Proof.
  revert q. induction d as [| b d IH]; intros q; [reflexivity |].
  cbn [lines_of]. destruct (Byte.eqb b IrcConnection.LF); [reflexivity |].
  rewrite <- app_assoc. apply IH.
Qed.

Lemma lines_of_no_LF (p d : Buffer) :
  ~ In IrcConnection.LF d -> lines_of p d = ([], p ++ d).
Proof.
  revert p. induction d as [| b d IH]; intros p H; cbn [lines_of].
  - now rewrite app_nil_r.
  - destruct (Byte.eqb b IrcConnection.LF) eqn:E.
    + apply Byte.byte_dec_bl in E. subst b. exfalso. apply H. now left.
    + rewrite IH by (intros Hin; apply H; now right).
      now rewrite <- app_assoc.
Qed.

Lemma lines_of_LF (p d : Buffer) :
  In IrcConnection.LF d -> fst (lines_of p d) <> [].
Proof.
  revert p. induction d as [| b d IH]; intros p H; [destruct H |].
  cbn [lines_of]. destruct (Byte.eqb b IrcConnection.LF) eqn:E; [discriminate |].
  apply IH. destruct H as [-> | H]; [| exact H].
  now rewrite (@Byte.byte_dec_lb IrcConnection.LF IrcConnection.LF eq_refl) in E.
Qed.

(** What is left to hold after a chunk: everything when the chunk has no
    line feed, what follows the last line feed otherwise. *)
Lemma lines_of_tail (p d : Buffer) :
  (~ In IrcConnection.LF d /\ snd (lines_of p d) = p ++ d)
  \/ (exists pre tail,
         d = pre ++ IrcConnection.LF :: tail
         /\ ~ In IrcConnection.LF tail
         /\ snd (lines_of p d) = tail).
Proof.
  revert p. induction d as [| b d IH]; intros p.
  - left. split; [intros [] | cbn; now rewrite app_nil_r].
  - cbn [lines_of]. destruct (Byte.eqb b IrcConnection.LF) eqn:E.
    + apply Byte.byte_dec_bl in E. subst b. right. cbn [snd].
      destruct (IH []) as [[Hno Hs] | (pre & tail & Hd & Hno & Hs)].
      * exists [], d. repeat split; [exact Hno | exact Hs].
      * exists (IrcConnection.LF :: pre), tail. subst d. repeat split; assumption.
    + destruct (IH (p ++ [b])) as [[Hno Hs] | (pre & tail & Hd & Hno & Hs)].
      * left. split; [| now rewrite Hs, <- app_assoc].
        intros [Hb | Hin]; [| contradiction]. subst b.
        now rewrite (@Byte.byte_dec_lb IrcConnection.LF IrcConnection.LF eq_refl) in E.
      * right. exists (b :: pre), tail. subst d. repeat split; assumption.
Qed.

(** ** The bound on the held partial line *)

Lemma scan_no_LF (data rest : Buffer) (data_pos line_start : nat) lines :
  ~ In IrcConnection.LF rest ->
  IrcConnection.scan data rest data_pos line_start lines = (lines, line_start).
Proof.
  revert data_pos. induction rest as [| b rest IH]; intros data_pos H; [reflexivity |].
  cbn [IrcConnection.scan].
  destruct (Byte.eqb b IrcConnection.LF) eqn:E.
  - apply Byte.byte_dec_bl in E. subst b. exfalso. apply H. now left.
  - apply IH. intros Hin. apply H. now right.
Qed.

Lemma scan_app (data r1 r2 : Buffer) (data_pos line_start : nat) lines :
  IrcConnection.scan data (r1 ++ r2) data_pos line_start lines
  = IrcConnection.scan data r2 (data_pos + length r1)
      (snd (IrcConnection.scan data r1 data_pos line_start lines))
      (fst (IrcConnection.scan data r1 data_pos line_start lines)).
Proof.
  revert data_pos line_start lines.
  induction r1 as [| b r1 IH]; intros data_pos line_start lines.
  - cbn. now rewrite Nat.add_0_r.
  - cbn [app IrcConnection.scan length].
    destruct (Byte.eqb b IrcConnection.LF); rewrite IH; f_equal; lia.
Qed.

(** A chunk whose last line feed is followed by [tail]. *)
Lemma scan_last_LF (pre tail : Buffer) :
  ~ In IrcConnection.LF tail ->
  let data := pre ++ IrcConnection.LF :: tail in
  exists first others,
    IrcConnection.scan data data 0 0 [] = (first :: others, S (length pre)).
Proof.
  intros H data.
  assert (E : exists lines line, IrcConnection.scan data data 0 0 []
                            = (lines ++ [line], S (length pre))).
  { unfold data at 2. rewrite scan_app. cbn [IrcConnection.scan].
    change (Byte.eqb IrcConnection.LF IrcConnection.LF) with true. cbn [Nat.add].
    rewrite scan_no_LF by exact H. eauto. }
  destruct E as (lines & line & E). rewrite E.
  destruct lines as [| l ls]; cbn [app]; eauto.
Qed.

(** The two cases in which [onData] refuses a chunk: no line feed and more
    than 1024 bytes once appended to the held ones; more than 1024 bytes
    after the last line feed. *)
Lemma onData_overflow_cases (data : Buffer) (c : Connection.t) (w : World) :
  (~ In IrcConnection.LF data
   /\ (IrcConnection.max_buffer_size < held_length c + length data)%nat)
  \/ (exists pre tail,
         data = pre ++ IrcConnection.LF :: tail
         /\ ~ In IrcConnection.LF tail
         /\ (IrcConnection.max_buffer_size < length tail)%nat) ->
  events (IrcConnection.onData data (c, w))
  = [bot_emit "error" [Str "Message buffer too large"]; socket_destroy]
  /\ result (IrcConnection.frame data (c, w)) = []
  /\ Connection.socket (fst (state (IrcConnection.onData data (c, w))))
     = Connection.socket (destroy c)
  /\ snd (state (IrcConnection.onData data (c, w))) = w.
Proof.
  intros [[Hno Hlen] | (pre & tail & -> & Hno & Hlen)].
  - unfold IrcConnection.onData, IrcConnection.frame.
    rewrite (scan_no_LF data data 0 0 [] Hno).
    apply Nat.ltb_lt in Hlen. unfold held_length in Hlen.
    destruct c as [srv ra rd conn delay pong rt held hl sock].
    cbn [Connection.held_data] in Hlen.
    cbn -[Nat.ltb IrcConnection.max_buffer_size length].
    rewrite Hlen.
    cbn -[Nat.ltb IrcConnection.max_buffer_size length].
    repeat split.
  - destruct (scan_last_LF pre tail Hno) as (first & others & E).
    unfold IrcConnection.onData, IrcConnection.frame. rewrite E.
    assert (Hpos : (S (length pre) <? length (pre ++ IrcConnection.LF :: tail))%nat = true).
    { apply Nat.ltb_lt. rewrite length_app. cbn [length].
      unfold IrcConnection.max_buffer_size in Hlen. lia. }
    assert (Hover : (IrcConnection.max_buffer_size
                     <? length (pre ++ IrcConnection.LF :: tail) - S (length pre))%nat
                    = true).
    { apply Nat.ltb_lt. rewrite length_app. cbn [length]. lia. }
    destruct c as [srv ra rd conn delay pong rt held hl sock].
    destruct hl, held as [h |];
      cbn -[Nat.ltb IrcConnection.max_buffer_size length app];
      rewrite Hpos;
      cbn -[Nat.ltb IrcConnection.max_buffer_size length app];
      rewrite Hover;
      cbn -[Nat.ltb IrcConnection.max_buffer_size length app];
      repeat split.
Qed.

(** C7: if the held bytes plus the incoming bytes, less the lines that
    these complete, exceed the 1024-byte bound (that is: the held partial
    line plus the chunk, for a chunk without a line feed; the bytes after
    the last line feed, for a chunk with one), [onData] emits 'error' with
    'Message buffer too large' exactly once, destroys the socket, makes no
    other call, and hands no line of that chunk to the parser. *)
Theorem onData_overflow (data : Buffer) (c : Connection.t) (w : World) :
  (IrcConnection.max_buffer_size < length (to_hold c data))%nat ->
  events (IrcConnection.onData data (c, w))
  = [bot_emit "error" [Str "Message buffer too large"]; socket_destroy]
  /\ result (IrcConnection.frame data (c, w)) = []
  /\ Connection.socket (fst (state (IrcConnection.onData data (c, w))))
     = Connection.socket (destroy c)
  /\ snd (state (IrcConnection.onData data (c, w))) = w.
Proof.
  unfold to_hold. intros H. apply onData_overflow_cases.
  destruct (lines_of_tail (held c) data) as [[Hno Hs] | (pre & tail & Hd & Hno & Hs)];
    rewrite Hs in H.
  - left. split; [exact Hno |].
    rewrite length_app in H. unfold held in H. unfold held_length.
    destruct (Connection.held_data c); exact H.
  - right. exists pre, tail. repeat split; assumption.
Qed.

(** 1025 bytes without a line feed, received by a connection that holds
    nothing; and 1025 bytes after a complete line. *)
Lemma onData_overflow_witness :
  let data := repeat "a"%byte 1025 in
  let late := Sample.bytes "PING :abc" ++ IrcConnection.LF :: data in
  ((IrcConnection.max_buffer_size < length (to_hold Sample.connection data))%nat
   /\ (IrcConnection.max_buffer_size < length (to_hold Sample.connection late))%nat)
  /\ events (IrcConnection.onData data (Sample.connection, Sample.pool))
     = [bot_emit "error" [Str "Message buffer too large"]; socket_destroy]
  /\ result (IrcConnection.frame late (Sample.connection, Sample.pool)) = [].
Proof.
  assert (H1 : (IrcConnection.max_buffer_size
                < length (to_hold Sample.connection (repeat "a"%byte 1025)))%nat)
    by (vm_compute; lia).
  assert (H2 : (IrcConnection.max_buffer_size
                < length (to_hold Sample.connection
                            (Sample.bytes "PING :abc"
                               ++ IrcConnection.LF :: repeat "a"%byte 1025)))%nat)
    by (vm_compute; lia).
  split; [split; [exact H1 | exact H2] | split].
  - exact (proj1 (onData_overflow _ Sample.connection Sample.pool H1)).
  - exact (proj1 (proj2 (onData_overflow _ Sample.connection Sample.pool H2))).
Defined.

(** ** What the framer does reassemble *)

(** The loop of [onData] computes the lines and where the partial line
    starts. *)
Lemma scan_lines_of (data rest done : Buffer) (line_start : nat) lines :
  data = done ++ rest ->
  (line_start <= length done)%nat ->
  let r := IrcConnection.scan data rest (length done) line_start lines in
  fst r = lines ++ fst (lines_of (drop line_start done) rest)
  /\ drop (snd r) data = snd (lines_of (drop line_start done) rest)
  /\ (snd r <= length data)%nat.
Proof.
  revert done line_start lines.
  induction rest as [| b rest IH]; intros done line_start lines Hd Hle r; subst r.
  - cbn [IrcConnection.scan lines_of fst snd]. rewrite app_nil_r in Hd. subst data.
    repeat split; [now rewrite app_nil_r | exact Hle].
  - cbn [IrcConnection.scan lines_of].
    assert (Hd' : data = (done ++ [b]) ++ rest) by (now rewrite <- app_assoc).
    assert (Hl : length (done ++ [b]) = S (length done))
      by (rewrite length_app; cbn; lia).
    destruct (Byte.eqb b IrcConnection.LF).
    + specialize (IH (done ++ [b]) (S (length done))
                     (lines ++ [IrcConnection.slice line_start (length done) data]) Hd').
      rewrite Hl in IH. specialize (IH (le_n _)). cbn zeta in IH.
      rewrite <- Hl, drop_all in IH. rewrite Hl in IH.
      destruct IH as (IH1 & IH2 & IH3).
      cbn [fst snd]. rewrite IH1, IH2. repeat split; [| exact IH3].
      rewrite <- app_assoc. cbn [app]. do 2 f_equal.
      unfold IrcConnection.slice. subst data.
      rewrite drop_app_le by exact Hle.
      apply take_app_length'. rewrite length_drop. reflexivity.
    + specialize (IH (done ++ [b]) line_start lines Hd').
      rewrite Hl in IH. specialize (IH (Nat.le_trans _ _ _ Hle (Nat.le_succ_diag_r _))).
      cbn zeta in IH. rewrite drop_app_le in IH by exact Hle. exact IH.
Qed.

Lemma scan_whole (data : Buffer) :
  fst (IrcConnection.scan data data 0 0 []) = fst (lines_of [] data)
  /\ drop (snd (IrcConnection.scan data data 0 0 [])) data = snd (lines_of [] data)
  /\ (snd (IrcConnection.scan data data 0 0 []) <= length data)%nat.
Proof. exact (scan_lines_of data data [] 0 [] eq_refl (le_n 0)). Qed.

Ltac exec_frame :=
  cbn -[Nat.ltb IrcConnection.max_buffer_size length app drop lines_of].

(** One chunk: when the connection holds [pending] and the chunk neither
    meets the slip nor exceeds the bound, [onData] hands the parser the
    lines of the spec's framer, makes no call, and holds what the spec's
    framer holds. *)
Lemma frame_lines_of (c : Connection.t) (w : World) (p d : Buffer) :
  holding c p -> no_slip p d -> within_bound p d ->
  let r := IrcConnection.frame d (c, w) in
  result r = fst (lines_of p d)
  /\ holding (fst (state r)) (snd (lines_of p d))
  /\ snd (state r) = w
  /\ events r = [].
Proof.
  intros Hh Hs Hb r. subst r.
  unfold within_bound in Hb.
  pose proof (lines_of_pending p [] d) as Hp. rewrite app_nil_r in Hp.
  destruct (scan_whole d) as (H1 & H2 & H3).
  unfold IrcConnection.frame.
  destruct (IrcConnection.scan d d 0 0 []) as [lines ls] eqn:Esc.
  cbn [fst snd] in H1, H2, H3.
  destruct c as [srv ra rd conn delay pong rt held hl sock].
  unfold holding, held_length in Hh. cbn [Connection.hold_last Connection.held_data] in Hh.
  rewrite Hp in *. rewrite <- H1 in *.
  destruct lines as [| first others].
  - (* no line feed in the chunk *)
    assert (Hno : ~ In IrcConnection.LF d).
    { intros Hin. apply (lines_of_LF [] d) in Hin. now rewrite <- H1 in Hin. }
    rewrite (lines_of_no_LF [] d Hno) in *. cbn [fst snd app] in *.
    rewrite length_app in Hb.
    destruct p as [| x p'].
    + destruct Hs as [Hs | [Hs | Hs]]; [now contradict Hs | contradiction |]. subst d.
      destruct Hh as [-> Hlen].
      destruct held as [h |]; exec_frame; rewrite ?Hlen; cbn [length Nat.add];
        change (IrcConnection.max_buffer_size <? 0)%nat with false;
        exec_frame; repeat split.
      unfold held_length. exec_frame. rewrite length_app, Hlen. reflexivity.
    + destruct Hh as [-> ->]. exec_frame.
      assert (Hc : (IrcConnection.max_buffer_size <? length (x :: p') + length d)%nat = false)
        by (apply Nat.ltb_ge; exact Hb).
      rewrite Hc. exec_frame. repeat split.
  - (* at least one line feed *)
    cbn [fst snd] in *.
    assert (Hlen : length (drop ls d) = (length d - ls)%nat) by apply length_drop.
    rewrite H2 in Hlen.
    assert (Hc : (IrcConnection.max_buffer_size <? length d - ls)%nat = false)
      by (apply Nat.ltb_ge; lia).
    destruct (Nat.ltb_spec ls (length d)) as [Hlt | Hge].
    + (* a partial line follows the last line feed *)
      assert (Et : drop ls d = snd (lines_of [] d)) by exact H2.
      destruct (snd (lines_of [] d)) as [| t ts] eqn:Etail;
        [cbn [length] in Hlen; lia |].
      destruct p as [| x p']; [destruct Hh as [-> Hl] | destruct Hh as [-> ->]];
        exec_frame;
        (destruct (Nat.ltb_spec ls (length d)) as [_ | Hn]; [| lia]);
        exec_frame; rewrite Hc; exec_frame; rewrite Et; repeat split.
    + (* the chunk ends with a line feed *)
      assert (Et : snd (lines_of [] d) = []).
      { apply nil_length_inv. lia. }
      rewrite Et.
      destruct p as [| x p']; [destruct Hh as [-> Hl] | destruct Hh as [-> ->]];
        exec_frame;
        (destruct (Nat.ltb_spec ls (length d)) as [Hn | _]; [lia |]);
        exec_frame; repeat split; assumption.
Qed.

Lemma feed_lines_of (chunks : list Buffer) :
  forall (c : Connection.t) (w : World) (p : Buffer),
    holding c p -> reassembles p chunks ->
    feed chunks (c, w) = fst (lines_of p (concat chunks)).
Proof.
  induction chunks as [| d ds IH]; intros c w p Hh Hr; [reflexivity |].
  destruct Hr as (Hs & Hb & Hr).
  destruct (frame_lines_of c w p d Hh Hs Hb) as (Hres & Hh' & Hw & _).
  cbn [feed concat]. rewrite lines_of_app. cbn [fst]. rewrite Hres. f_equal.
  destruct (state (IrcConnection.frame d (c, w))) as [c' w'] eqn:Est.
  cbn [fst snd] in Hh', Hw. subst w'. now apply IH.
Qed.

Lemma lines_of_terminated (lines : list Buffer) :
  Forall (fun l => ~ In IrcConnection.LF l) lines ->
  lines_of [] (terminated lines) = (lines, []).
Proof.
  unfold terminated.
  induction 1 as [| l ls Hl _ IH]; [reflexivity |].
  cbn [map concat]. rewrite lines_of_app, lines_of_app.
  rewrite (lines_of_no_LF [] l Hl). cbn [fst snd app lines_of].
  change (Byte.eqb IrcConnection.LF IrcConnection.LF) with true.
  cbn [fst snd app]. now rewrite IH.
Qed.


(** Two lines, cut inside the second one. *)
Example two_lines_cut_in_the_second :
  let lines := [Sample.bytes ("PING :abc" ++ Sample.CR); Sample.bytes ("PING :def" ++ Sample.CR)] in
  let chunks := [Sample.bytes ("PING :abc" ++ Sample.CRLF ++ "PI");
                 Sample.bytes ("NG :def" ++ Sample.CRLF)] in
  feed chunks (Sample.connection, Sample.pool) = lines.
Proof. vm_compute. reflexivity. Qed.

(** ** The handshake *)

(** C3, as stated, fails: with a password configured the first line sent is
    [CAP LS ], and [PASS] comes third. *)
Lemma handshake_PASS_is_not_first :
  pushes (events (IrcConnection.connectionSetup with_password))
  = map (fun l => (l ++ Sample.CRLF)%string)
        ["CAP LS "; "CAP END"; "PASS secret"; "NICK kwirk";
         "USER KwirK 8 * :KwirK IRC Bot"]
  /\ pushes (events (IrcConnection.connectionSetup with_password))
     <> map (fun l => (l ++ Sample.CRLF)%string)
            ["PASS secret"; "CAP LS "; "CAP END"; "NICK kwirk";
             "USER KwirK 8 * :KwirK IRC Bot"].
Proof. vm_compute. split; [reflexivity | discriminate]. Qed.

(** C3, amended: on transport connect acknowledgment the handshake lines are
    sent in exactly this order: [CAP LS ], then [CAP END], then
    [PASS <password>] (only when the server, or else the network, has a
    non-empty password), then [NICK <generated-nick>], then
    [USER <user> <mode-flag> * :<realname>], where the mode-flag is 8 if
    ['i'] is among the configured modes and 0 otherwise; each line is
    followed by CR LF. *)
Theorem handshake_order (c : Connection.t) (w : World) :
  is_some (Connection.socket c) = true ->
  let server := objects w !!! Connection.server c in
  let o := Net.options (network w) in
  let password := JS.or (IrcServer.password server) (opt_password o) in
  pushes (events (IrcConnection.connectionSetup (c, w)))
  = map (fun l => (l ++ IrcConnection.CRLF)%string)
        (["CAP LS "; "CAP END"]
           ++ (if JS.truthy password
               then [("PASS " ++ default "" password)%string] else [])
           ++ [("NICK " ++ result (generate_nick w))%string;
               ("USER " ++ user o ++ " "
                  ++ (if existsb (String.eqb "i") (modes o) then "8" else "0")
                  ++ " * :" ++ realname o)%string]).
Proof.
  destruct c as [srv ra rd conn delay pong rt held hl sock].
  intros Hsock. simpl in Hsock. destruct sock as [sock|]; [clear Hsock | discriminate].
  intros server o password. subst server o password.
  unfold IrcConnection.connectionSetup, IrcConnection.send_login.
  cbn [Connection.server].
  destruct (JS.or _ _) as [pw |] eqn:Ep;
    [destruct (JS.truthy (Some pw)) eqn:Et |]; destruct pong;
    cbn -[String.append String.eqb existsb JS.truthy JS.or fill_wildcards string_filter];
    rewrite ?Ep, ?Et;
    cbn -[String.append String.eqb existsb JS.truthy JS.or fill_wildcards string_filter];
    reflexivity.
Qed.

(** The handshake of a connection to a server without a password. *)
Lemma handshake_order_witness :
  is_some (Connection.socket Sample.connection) = true
  /\ pushes (events (IrcConnection.connectionSetup (Sample.connection, Sample.pool)))
     = map (fun l => (l ++ IrcConnection.CRLF)%string)
           ["CAP LS "; "CAP END"; "NICK kwirk"; "USER KwirK 8 * :KwirK IRC Bot"].
Proof.
  split; [reflexivity |].
  exact (handshake_order Sample.connection Sample.pool eq_refl).
Defined.

(** ** Reconnection delay *)

Lemma reconnect_outcome (c : Connection.t) (w : World) :
  let delay :=
    IrcConnection.num_or (Connection.reconnect_delay c * Connection.reconnect_attempts c)
                         (Connection.reconnect_delay c) in
  let s := state (IrcConnection.reconnect (c, w)) in
  Connection.reconnect_delay (fst s) = delay
  /\ configured_interval s = Some delay
  /\ option_map running (Connection.reconnect_timer (fst s)) = Some true
  /\ Connection.reconnect_attempts (fst s) = Connection.reconnect_attempts c
  /\ snd s = w.
Proof.
  destruct c as [srv ra rd conn delay pong rt held hl sock].
  unfold configured_interval, IrcConnection.reconnect.
  destruct rt as [t |]; exec; repeat split.
Qed.

(** C5, as stated, fails. With the default configuration the counter stays
    at 0, and the second reconnection in a row (two broken pipes, no
    registration in between) is delayed by the base delay, not by twice the
    base delay. With a ceiling of 0, so that every timeout is counted, three
    timeouts in a row configure 5000, 10000 and then 30000 ms, not
    5000 * 3. *)
Lemma reconnect_interval_is_not_base_times_k :
  let p1 := broken_pipe (Sample.connection, Sample.pool) in
  let p2 := broken_pipe p1 in
  let s1 := timeout (Sample.connection, impatient) in
  let s2 := timeout s1 in
  let s3 := timeout s2 in
  Connection.reconnect_delay Sample.connection = 5000%Z
  /\ (configured_interval p1 = Some 5000%Z
      /\ configured_interval p2 = Some 5000%Z
      /\ configured_interval p2 <> Some (5000 * 2)%Z)
  /\ (configured_interval s1 = Some 5000%Z
      /\ configured_interval s2 = Some 10000%Z
      /\ configured_interval s3 = Some 30000%Z
      /\ Connection.reconnect_attempts (fst s3) = 3%Z
      /\ configured_interval s3 <> Some (5000 * 3)%Z).
Proof. vm_compute. repeat split; discriminate. Qed.

(** ** Server selection *)

Lemma next_server_none (w : World) :
  at_cursor w = None ->
  IRC.next_server None w = (None, moved_on w, []).
Proof.
  unfold at_cursor. intros E. apply outcome_eq; unfold IRC.next_server; exec; rewrite E; reflexivity.
Qed.

Lemma next_server_enabled (w : World) (s : nat) :
  at_cursor w = Some s ->
  IrcServer.disabled (objects w !!! s) = false ->
  IRC.next_server None w = (Some s, moved_on w, []).
Proof.
  unfold at_cursor. intros E D.
  apply outcome_eq; unfold IRC.next_server; exec; rewrite E; exec; rewrite D; reflexivity.
Qed.

Lemma next_server_fallback (w : World) (s f : nat) :
  at_cursor w = Some s ->
  IrcServer.disabled (objects w !!! s) = true ->
  first_enabled w = Some f ->
  IRC.next_server None w = (Some f, moved_on w, []).
Proof.
  unfold at_cursor, first_enabled. intros E D F.
  apply outcome_eq; unfold IRC.next_server; exec; rewrite E; exec; rewrite D; exec;
    rewrite F; reflexivity.
Qed.

Lemma next_server_exhausted (w : World) (s : nat) :
  at_cursor w = Some s ->
  IrcServer.disabled (objects w !!! s) = true ->
  first_enabled w = None ->
  IRC.next_server None w
  = (None, escalated w,
     [Logger_warn "no servers enabled, starting auto disabled timer"
                  [Num (Net.auto_disable_interval (network (escalated w)));
                   Str (name (Net.options (network w)))];
      new_Timer ("auto disabled timer::" ++ name (Net.options (network w)))
                (Net.auto_disable_interval (network (escalated w)))
                (Some true) "disableCheck"]).
Proof.
  unfold at_cursor, first_enabled. intros E D F.
  apply outcome_eq; unfold IRC.next_server; exec; rewrite E; exec; rewrite D; exec;
    rewrite F; reflexivity.
Qed.

(** C4, as stated, fails: for the pool [A(disabled), B, C] the first four
    selections are B, B, C, B and not B, C, B, C. *)
Lemma selections_of_pool_are_not_B_C_B_C :
  selections 4 Sample.pool = [Some 1; Some 1; Some 2; Some 1]%nat
  /\ selections 4 Sample.pool <> [Some 1; Some 2; Some 1; Some 2]%nat.
Proof. vm_compute. split; [reflexivity | discriminate]. Qed.

Lemma selections_period (a b c : nat) (n : nat) :
  forall w : World,
    Net.servers (network w) = [a; b; c] ->
    Net._index (network w) = 0%nat ->
    IrcServer.disabled (objects w !!! a) = true ->
    IrcServer.enabled (objects w !!! b) = true ->
    IrcServer.enabled (objects w !!! c) = true ->
    selections (3 * n) w = concat (replicate n [Some b; Some b; Some c]).
Proof.
  induction n as [| n IH]; intros w Hs Hi Ha Hb Hc; [reflexivity |].
  replace (3 * S n)%nat with (S (S (S (3 * n)))) by lia.
  assert (Db : IrcServer.disabled (objects w !!! b) = false)
    by (unfold IrcServer.disabled, IrcServer.enabled in *; now rewrite Hb).
  assert (Dc : IrcServer.disabled (objects w !!! c) = false)
    by (unfold IrcServer.disabled, IrcServer.enabled in *; now rewrite Hc).
  assert (Ea : IrcServer.enabled (objects w !!! a) = false)
    by (unfold IrcServer.disabled, IrcServer.enabled in *;
        now destruct (IrcServer._enable _)).
  cbn [selections concat replicate app].
  rewrite (next_server_fallback w a b);
    [| unfold at_cursor; now rewrite Hs, Hi | exact Ha
     | unfold first_enabled; rewrite Hs; cbn [List.find]; now rewrite Ea, Hb].
  cbn [result state fst snd].
  rewrite (next_server_enabled (moved_on w) b);
    [| unfold at_cursor; exec; now rewrite Hs, Hi | exact Db].
  cbn [result state fst snd].
  rewrite (next_server_enabled (moved_on (moved_on w)) c);
    [| unfold at_cursor; exec; now rewrite Hs, Hi | exact Dc].
  cbn [result state fst snd].
  rewrite IH; [reflexivity | | | | |]; exec; try assumption.
  now rewrite Hs, Hi.
Qed.

(** C4, amended: the cursor advances modulo the pool length on every
    selection, and when the server at the cursor is disabled the selection
    returns the first enabled server found by linear scan; consequently, for
    a pool [A(disabled), B(enabled), C(enabled)], successive [next_server()]
    calls yield the sequence B, B, C, B, B, C, repeating. *)
Theorem next_server_selection :
  (forall w : World,
      Net._index (network (state (IRC.next_server None w)))
      = IRC.advance (Net._index (network w)) (length (Net.servers (network w))))
  /\ (forall (w : World) (s : nat),
         at_cursor w = Some s ->
         IrcServer.disabled (objects w !!! s) = true ->
         result (IRC.next_server None w) = first_enabled w)
  /\ (forall (w : World) (a b c n : nat),
         Net.servers (network w) = [a; b; c] ->
         Net._index (network w) = 0%nat ->
         IrcServer.disabled (objects w !!! a) = true ->
         IrcServer.enabled (objects w !!! b) = true ->
         IrcServer.enabled (objects w !!! c) = true ->
         selections (3 * n) w = concat (replicate n [Some b; Some b; Some c])).
Proof.
  split; [| split].
  - intros w.
    destruct (at_cursor w) as [s |] eqn:E;
      [destruct (IrcServer.disabled (objects w !!! s)) eqn:D;
       [destruct (first_enabled w) as [f |] eqn:F |] |].
    + now rewrite (next_server_fallback w s f).
    + now rewrite (next_server_exhausted w s).
    + now rewrite (next_server_enabled w s).
    + now rewrite (next_server_none w).
  - intros w s E D.
    destruct (first_enabled w) as [f |] eqn:F.
    + now rewrite (next_server_fallback w s f).
    + now rewrite (next_server_exhausted w s).
  - intros w a b c n. apply selections_period.
Qed.

(** Six selections from the pool [A(disabled), B, C]. *)
Lemma next_server_selection_witness :
  (Net.servers (network Sample.pool) = [0; 1; 2]%nat
   /\ Net._index (network Sample.pool) = 0%nat
   /\ IrcServer.disabled (objects Sample.pool !!! 0%nat) = true
   /\ IrcServer.enabled (objects Sample.pool !!! 1%nat) = true
   /\ IrcServer.enabled (objects Sample.pool !!! 2%nat) = true)
  /\ selections 6 Sample.pool
     = [Some 1; Some 1; Some 2; Some 1; Some 1; Some 2]%nat.
Proof.
  split; [repeat split |].
  exact (proj2 (proj2 next_server_selection) Sample.pool 0%nat 1%nat 2%nat 2%nat
           eq_refl eq_refl eq_refl eq_refl eq_refl).
Defined.

(** ** What a method leaves alone

    [preserves p m]: running [m] does not change the part [p] of the
    state. *)

Section Preserves.
Context {S B : Type} (p : S -> B).

Lemma preserves_ret {A} (a : A) : preserves p (ret a).
Proof. intros s. reflexivity. Qed.

Lemma preserves_gets {A} (f : S -> A) : preserves p (gets f).
Proof. intros s. reflexivity. Qed.

Lemma preserves_call (e : event) : preserves p (call e).
Proof. intros s. reflexivity. Qed.

Lemma preserves_modify (f : S -> S) :
  (forall s, p (f s) = p s) -> preserves p (modify f).
Proof. intros H s. apply H. Qed.

Lemma preserves_bind {A C} (m : M S A) (k : A -> M S C) :
  preserves p m -> (forall a, preserves p (k a)) -> preserves p (bind m k).
Proof.
  intros Hm Hk s. unfold bind. cbn [state fst snd].
  change (p (state (k (result (m s)) (state (m s)))) = p s).
  now rewrite Hk, Hm.
Qed.

Lemma preserves_when (b : bool) (m : M S unit) :
  preserves p m -> preserves p (when b m).
Proof. destruct b; [trivial | intros _; apply preserves_ret]. Qed.

Lemma preserves_for_each {A} (l : list A) (body : A -> M S unit) :
  (forall a, preserves p (body a)) -> preserves p (for_each l body).
Proof.
  intros H. induction l as [| a l IH]; cbn [for_each].
  - apply preserves_ret.
  - apply preserves_bind; [apply H | intros _; exact IH].
Qed.

End Preserves.

Lemma preserves_on_connection {A} (m : M IrcConnection.Self A) (c : Connection.t) :
  preserves pool_of_self m -> preserves pool_of (IRC.on_connection m c).
Proof. intros H w. exact (H (c, w)). Qed.

Ltac preserve_step :=
  first
    [ apply preserves_ret
    | apply preserves_gets
    | apply preserves_call
    | apply preserves_bind; [| intros ?]
    | apply preserves_when
    | apply preserves_for_each; intros ?
    | apply preserves_modify; intros ?; reflexivity
    | apply preserves_on_connection
    | match goal with
      | |- preserves _ (if ?b then _ else _) => destruct b
      | |- preserves _ (match ?o with _ => _ end) => destruct o
      end ].

Ltac preserve := repeat preserve_step.

Create HintDb pool discriminated.

Lemma stop_preserves_pool t : preserves pool_of_self (IrcConnection.stop t).
Proof. unfold IrcConnection.stop. preserve. Qed.
#[local] Hint Resolve stop_preserves_pool : pool.

Lemma stop_pong_timer_preserves_pool :
  preserves pool_of_self IrcConnection.stop_pong_timer.
Proof.
  unfold IrcConnection.stop_pong_timer, IrcConnection.this, IrcConnection.update.
  preserve; auto with pool.
Qed.
#[local] Hint Resolve stop_pong_timer_preserves_pool : pool.

Lemma send_preserves_pool data : preserves pool_of_self (IrcConnection.send data).
Proof.
  unfold IrcConnection.send, IrcConnection.connected, IrcConnection.this. preserve.
Qed.
#[local] Hint Resolve send_preserves_pool : pool.

Lemma disposeSocket_preserves_pool :
  preserves pool_of_self IrcConnection.disposeSocket.
Proof.
  unfold IrcConnection.disposeSocket, IrcConnection.this, IrcConnection.update.
  preserve.
Qed.
#[local] Hint Resolve disposeSocket_preserves_pool : pool.

Lemma connection_disconnect_preserves_pool message :
  preserves pool_of_self (IrcConnection.disconnect message).
Proof.
  unfold IrcConnection.disconnect, IrcConnection.connected, IrcConnection.this,
    IrcConnection.update, IrcConnection.opt, IrcConnection.net.
  preserve; auto with pool.
Qed.
#[local] Hint Resolve connection_disconnect_preserves_pool : pool.

Lemma dispose_preserves_pool message :
  preserves pool_of_self (IrcConnection.dispose message).
Proof.
  unfold IrcConnection.dispose, IrcConnection.connected, IrcConnection.this,
    IrcConnection.update.
  preserve; auto with pool.
Qed.
#[local] Hint Resolve dispose_preserves_pool : pool.

Lemma connection_connect_preserves_pool :
  preserves pool_of_self IrcConnection.connect.
Proof.
  unfold IrcConnection.connect, IrcConnection.connected, IrcConnection.this,
    IrcConnection.update, IrcConnection.opt, IrcConnection.net, IrcConnection.server.
  preserve.
Qed.
#[local] Hint Resolve connection_connect_preserves_pool : pool.

Lemma next_server_preserves_pool index : preserves pool_of (IRC.next_server index).
Proof.
  unfold IRC.next_server, IRC.findEnabled, IRC.disable, IRC.deref, IRC.this,
    IRC.update, IRC.opt, IRC.this.
  preserve.
Qed.
#[local] Hint Resolve next_server_preserves_pool : pool.

Lemma connect_preserves_pool : preserves pool_of IRC.connect.
Proof.
  unfold IRC.connect, IRC.enabled, IRC.connected, IRC.this, IRC.update, IRC.opt,
    IRC.this.
  preserve; auto with pool.
Qed.
#[local] Hint Resolve connect_preserves_pool : pool.

Lemma disconnect_preserves_pool message cb :
  preserves pool_of (IRC.disconnect message cb).
Proof.
  unfold IRC.disconnect, IRC.disconnected, IRC.connected, IRC.this, IRC.update.
  preserve; auto with pool.
Qed.
#[local] Hint Resolve disconnect_preserves_pool : pool.

Lemma jump_preserves_pool : preserves pool_of IRC.jump.
Proof.
  unfold IRC.jump, IRC.connected, IRC.this.
  preserve; auto with pool.
Qed.
#[local] Hint Resolve jump_preserves_pool : pool.

(** ** Removing a server *)

Lemma indexOf_None (s : nat) (l : list nat) :
  IRC.indexOf s l = None <-> ~ In s l.
Proof.
  induction l as [| x l IH]; cbn [IRC.indexOf In]; [tauto |].
  destruct (Nat.eqb_spec x s) as [-> | Hne].
  - split; [discriminate | tauto].
  - destruct (IRC.indexOf s l); cbn [option_map].
    + split; [discriminate |]. intros H. exfalso. apply H. right.
      apply Decidable.not_not; [unfold Decidable.decidable; tauto |].
      intros Hn. now apply IH in Hn.
    + split; [| reflexivity]. intros _ [Hx | Hin]; [congruence |].
      now apply (proj1 IH).
Qed.

(** ** Auto-disable backoff *)

Lemma for_each_enable (servers : list nat) (w : World) :
  for_each servers
    (fun s => modify (fun w => set_objects (alter IrcServer.enable s (objects w)) w)) w
  = (tt, set_objects (enable_each servers (objects w)) w, []).
Proof.
  revert w. induction servers as [| s l IH]; intros w.
  - destruct w; reflexivity.
  - cbn [for_each]. unfold bind at 1. rewrite IH. reflexivity.
Qed.

Lemma enable_each_length servers objs :
  length (enable_each servers objs) = length objs.
Proof.
  revert objs. induction servers as [| s l IH]; intros objs; [reflexivity |].
  cbn [enable_each foldl]. fold (enable_each l (alter IrcServer.enable s objs)).
  now rewrite IH, length_alter.
Qed.

Lemma enable_each_keeps servers objs (s : nat) :
  IrcServer.enabled (objs !!! s) = true ->
  IrcServer.enabled (enable_each servers objs !!! s) = true.
Proof.
  revert objs. induction servers as [| x l IH]; intros objs H; [exact H |].
  cbn [enable_each foldl]. fold (enable_each l (alter IrcServer.enable x objs)).
  apply IH. rewrite list_lookup_total_alter.
  destruct (decide _); [reflexivity | exact H].
Qed.

Lemma enable_each_enables servers objs (s : nat) :
  In s servers -> (s < length objs)%nat ->
  IrcServer.enabled (enable_each servers objs !!! s) = true.
Proof.
  revert objs. induction servers as [| x l IH]; intros objs [] Hlt.
  - subst x. cbn [enable_each foldl].
    fold (enable_each l (alter IrcServer.enable s objs)).
    apply enable_each_keeps. now rewrite list_lookup_total_alter_eq.
  - cbn [enable_each foldl]. fold (enable_each l (alter IrcServer.enable x objs)).
    apply IH; [assumption | now rewrite length_alter].
Qed.

Lemma disableCheck_outcome (w : World) :
  let after := state (IRC.connect (reenabled w)) in
  IRC.disableCheck w
  = (tt,
     set_network (Net.set_auto_disabled_timer None (network after)) after,
     Logger_info "auto disabled timer invoked network server enabling"
                 [Str (name (Net.options (network w)))]
       :: events (IRC.connect (reenabled w)) ++ [callback []]).
Proof.
  intros after. subst after. unfold IRC.disableCheck.
  apply outcome_eq.
  - reflexivity.
  - cbn -[IRC.connect for_each enable_each String.append]. rewrite !for_each_enable.
    reflexivity.
  - cbn -[IRC.connect for_each enable_each String.append]. rewrite !for_each_enable.
    reflexivity.
Qed.

Lemma escalated_times (w : World) :
  Net.auto_disable_times (network (escalated w))
  = (Net.auto_disable_times (network w) + 1)%Z.
Proof. reflexivity. Qed.

Lemma escalated_interval (w : World) :
  Net.auto_disable_interval (network (escalated w))
  = IrcConnection.num_or
      (Net.auto_disable_interval (network w) * (Net.auto_disable_times (network w) + 1))
      (Net.auto_disable_interval (network w)).
Proof. reflexivity. Qed.

(** [k] escalations in a row, counted from the values a registration
    leaves, multiply the interval by 1, 2, ..., [k]. *)
Lemma escalated_iter (w : World) (k : nat) :
  Net.auto_disable_times (network w) = 0%Z ->
  Net.auto_disable_interval (network w) = 180000%Z ->
  Net.auto_disable_times (network (Nat.iter k escalated w)) = Z.of_nat k
  /\ Net.auto_disable_interval (network (Nat.iter k escalated w))
     = (180000 * Z.of_nat (fact k))%Z.
Proof.
  intros Ht Hi. induction k as [| k [IHt IHi]].
  - cbn [Nat.iter nat_rect fact]. split; [exact Ht | rewrite Hi; reflexivity].
  - cbn [Nat.iter nat_rect]. fold (Nat.iter k escalated w). rewrite escalated_times, escalated_interval, IHt, IHi.
    split; [lia |].
    assert (Hf : (0 < Z.of_nat (fact k))%Z) by (pose proof (lt_O_fact k); lia).
    unfold IrcConnection.num_or.
    destruct (Z.eqb_spec (180000 * Z.of_nat (fact k) * (Z.of_nat k + 1)) 0) as [E | _];
      [nia |].
    change (fact (S k)) with (S k * fact k)%nat. lia.
Qed.




(** ** Host uniqueness *)

Lemma is_some_find {A} (f : A -> bool) (l : list A) :
  is_some (List.find f l) = existsb f l.
Proof.
  induction l as [| x l IH]; cbn [List.find existsb]; [reflexivity |].
  destruct (f x); [reflexivity | exact IH].
Qed.

Lemma serverExists_host (h : string) (w : World) :
  result (IRC.serverExists (inl h) w) = true <-> In h (hosts w).
Proof.
  unfold IRC.serverExists, hosts. exec. rewrite is_some_find, existsb_exists, in_map_iff.
  split.
  - intros [s [Hin Heq]]. exists s. apply String.eqb_eq in Heq. now split.
  - intros [s [Heq Hin]]. exists s. split; [exact Hin |]. now apply String.eqb_eq.
Qed.

Lemma serverExists_state host (w : World) : state (IRC.serverExists host w) = w.
Proof. reflexivity. Qed.

Lemma hosts_with_object (serve : IIrcServerOptions) (w : World) :
  allocated w -> hosts (with_object serve w) = hosts w.
Proof.
  unfold allocated, hosts, with_object. cbn [network objects set_objects].
  intros H. apply map_ext_in. intros s Hin.
  rewrite List.Forall_forall in H. now rewrite lookup_total_app_l by now apply H.
Qed.

Lemma addServer_existing (serve : IIrcServerOptions) (cb : bool) (w : World) :
  allocated w ->
  In (IrcServer.host serve) (hosts w) ->
  IRC.addServer serve cb w
  = (tt, with_object serve w,
     bot_emit (name (Net.options (network w)) ++ " server exists")
              [Network; Server (length (objects w))]
       :: (if cb
           then [callback [Err "network server hosts must be unique";
                           Server (length (objects w))]]
           else [])).
Proof.
  intros Ha Hin.
  assert (E : result (IRC.serverExists (inl (IrcServer.host serve)) (with_object serve w))
              = true).
  { apply serverExists_host. now rewrite hosts_with_object. }
  assert (Hh : (objects w ++ [serve]) !!! length (objects w) = serve).
  { rewrite lookup_total_app_r by lia. now rewrite Nat.sub_diag. }
  unfold IRC.addServer.
  apply outcome_eq; cbn -[IRC.serverExists lookup_total String.append app];
    rewrite Hh; fold (with_object serve w); rewrite ?serverExists_state, E;
    destruct cb; reflexivity.
Qed.

Lemma addServer_fresh (serve : IIrcServerOptions) (cb : bool) (w : World) :
  allocated w ->
  ~ In (IrcServer.host serve) (hosts w) ->
  IRC.addServer serve cb w
  = (tt,
     set_network (Net.set_servers (Net.servers (network w) ++ [length (objects w)])
                                  (network w))
                 (with_object serve w),
     if cb then [callback [Null; Server (length (objects w))]] else []).
Proof.
  intros Ha Hin.
  assert (E : result (IRC.serverExists (inl (IrcServer.host serve)) (with_object serve w))
              = false).
  { destruct (result _) eqn:R; [| reflexivity].
    apply serverExists_host in R. now rewrite hosts_with_object in R. }
  assert (Hh : (objects w ++ [serve]) !!! length (objects w) = serve).
  { rewrite lookup_total_app_r by lia. now rewrite Nat.sub_diag. }
  unfold IRC.addServer.
  apply outcome_eq; cbn -[IRC.serverExists lookup_total String.append app];
    rewrite Hh; fold (with_object serve w); rewrite ?serverExists_state, E;
    destruct cb; reflexivity.
Qed.

Lemma addServer_unique_hosts (serve : IIrcServerOptions) (cb : bool) (w : World) :
  unique_hosts w -> unique_hosts (state (IRC.addServer serve cb w)).
Proof.
  intros [Ha Hn].
  destruct (in_dec string_dec (IrcServer.host serve) (hosts w)) as [Hin | Hnin].
  - rewrite (addServer_existing serve cb w Ha Hin). cbn [state fst snd].
    split; [| now rewrite hosts_with_object].
    unfold allocated, with_object in *. cbn [network objects set_objects].
    eapply List.Forall_impl; [| exact Ha]. intros s Hs. rewrite length_app. cbn in *. lia.
  - rewrite (addServer_fresh serve cb w Ha Hnin). cbn [state fst snd].
    split.
    + unfold allocated, with_object in *. cbn.
      apply List.Forall_app. split.
      * eapply List.Forall_impl; [| exact Ha]. intros s Hs. rewrite length_app. cbn in *. lia.
      * constructor; [rewrite length_app; cbn; lia | constructor].
    + pose proof (hosts_with_object serve w Ha) as Hw.
      unfold hosts, with_object in *. cbn in *.
      rewrite map_app. rewrite Hw. cbn [map].
      rewrite lookup_total_app_r by lia. rewrite Nat.sub_diag. cbn.
      apply NoDup_app. split; [exact Hn | split; [| apply NoDup_singleton]].
      intros h Hh Hs. apply list_elem_of_singleton in Hs. subst h.
      apply Hnin. now apply list_elem_of_In.
Qed.

Lemma add_servers_unique_hosts calls (w : World) :
  unique_hosts w -> unique_hosts (add_servers calls w).
Proof.
  revert w. induction calls as [| [serve cb] rest IH]; intros w H; [exact H |].
  cbn [add_servers]. apply IH. now apply addServer_unique_hosts.
Qed.

(** C9: host uniqueness is an invariant of the server pool. Starting from
    the empty pool, after every sequence of [addServer] calls no two servers
    of [servers] have the same host; this is because a call whose host is
    already present emits the '<name> server exists' notification, passes an
    [Error] to the callback (when there is one) and leaves [servers]
    unchanged. *)
Theorem addServer_hosts_unique :
  (forall (w : World) (calls : list (IIrcServerOptions * bool)),
      Net.servers (network w) = [] ->
      NoDup (hosts (add_servers calls w)))
  /\ (forall (w : World) (serve : IIrcServerOptions) (has_callback : bool),
         unique_hosts w ->
         unique_hosts (state (IRC.addServer serve has_callback w)))
  /\ (forall (w : World) (serve : IIrcServerOptions) (has_callback : bool),
         allocated w ->
         result (IRC.serverExists (inl (IrcServer.host serve)) w) = true ->
         Net.servers (network (state (IRC.addServer serve has_callback w)))
         = Net.servers (network w)
         /\ events (IRC.addServer serve has_callback w)
            = bot_emit (name (Net.options (network w)) ++ " server exists")
                       [Network; Server (length (objects w))]
                :: (if has_callback
                    then [callback [Err "network server hosts must be unique";
                                    Server (length (objects w))]]
                    else [])).
Proof.
  split; [| split].
  - intros w calls Hs. apply add_servers_unique_hosts.
    unfold unique_hosts, allocated, hosts. rewrite Hs. split; constructor.
  - intros w serve cb. apply addServer_unique_hosts.
  - intros w serve cb Ha He. apply serverExists_host in He.
    rewrite (addServer_existing serve cb w Ha He). split; reflexivity.
Qed.

(** Three calls, the third for the host of the first. *)
Lemma addServer_hosts_unique_witness :
  let a := Sample.server "a.example.net" true in
  let b := Sample.server "b.example.net" true in
  let calls := [(a, false); (b, true); (a, true)] in
  Net.servers (network Sample.empty) = []
  /\ NoDup (hosts (add_servers calls Sample.empty))
  /\ hosts (add_servers calls Sample.empty) = ["a.example.net"; "b.example.net"].
Proof.
  split; [reflexivity | split; [| reflexivity]].
  exact (proj1 addServer_hosts_unique Sample.empty
           [(Sample.server "a.example.net" true, false);
            (Sample.server "b.example.net" true, true);
            (Sample.server "a.example.net" true, true)] eq_refl).
Defined.

(** * Further properties *)

(** ** Framing: what every chunk sequence keeps *)


(** [parseMessage] and the loop over the lines leave the state alone. *)
Lemma parseMessage_state (line : string) (s : IrcConnection.Self) :
  state (IrcConnection.parseMessage line s) = s.
Proof.
  unfold IrcConnection.parseMessage.
  destruct (negb _); [reflexivity |]. now destruct (Regex.exec _ _).
Qed.

Lemma parse_lines_state (encoding : string) (lines : list Buffer)
      (s : IrcConnection.Self) :
  state (IrcConnection.parse_lines encoding lines s) = s.
Proof.
  induction lines as [| line lines IH]; cbn [IrcConnection.parse_lines];
    [reflexivity |].
  destruct (Buffer_toString encoding line); [| | reflexivity].
  - change (state (bind ?m ?k s)) with (state (k (result (m s)) (state (m s)))).
    now rewrite parseMessage_state.
  - exact IH.
Qed.

Lemma onData_state (data : Buffer) (s : IrcConnection.Self) :
  state (IrcConnection.onData data s) = state (IrcConnection.frame data s).
Proof.
  unfold IrcConnection.onData.
  change (state (bind ?m ?k s)) with (state (k (result (m s)) (state (m s)))).
  change (state (bind ?m ?k ?s')) with (state (k (result (m s')) (state (m s')))).
  apply parse_lines_state.
Qed.

(** What [onData] leaves in [held_data]: what was there, nothing, the
    held bytes followed by a chunk without a line feed, or the bytes after
    the last line feed of the chunk; the last two only within the bound. *)
Lemma frame_held (data : Buffer) (c : Connection.t) (w : World) :
  let c' := fst (state (IrcConnection.frame data (c, w))) in
  Connection.held_data c' = Connection.held_data c
  \/ Connection.held_data c' = None
  \/ (fst (lines_of [] data) = []
      /\ Connection.held_data c' = Some (held c ++ data)
      /\ (length (held c ++ data) <= IrcConnection.max_buffer_size)%nat)
  \/ (Connection.held_data c' = Some (snd (lines_of [] data))
      /\ (length (snd (lines_of [] data)) <= IrcConnection.max_buffer_size)%nat).
Proof.
  destruct (scan_whole data) as (H1 & H2 & H3).
  unfold IrcConnection.frame.
  destruct (IrcConnection.scan data data 0 0 []) as [lines ls] eqn:Esc.
  cbn [fst snd] in H1, H2, H3. rewrite <- H1, <- H2.
  destruct c as [srv ra rd conn delay pong rt hd hl sock].
  destruct lines as [| first others].
  - destruct hd as [h |]; exec_frame; unfold held; cbn [Connection.held_data];
      match goal with
      | |- context [(?a <? ?b)%nat] => destruct (Nat.ltb_spec a b)
      end; exec_frame; rewrite ?length_app; cbn [app]; auto 6.
  - destruct hl, hd as [h |]; exec_frame;
      destruct (Nat.ltb_spec ls (length data)); exec_frame; auto;
      match goal with
      | |- context [(?a <? ?b)%nat] => destruct (Nat.ltb_spec a b)
      end; exec_frame; rewrite ?length_drop; auto 6.
Qed.

Lemma frame_keeps_bound (data : Buffer) (c : Connection.t) (w : World) :
  (held_length c <= IrcConnection.max_buffer_size)%nat ->
  (held_length (fst (state (IrcConnection.frame data (c, w))))
   <= IrcConnection.max_buffer_size)%nat.
Proof.
  intros H. unfold held_length in *.
  destruct (frame_held data c w) as [E | [E | [(_ & E & Hb) | (E & Hb)]]];
    cbn zeta in E; rewrite E; [exact H | lia | exact Hb | exact Hb].
Qed.

(** Whatever the socket delivers, the connection never holds more than
    1024 bytes of a partial line. *)
Theorem held_data_stays_within_bound
        (chunks : list Buffer) (c : Connection.t) (w : World) :
  (held_length c <= IrcConnection.max_buffer_size)%nat ->
  (held_length (fst (state (receive chunks (c, w))))
   <= IrcConnection.max_buffer_size)%nat.
Proof.
  unfold receive. revert c w.
  induction chunks as [| d ds IH]; intros c w H; [exact H |].
  cbn [for_each].
  change (state (bind ?m ?k ?s')) with (state (k (result (m s')) (state (m s')))).
  rewrite onData_state.
  destruct (state (IrcConnection.frame d (c, w))) as [c' w'] eqn:E.
  apply IH. pose proof (frame_keeps_bound d c w H) as Hb. now rewrite E in Hb.
Qed.

(** A fresh connection receives 2000 bytes in chunks of 500. *)
Lemma held_data_stays_within_bound_witness :
  let chunks := repeat (repeat "a"%byte 500) 4 in
  (held_length Sample.connection <= IrcConnection.max_buffer_size)%nat
  /\ (held_length (fst (state (receive chunks (Sample.connection, Sample.pool))))
      <= IrcConnection.max_buffer_size)%nat.
Proof.
  assert (H : (held_length Sample.connection <= IrcConnection.max_buffer_size)%nat)
    by (vm_compute; lia).
  split; [exact H |].
  exact (held_data_stays_within_bound _ Sample.connection Sample.pool H).
Defined.

(** ** Framing: no line feed reaches the parser *)

Lemma lines_of_no_LF_kept (p d : Buffer) :
  no_LF p ->
  Forall no_LF (fst (lines_of p d)) /\ no_LF (snd (lines_of p d)).
Proof.
  revert p. induction d as [| b d IH]; intros p Hp; cbn [lines_of].
  - split; [constructor | exact Hp].
  - destruct (Byte.eqb b IrcConnection.LF) eqn:E; cbn [fst snd].
    + destruct (IH [] (fun H => H)) as [H1 H2]. split; [constructor |]; assumption.
    + apply IH. unfold no_LF. rewrite in_app_iff. intros [H | [H | []]]; [now apply Hp |].
      subst b. now rewrite (@Byte.byte_dec_lb IrcConnection.LF IrcConnection.LF eq_refl) in E.
Qed.

Lemma frame_no_LF (data : Buffer) (c : Connection.t) (w : World) :
  no_LF (held c) ->
  Forall no_LF (result (IrcConnection.frame data (c, w)))
  /\ no_LF (held (fst (state (IrcConnection.frame data (c, w))))).
Proof.
  intros Hh.
  destruct (lines_of_no_LF_kept [] data (fun H => H)) as [Hl Ht].
  split.
  - destruct (scan_whole data) as (H1 & _ & _).
    unfold IrcConnection.frame.
    destruct (IrcConnection.scan data data 0 0 []) as [lines ls] eqn:Esc.
    cbn [fst snd] in H1. rewrite <- H1 in Hl.
    destruct c as [srv ra rd conn delay pong rt hd hl sock].
    unfold held in Hh. cbn [Connection.held_data] in Hh.
    destruct lines as [| first others].
    + destruct hd as [h |]; exec_frame; constructor.
    + assert (Hm : forall h, no_LF h -> Forall no_LF ((h ++ first) :: others)).
      { intros h Hn. apply List.Forall_cons_iff in Hl as [Hf Ho].
        constructor; [| exact Ho].
        intros Hin. apply in_app_iff in Hin as [H | H]; [exact (Hn H) | exact (Hf H)]. }
      destruct hl, hd as [h |]; exec_frame;
        destruct (Nat.ltb_spec ls (length data)); exec_frame;
        try match goal with
            | |- context [(?a <? ?b)%nat] => destruct (Nat.ltb_spec a b)
            end; exec_frame;
        first [exact Hl | apply Hm; exact Hh | constructor].
  - destruct (frame_held data c w) as [E | [E | [(Hn & E & _) | (E & _)]]];
      cbn zeta in E; unfold held at 1; rewrite E.
    + exact Hh.
    + intros [].
    + unfold no_LF. rewrite in_app_iff. intros [H | H]; [now apply Hh |].
      now apply (lines_of_LF [] data) in H.
    + exact Ht.
Qed.

(** No line handed to the parser contains a line feed, whatever the chunks
    are, as long as the bytes held at the start contain none. *)
Theorem lines_contain_no_line_feed
        (chunks : list Buffer) (c : Connection.t) (w : World) :
  no_LF (held c) ->
  Forall no_LF (feed chunks (c, w)).
Proof.
  revert c w. induction chunks as [| d ds IH]; intros c w H; [constructor |].
  cbn [feed]. destruct (frame_no_LF d c w H) as [Hl Hh].
  apply List.Forall_app. split; [exact Hl |].
  destruct (state (IrcConnection.frame d (c, w))) as [c' w'] eqn:E.
  now apply IH.
Qed.

(** Line feeds at every position of the chunks of a fresh connection. *)
Lemma lines_contain_no_line_feed_witness :
  let LF := String "010" EmptyString in
  let chunks := [Sample.bytes ("PI" ++ LF ++ LF ++ "NG");
                 Sample.bytes (LF ++ "NOTICE" ++ LF)] in
  no_LF (held Sample.connection)
  /\ Forall no_LF (feed chunks (Sample.connection, Sample.pool)).
Proof.
  assert (H : no_LF (held Sample.connection)) by (intros []).
  split; [exact H |].
  exact (lines_contain_no_line_feed _ Sample.connection Sample.pool H).
Defined.

(** ** Parsing: white space around a line *)

Lemma drop_while_all (p : ascii -> bool) (s t : string) :
  all_of p s = true -> JS.drop_while p (s ++ t)%string = JS.drop_while p t.
Proof.
  induction s as [| c s IH]; cbn [all_of String.append JS.drop_while]; [reflexivity |].
  intros H. apply andb_prop in H as [Hc Hs]. rewrite Hc. now apply IH.
Qed.

Lemma drop_while_nil (p : ascii -> bool) (s : string) :
  all_of p s = true -> JS.drop_while p s = "".
Proof.
  induction s as [| c s IH]; cbn [all_of JS.drop_while]; [reflexivity |].
  intros H. apply andb_prop in H as [Hc Hs]. rewrite Hc. now apply IH.
Qed.

Lemma drop_while_app (p : ascii -> bool) (s t : string) :
  JS.drop_while p s <> "" -> JS.drop_while p (s ++ t)%string = (JS.drop_while p s ++ t)%string.
Proof.
  induction s as [| c s IH]; cbn [String.append JS.drop_while]; [congruence |].
  destruct (p c); [exact IH | reflexivity].
Qed.

Lemma strip_end_all (p : ascii -> bool) (s : string) :
  all_of p s = true -> JS.strip_end p s = "".
Proof.
  induction s as [| c s IH]; cbn [all_of JS.strip_end]; [reflexivity |].
  intros H. apply andb_prop in H as [Hc Hs]. now rewrite (IH Hs), Hc.
Qed.

Lemma strip_end_app (p : ascii -> bool) (s t : string) :
  all_of p t = true -> JS.strip_end p (s ++ t)%string = JS.strip_end p s.
Proof.
  intros H. induction s as [| c s IH]; cbn [String.append JS.strip_end].
  - now apply strip_end_all.
  - now rewrite IH.
Qed.

Lemma strip_end_idempotent (p : ascii -> bool) (s : string) :
  JS.strip_end p (JS.strip_end p s) = JS.strip_end p s.
Proof.
  induction s as [| c s IH]; cbn [JS.strip_end]; [reflexivity |].
  destruct (JS.strip_end p s) as [| c' r] eqn:E.
  - destruct (p c) eqn:Ec; cbn [JS.strip_end]; now rewrite ?Ec.
  - cbn [JS.strip_end] in *. now rewrite IH.
Qed.

Lemma drop_while_head (p : ascii -> bool) (s : string) :
  match JS.drop_while p s with
  | String c _ => p c = false
  | EmptyString => True
  end.
Proof.
  induction s as [| c s IH]; cbn [JS.drop_while]; [exact I |].
  destruct (p c) eqn:E; [exact IH | exact E].
Qed.

Lemma strip_end_head (p : ascii -> bool) (c : ascii) (s : string) :
  p c = false -> exists r, JS.strip_end p (String c s) = String c r.
Proof.
  intros H. cbn [JS.strip_end]. destruct (JS.strip_end p s); rewrite ?H; eauto.
Qed.

Lemma trim_idempotent (s : string) : JS.trim (JS.trim s) = JS.trim s.
Proof.
  unfold JS.trim. pose proof (drop_while_head JS.is_space s) as H.
  destruct (JS.drop_while JS.is_space s) as [| c r]; [reflexivity |].
  destruct (strip_end_head JS.is_space c r H) as [r' E].
  rewrite <- (strip_end_idempotent JS.is_space (String c r)) at 2.
  rewrite E. cbn [JS.drop_while]. now rewrite H.
Qed.

Lemma trim_surrounded (pre line post : string) :
  all_of JS.is_space pre = true -> all_of JS.is_space post = true ->
  JS.trim (pre ++ line ++ post)%string = JS.trim line.
Proof.
  intros Hpre Hpost. unfold JS.trim. rewrite drop_while_all by exact Hpre.
  destruct (JS.drop_while JS.is_space line) as [| c r] eqn:E.
  - assert (Hl : all_of JS.is_space line = true).
    { clear -E. induction line as [| a l IH]; [reflexivity |].
      cbn [JS.drop_while all_of] in *. destruct (JS.is_space a); [now apply IH | discriminate]. }
    rewrite drop_while_all by exact Hl.
    now rewrite (drop_while_nil JS.is_space post Hpost).
  - rewrite drop_while_app by (rewrite E; discriminate).
    rewrite E. now apply strip_end_app.
Qed.

Lemma parse_trim (line : string) :
  IrcConnection.parse line = IrcConnection.parse (JS.trim line).
Proof.
  unfold IrcConnection.parse, JS.truthy. rewrite trim_idempotent.
  destruct (String.eqb_spec line "") as [-> | _]; [reflexivity |].
  destruct (String.eqb_spec (JS.trim line) "") as [-> | _]; reflexivity.
Qed.

(** White space around a line (the CR that precedes the line feed, for
    one) does not change what the line parses to; a line of white space
    only is outside the grammar. *)
Theorem parse_ignores_surrounding_white_space (pre line post : string) :
  all_of JS.is_space pre = true ->
  all_of JS.is_space post = true ->
  IrcConnection.parse (pre ++ line ++ post)%string = IrcConnection.parse line
  /\ IrcConnection.parse (pre ++ post)%string = None.
Proof.
  intros Hpre Hpost. split.
  - now rewrite parse_trim, trim_surrounded, <- parse_trim.
  - pose proof (trim_surrounded pre "" post Hpre Hpost) as E. cbn [String.append] in E.
    now rewrite parse_trim, E.
Qed.

(** A line between a space and CR. *)
Lemma parse_ignores_surrounding_white_space_witness :
  (all_of JS.is_space " " = true /\ all_of JS.is_space Sample.CR = true)
  /\ IrcConnection.parse (" " ++ "PING :abc" ++ Sample.CR)%string
     = IrcConnection.parse "PING :abc".
Proof.
  split; [split; reflexivity |].
  exact (proj1 (parse_ignores_surrounding_white_space " " "PING :abc" Sample.CR
                  eq_refl eq_refl)).
Defined.

(** ** Parsing: what a parsed message looks like *)

(** The matcher is sound for [matches]: when a run succeeds, its
    continuation was entered from a state that [matches] allows. *)
Lemma rep_sound (greedy : bool) (cls : ascii -> bool) (s : string) :
  forall (min pos : nat) (k : nat -> string -> option Regex.captures) res,
    Regex.rep greedy cls min pos s k = Some res ->
    exists pre s',
      s = (pre ++ s')%string
      /\ (min <= String.length pre)%nat
      /\ all_of cls pre = true
      /\ k (pos + String.length pre)%nat s' = Some res.
Proof.
  induction s as [| a s IH]; intros min pos k res H.
  - cbn [Regex.rep] in H.
    destruct (Nat.eqb_spec min 0) as [-> | _]; [| now destruct greedy].
    exists "", "". cbn [String.append String.length all_of]. rewrite Nat.add_0_r.
    repeat split; [lia |].
    destruct greedy; [exact H |]. now destruct (k pos "").
  - assert (Hstop : (if (min =? 0)%nat then k pos (String a s) else None) = Some res ->
                    exists pre s' : string,
                      String a s = (pre ++ s')%string
                      /\ (min <= String.length pre)%nat
                      /\ all_of cls pre = true
                      /\ k (pos + String.length pre)%nat s' = Some res).
    { intros Hs. destruct (min =? 0)%nat eqn:E; [| discriminate].
      apply Nat.eqb_eq in E. subst min. exists "", (String a s).
      rewrite Nat.add_0_r. repeat split; [cbn; lia | exact Hs]. }
    assert (Hmore : (if cls a then Regex.rep greedy cls (Nat.pred min) (S pos) s k else None)
                    = Some res ->
                    exists pre s' : string,
                      String a s = (pre ++ s')%string
                      /\ (min <= String.length pre)%nat
                      /\ all_of cls pre = true
                      /\ k (pos + String.length pre)%nat s' = Some res).
    { intros Hm. destruct (cls a) eqn:Ea; [| discriminate].
      destruct (IH _ _ _ _ Hm) as (pre & s' & -> & Hlen & Hall & Hk).
      exists (String a pre), s'. cbn [String.append String.length all_of].
      rewrite Ea, Hall. repeat split; [lia |].
      now replace (pos + S (String.length pre))%nat with (S pos + String.length pre)%nat by lia. }
    cbn [Regex.rep] in H. destruct greedy.
    + destruct (if cls a then _ else None) as [r |] eqn:Em.
      * injection H as ->. now apply Hmore.
      * now apply Hstop.
    + destruct (if (min =? 0)%nat then _ else None) as [r |] eqn:Es.
      * injection H as ->. now apply Hstop.
      * now apply Hmore.
Qed.

Lemma run_sound (r : Regex.regex) :
  forall pos s c (k : Regex.cont) res,
    Regex.run r pos s c k = Some res ->
    exists pos' s' c',
      matches r (pos, s, c) (pos', s', c') /\ k pos' s' c' = Some res.
Proof.
  induction r as [a | greedy min cls | r1 IH1 r2 IH2 | r1 IH1 r2 IH2 | r1 IH1
                  | n r1 IH1 | r1 IH1 | |];
    intros pos s c k res H; cbn [Regex.run] in H.
  - destruct s as [| b s]; [discriminate |].
    destruct (Ascii.eqb_spec a b) as [-> | _]; [| discriminate].
    do 3 eexists; (split; cycle 1; [eassumption | eauto using matches]).
  - apply rep_sound in H as (pre & s' & -> & Hlen & Hall & Hk).
    do 3 eexists; (split; cycle 1; [eassumption | eauto using matches]).
  - apply IH1 in H as (p1 & s1 & c1 & M1 & H).
    apply IH2 in H as (p2 & s2 & c2 & M2 & H).
    do 3 eexists; (split; cycle 1; [eassumption | eauto using matches]).
  - destruct (Regex.run r1 pos s c k) as [res' |] eqn:E.
    + injection H as ->. apply IH1 in E as (p1 & s1 & c1 & M1 & H).
      do 3 eexists; (split; cycle 1; [eassumption | eauto using matches]).
    + apply IH2 in H as (p2 & s2 & c2 & M2 & H). do 3 eexists; (split; cycle 1; [eassumption | eauto using matches]).
  - match type of H with
    | match ?x with _ => _ end = _ => destruct x as [res' |] eqn:E
    end.
    + injection H as ->. apply IH1 in E as (p1 & s1 & c1 & M1 & H).
      destruct (p1 =? pos)%nat; [discriminate |]. do 3 eexists; (split; cycle 1; [eassumption | eauto using matches]).
    + do 3 eexists; (split; cycle 1; [eassumption | eauto using matches]).
  - apply IH1 in H as (p1 & s1 & c1 & M1 & H). do 3 eexists; (split; cycle 1; [eassumption | eauto using matches]).
  - match type of H with
    | match ?x with _ => _ end = _ => destruct x as [res' |] eqn:E
    end; [discriminate |]. do 3 eexists; (split; cycle 1; [eassumption | eauto using matches]).
  - destruct (Nat.eqb_spec pos 0) as [-> | _]; [| discriminate]. do 3 eexists; (split; cycle 1; [eassumption | eauto using matches]).
  - destruct s; [| discriminate]. do 3 eexists; (split; cycle 1; [eassumption | eauto using matches]).
Qed.

Lemma substring_prefix (pre s : string) :
  String.substring 0 (String.length pre) (pre ++ s) = pre.
Proof.
  induction pre as [| a pre IH]; cbn.
  - now destruct s.
  - now rewrite IH.
Qed.

(** What a group over one repetition captures. *)
Lemma matches_Grp_Rep n greedy min cls pos s c y :
  matches (Regex.Grp n (Regex.Rep greedy min cls)) (pos, s, c) y ->
  exists pre,
    snd y = (n, pre) :: c
    /\ (min <= String.length pre)%nat
    /\ all_of cls pre = true.
Proof.
  intros H. inversion H as [| | | | | | | n' r' pos0 s0 c0 pos' s' c' M | | |]; subst.
  inversion M; subst. cbn [snd].
  exists pre. repeat split; try assumption.
  replace (pos + String.length pre - pos)%nat with (String.length pre) by lia.
  now rewrite substring_prefix.
Qed.

Lemma matches_Grp_Rep_config n greedy min cls x y :
  matches (Regex.Grp n (Regex.Rep greedy min cls)) x y ->
  exists pre pos' s',
    y = (pos', s', (n, pre) :: snd x)
    /\ (min <= String.length pre)%nat
    /\ all_of cls pre = true.
Proof.
  destruct x as [[pos s] c]. intros H.
  destruct (matches_Grp_Rep _ _ _ _ _ _ _ _ H) as (pre & E & Hlen & Hall).
  destruct y as [[pos' s'] c']. cbn [snd] in *. subst c'. eauto 7.
Qed.

Ltac invert_matches :=
  repeat
    match goal with
    | H : matches (Regex.Grp _ (Regex.Rep _ _ _)) _ _ |- _ =>
        apply matches_Grp_Rep_config in H as (? & ? & ? & ? & ? & ?); cbn [snd] in *; subst
    | H : matches (Regex.Cat _ _) _ _ |- _ => inversion H; subst; clear H
    | H : matches (Regex.Opt _) _ _ |- _ => inversion H; subst; clear H
    | H : matches (Regex.Alt _ _) _ _ |- _ => inversion H; subst; clear H
    | H : matches (Regex.Chr _) _ _ |- _ => inversion H; subst; clear H
    | H : matches (Regex.NotAhead _) _ _ |- _ => inversion H; subst; clear H
    | H : matches Regex.Bol _ _ |- _ => inversion H; subst; clear H
    | H : matches Regex.Eol _ _ |- _ => inversion H; subst; clear H
    end.

Lemma length_1_not_empty (s : string) : (1 <= String.length s)%nat -> s <> "".
Proof. destruct s; cbn; [lia | discriminate]. Qed.

(** The groups of a match of the message pattern: group 6 is a word, groups
    2 and 3 are source names. *)
Lemma parse_regex_groups (s : string) (res : Regex.captures) :
  Regex.exec Grammar.parse_regex s = Some res ->
  (exists cmd, Regex.group 6 res = Some cmd /\ word cmd)
  /\ (forall v, Regex.group 3 res = Some v -> source_name v)
  /\ (forall v, Regex.group 2 res = Some v -> source_name v).
Proof.
  unfold Regex.exec. intros H.
  apply run_sound in H as (pos' & s' & c' & M & [= ->]).
  unfold Grammar.parse_regex, Grammar.tags_part, Grammar.source_part, Grammar.plus in M.
  cbn [Regex.cat] in M.
  invert_matches; cbn [Regex.group Nat.eqb snd];
    (split; [eexists; split; [reflexivity | split; [now apply length_1_not_empty | assumption]] |]);
    split; intros v [= <-]; split; solve [now apply length_1_not_empty | assumption].
Qed.

Lemma split_spaces_from_no_space (s : string) :
  forall in_sep,
    Forall (fun p => all_of Grammar.not_space p = true) (JS.split_spaces_from in_sep s).
Proof.
  induction s as [| c s IH]; intros in_sep; cbn [JS.split_spaces_from].
  - repeat constructor.
  - destruct (Ascii.eqb c " ") eqn:E.
    + destruct in_sep; [apply IH | constructor; [reflexivity | apply IH]].
    + specialize (IH false). destruct (JS.split_spaces_from false s) as [| p ps].
      * repeat constructor. cbn. unfold Grammar.not_space. now rewrite E.
      * apply List.Forall_cons_iff in IH as [Hp Hps]. constructor; [| exact Hps].
        cbn [all_of]. unfold Grammar.not_space at 1. now rewrite E.
Qed.

Lemma build_msg_obj_params (message : Regex.captures) :
  well_formed_params (params (IrcConnection.build_msg_obj message)).
Proof.
  unfold well_formed_params, IrcConnection.build_msg_obj. cbn [params].
  set (middle := match Regex.group 7 message with
                 | Some p => if JS.truthy (Some p) then JS.split_spaces p else []
                 | None => []
                 end).
  assert (Hm : Forall (fun p => all_of Grammar.not_space p = true) middle).
  { subst middle. destruct (Regex.group 7 message) as [p |]; [| constructor].
    destruct (JS.truthy (Some p)); [apply split_spaces_from_no_space | constructor]. }
  destruct (Regex.group 8 message) as [t |];
    [destruct (JS.truthy (Some t)) |].
  - exists middle, [JS.strip_end JS.is_space t]. repeat split; [exact Hm | cbn; lia].
  - exists middle, []. rewrite app_nil_r. repeat split; [exact Hm | cbn; lia].
  - exists middle, []. rewrite app_nil_r. repeat split; [exact Hm | cbn; lia].
Qed.

(** Every message that [parseMessage] builds has a command, which is a
    word (not empty, no white space); its nick, when it has one, is not
    empty and holds neither white space nor ['!']; and none of its
    parameters but the last holds a space. *)
Theorem parsed_message_is_well_formed (line : string) (m : msg_obj) :
  IrcConnection.parse line = Some m ->
  (exists cmd, command m = Some cmd /\ word cmd)
  /\ (forall n, nick m = Some n -> source_name n)
  /\ well_formed_params (params m).
Proof.
  unfold IrcConnection.parse. destruct (negb _); [discriminate |].
  destruct (Regex.exec _ _) as [message |] eqn:E; [| discriminate].
  intros [= <-]. destruct (parse_regex_groups _ _ E) as (Hcmd & H3 & H2).
  split; [exact Hcmd | split; [| apply build_msg_obj_params]].
  intros n. cbn [IrcConnection.build_msg_obj nick]. unfold JS.or.
  destruct (JS.truthy (Regex.group 3 message)); [apply H3 | apply H2].
Qed.

(** The line with a full mask. *)
Lemma parsed_message_is_well_formed_witness :
  exists m,
    IrcConnection.parse full_mask_line = Some m
    /\ (exists cmd, command m = Some cmd /\ word cmd)
    /\ well_formed_params (params m).
Proof.
  eexists. split; [vm_compute; reflexivity |].
  split.
  - exact (proj1 (parsed_message_is_well_formed full_mask_line _ eq_refl)).
  - exact (proj2 (proj2 (parsed_message_is_well_formed full_mask_line _ eq_refl))).
Defined.

(** ** The life of a connection: invariants of every call sequence *)

Section Keeps.
Context {S : Type} (I : S -> Prop) (Q : event -> bool).

Lemma keeps_ret {A} (a : A) : keeps I Q (ret a).
Proof. intros s H. split; [exact H | constructor]. Qed.

Lemma keeps_gets {A} (f : S -> A) : keeps I Q (gets f).
Proof. intros s H. split; [exact H | constructor]. Qed.

Lemma keeps_call (e : event) : Q e = true -> keeps I Q (call e).
Proof. intros HQ s H. split; [exact H | repeat constructor; exact HQ]. Qed.

Lemma keeps_modify (f : S -> S) : (forall s, I s -> I (f s)) -> keeps I Q (modify f).
Proof. intros Hf s H. split; [now apply Hf | constructor]. Qed.

Lemma keeps_bind {A C} (m : M S A) (k : A -> M S C) :
  keeps I Q m -> (forall a, keeps I Q (k a)) -> keeps I Q (bind m k).
Proof.
  intros Hm Hk s H. destruct (Hm s H) as [H1 E1].
  destruct (Hk (result (m s)) (state (m s)) H1) as [H2 E2].
  split; [exact H2 |]. unfold bind. cbn [events snd].
  apply List.Forall_app. split; assumption.
Qed.

Lemma keeps_when (b : bool) (m : M S unit) : keeps I Q m -> keeps I Q (when b m).
Proof. destruct b; [trivial | intros _; apply keeps_ret]. Qed.

Lemma keeps_for_each {A} (l : list A) (body : A -> M S unit) :
  (forall a, keeps I Q (body a)) -> keeps I Q (for_each l body).
Proof.
  intros H. induction l as [| a l IH]; cbn [for_each].
  - apply keeps_ret.
  - apply keeps_bind; [apply H | intros _; exact IH].
Qed.

End Keeps.

(** A method of the network that the connection calls. *)
Lemma keeps_on_network {A} (I : IrcConnection.Self -> Prop) (Q : event -> bool)
      (m : M World A) :
  (forall c w w', I (c, w) -> I (c, w')) ->
  (forall w, Forall (fun e => Q e = true) (events (m w))) ->
  keeps I Q (IrcConnection.on_network m).
Proof.
  intros HI HQ [c w] H. split; [| apply HQ].
  unfold IrcConnection.on_network. cbn. now apply (HI c w).
Qed.

Lemma keeps_on_network_lift {A} (I : World -> Prop) (Q : event -> bool) (m : M World A) :
  keeps I Q m -> keeps (fun s => I (snd s)) Q (IrcConnection.on_network m).
Proof. intros H [c w] Hw. exact (H w Hw). Qed.

Lemma keeps_send (I : IrcConnection.Self -> Prop) (Q : event -> bool) (data : string) :
  Q (buffer_push (data ++ IrcConnection.CRLF)) = true ->
  keeps I Q (IrcConnection.send data).
Proof.
  intros HQ [c w] H. unfold IrcConnection.send.
  destruct c as [srv ra rd conn delay pong rt hd hl sock].
  destruct conn, sock; cbn; split; repeat constructor; assumption.
Qed.

Lemma keeps_parse_lines (I : IrcConnection.Self -> Prop) (Q : event -> bool)
      (encoding : string) (lines : list Buffer) :
  (forall line, keeps I Q (IrcConnection.parseMessage line)) ->
  (forall line, Q (parseMessage_wide line) = true) ->
  (forall error, Q (throw error) = true) ->
  keeps I Q (IrcConnection.parse_lines encoding lines).
Proof.
  intros Hp Hw Ht.
  induction lines as [| line lines IH]; cbn [IrcConnection.parse_lines].
  - apply keeps_ret.
  - destruct (Buffer_toString encoding line).
    + apply keeps_bind; [apply Hp | intros _; exact IH].
    + apply keeps_bind; [apply keeps_call, Hw | intros _; exact IH].
    + apply keeps_call, Ht.
Qed.

Create HintDb keeps discriminated.

Ltac keep_side :=
  solve [ reflexivity
        | intros ? ?; exact I
        | intros ? H; exact H
        | intros [[] ?]; unfold requested, down, dead; cbn; intuition congruence
        | auto with keeps ].

Ltac head_of t :=
  lazymatch t with
  | ?f _ => head_of f
  | _ => t
  end.

Ltac keep_step :=
  lazymatch goal with
  | |- keeps _ _ (ret _) => apply keeps_ret
  | |- keeps _ _ (gets _) => apply keeps_gets
  | |- keeps _ _ (call _) => apply keeps_call; keep_side
  | |- keeps _ _ (bind _ _) => apply keeps_bind; [| intros ?]
  | |- keeps _ _ (when _ _) => apply keeps_when
  | |- keeps _ _ (for_each _ _) => apply keeps_for_each; intros ?
  | |- keeps _ _ (modify _) => apply keeps_modify; keep_side
  | |- keeps _ _ (if ?b then _ else _) => destruct b
  | |- keeps _ _ (match ?o with _ => _ end) => destruct o
  | |- keeps _ _ (let _ := _ in _) => cbv zeta
  | |- keeps _ _ (IrcConnection.on_network _) =>
      first [ apply keeps_on_network; [intros ? ? ? H; exact H | intros ?; constructor]
            | apply keeps_on_network_lift; solve [auto with keeps]
            | solve [auto with keeps] ]
  | |- keeps _ _ (IrcConnection.send _) =>
      first [ solve [auto with keeps] | apply keeps_send; keep_side ]
  | |- keeps _ _ (IrcConnection.parse_lines _ _) =>
      apply keeps_parse_lines; [intros ? | intros ?; reflexivity | intros ?; reflexivity]
  | |- keeps _ _ ?m =>
      first [ solve [auto with keeps] | let h := head_of m in progress unfold h ]
  end.

Ltac keep := repeat keep_step.

(** An invariant of every call is an invariant of every admissible
    sequence of calls. *)
Lemma invoke_all_keeps (I : IrcConnection.Self -> Prop) (Q : event -> bool)
      (allowed : invocation -> bool) :
  (forall i s,
      allowed i = true -> (on_socket i = true -> has_socket s = true) ->
      I s -> I (state (invoke i s)) /\ Forall (fun e => Q e = true) (events (invoke i s))) ->
  forall calls s,
    forallb allowed calls = true -> admissible calls s -> I s ->
    I (state (invoke_all calls s))
    /\ Forall (fun e => Q e = true) (events (invoke_all calls s)).
Proof.
  intros Hstep. induction calls as [| i rest IH]; intros s Hall Hadm HI.
  - split; [exact HI | constructor].
  - cbn [forallb] in Hall. apply andb_prop in Hall as [Hi Hrest].
    destruct Hadm as [Hsock Hadm].
    destruct (Hstep i s Hi Hsock HI) as [H1 E1].
    destruct (IH _ Hrest Hadm H1) as [H2 E2].
    unfold invoke_all. cbn [for_each]. unfold bind. cbn [state events fst snd].
    split; [exact H2 | apply List.Forall_app; split; assumption].
Qed.

(** *** A requested disconnect is never taken back *)

Lemma invoke_keeps_requested (i : invocation) :
  keeps requested (fun _ => true) (invoke i).
Proof.
  destruct i; cbn [invoke]; keep.
Qed.

Lemma invoke_all_app (calls more : list invocation) (s : IrcConnection.Self) :
  state (invoke_all (calls ++ more) s)
  = state (invoke_all more (state (invoke_all calls s))).
Proof.
  revert s. induction calls as [| i rest IH]; intros s; [reflexivity |].
  cbn [app]. unfold invoke_all in *. cbn [for_each].
  change (state (bind ?m ?k ?s')) with (state (k (result (m s')) (state (m s')))).
  apply IH.
Qed.

Lemma disconnect_requests (message : option string) (s : IrcConnection.Self) :
  Connection._connected (fst s) = true \/ has_socket s = true ->
  requested (state (IrcConnection.disconnect message s)).
Proof.
  destruct s as [c w]. destruct c as [srv ra rd conn delay pong rt hd hl sock].
  unfold has_socket, requested, IrcConnection.disconnect, IrcConnection.stop_pong_timer.
  cbn [fst Connection._connected Connection.socket].
  intros H. destruct conn, sock, pong; try reflexivity; destruct H; discriminate.
Qed.

(** Once a disconnect is requested, a close or a broken pipe does not
    start the reconnect timer. *)
Lemma no_reconnect_when_requested (s : IrcConnection.Self) :
  requested s ->
  Forall (fun e => starts_timer e = false)
         (events (IrcConnection.onClose s) ++ events (IrcConnection.onError "EPIPE" s))
  /\ Connection.reconnect_timer (fst (state (IrcConnection.onClose s)))
     = Connection.reconnect_timer (fst s)
  /\ Connection.reconnect_timer (fst (state (IrcConnection.onError "EPIPE" s)))
     = Connection.reconnect_timer (fst s).
Proof.
  destruct s as [c w]. destruct c as [srv ra rd conn delay pong rt hd hl sock].
  unfold requested. cbn [fst Connection.request_disconnect]. intros ->.
  unfold IrcConnection.onClose, IrcConnection.onError, IrcConnection.stop_pong_timer.
  destruct pong; cbn; repeat split; repeat constructor.
Qed.

(** A disconnect that was requested is never taken back: whatever the
    connection is called with afterwards (a new [connect()] and handshake
    included), [request_disconnect] stays set, and neither a close of the
    socket nor a broken pipe starts the reconnect timer. *)
Theorem requested_disconnect_is_permanent
        (message : option string) (calls : list invocation) (s : IrcConnection.Self) :
  Connection._connected (fst s) = true \/ has_socket s = true ->
  admissible calls (state (IrcConnection.disconnect message s)) ->
  let s' := state (invoke_all (Disconnect message :: calls) s) in
  requested s'
  /\ Forall (fun e => starts_timer e = false)
            (events (IrcConnection.onClose s') ++ events (IrcConnection.onError "EPIPE" s'))
  /\ Connection.reconnect_timer (fst (state (IrcConnection.onClose s')))
     = Connection.reconnect_timer (fst s').
Proof.
  intros Hs Hadm s'.
  assert (Hr : requested s').
  { subst s'. rewrite (invoke_all_app [Disconnect message] calls).
    refine (proj1 (invoke_all_keeps requested (fun _ => true) (fun _ => true) _
                     calls _ _ Hadm _)).
    - intros i s0 _ _. apply invoke_keeps_requested.
    - clear. now induction calls.
    - unfold invoke_all. cbn [for_each].
      change (state (bind ?m ?k ?s')) with (state (k (result (m s')) (state (m s')))).
      now apply disconnect_requests. }
  destruct (no_reconnect_when_requested s' Hr) as (H1 & H2 & _).
  repeat split; assumption.
Qed.

(** [disconnect()] is called while the socket is still connecting; later
    the connection connects again, completes the handshake, and the socket
    closes: the reconnect timer is not started. *)
Lemma requested_disconnect_is_permanent_witness :
  let connecting := (Sample.connection, Sample.pool) in
  let calls := [End; Connect; ConnectionSetup] in
  let s' := state (invoke_all (Disconnect None :: calls) connecting) in
  (has_socket connecting = true
   /\ admissible calls (state (IrcConnection.disconnect None connecting)))
  /\ requested s'
  /\ Connection._connected (fst s') = true
  /\ Connection.reconnect_timer (fst (state (IrcConnection.onClose s'))) = None.
Proof.
  intros connecting calls s'.
  assert (Ha : admissible calls (state (IrcConnection.disconnect None connecting)))
    by (cbn [admissible on_socket]; repeat split;
        try (intros H; discriminate H); intros _; reflexivity).
  split; [split; [reflexivity | exact Ha] |].
  split; [| split; [reflexivity |]].
  - exact (proj1 (requested_disconnect_is_permanent None calls connecting
                    (or_intror eq_refl) Ha)).
  - exact (proj2 (proj2 (requested_disconnect_is_permanent None calls connecting
                           (or_intror eq_refl) Ha))).
Defined.

(** *** A disconnect is final *)

Lemma send_keeps_dead data : keeps dead off_the_wire (IrcConnection.send data).
Proof.
  intros [c w] [Hc Hs]. destruct c as [srv ra rd conn delay pong rt hd hl sock].
  cbn in Hc, Hs. subst. cbn. repeat split. constructor.
Qed.

Lemma connect_keeps_dead : keeps dead off_the_wire IrcConnection.connect.
Proof.
  intros [c w] [Hc Hs]. destruct c as [srv ra rd conn delay pong rt hd hl sock].
  cbn in Hc, Hs. subst. cbn. repeat split. repeat constructor.
Qed.

Lemma disposeSocket_keeps_dead : keeps dead off_the_wire IrcConnection.disposeSocket.
Proof.
  intros [c w] [Hc Hs]. destruct c as [srv ra rd conn delay pong rt hd hl sock].
  cbn in Hc, Hs. subst. cbn. repeat split. constructor.
Qed.

#[local] Hint Resolve send_keeps_dead connect_keeps_dead disposeSocket_keeps_dead : keeps.

Lemma invoke_keeps_dead (i : invocation) (s : IrcConnection.Self) :
  (on_socket i = true -> has_socket s = true) ->
  dead s ->
  dead (state (invoke i s))
  /\ Forall (fun e => off_the_wire e = true) (events (invoke i s)).
Proof.
  intros Hsock Hd.
  assert (Hno : has_socket s = false) by (unfold has_socket; now rewrite (proj2 Hd)).
  destruct i; cbn [on_socket] in Hsock;
    try (rewrite (Hsock eq_refl) in Hno; discriminate Hno);
    clear Hsock Hno; revert s Hd; cbn [invoke];
    lazymatch goal with
    | |- forall s, dead s -> dead (state (?m s)) /\ _ => change (keeps dead off_the_wire m)
    end;
    keep.
Qed.

Lemma disconnect_end_is_dead (message : option string) (s : IrcConnection.Self) :
  Connection._connected (fst s) = true ->
  dead (state (invoke_all [Disconnect message; End] s)).
Proof.
  destruct s as [c w]. destruct c as [srv ra rd conn delay pong rt hd hl sock].
  cbn [fst Connection._connected]. intros ->.
  unfold invoke_all, dead. cbn [for_each invoke].
  unfold IrcConnection.disconnect, IrcConnection.end_, IrcConnection.stop_pong_timer,
    IrcConnection.disposeSocket, IrcConnection.send.
  destruct pong, sock; cbn; split; reflexivity.
Qed.

(** A disconnect is final. Once a connected connection has been told to
    disconnect and the [end()] it schedules has run, the connection is
    still marked connected and has no socket; no call it can receive
    afterwards changes that, none reaches a socket or writes a line, and
    [connect()] does nothing but emit 'already connected'. *)
Theorem disconnect_is_final
        (message : option string) (calls : list invocation) (s : IrcConnection.Self) :
  Connection._connected (fst s) = true ->
  let s0 := state (invoke_all [Disconnect message; End] s) in
  admissible calls s0 ->
  let s1 := state (invoke_all calls s0) in
  dead s1
  /\ Forall (fun e => on_the_wire e = false) (events (invoke_all calls s0))
  /\ events (IrcConnection.connect s1)
     = [bot_emit "already connected" [Network; Server (Connection.server (fst s1))]].
Proof.
  intros Hc s0 Hadm s1.
  pose proof (disconnect_end_is_dead message s Hc) as H0. fold s0 in H0.
  destruct (invoke_all_keeps dead off_the_wire (fun _ => true)
              (fun i s _ => invoke_keeps_dead i s) calls s0) as [H1 E1];
    [clear; now induction calls | exact Hadm | exact H0 |].
  fold s1 in H1. split; [exact H1 | split].
  - eapply List.Forall_impl; [| exact E1].
    intros e. unfold off_the_wire. now destruct (on_the_wire e).
  - destruct s1 as [c w]. destruct c as [srv ra rd conn delay pong rt hd hl sock].
    destruct H1 as [Hconn _]. cbn in Hconn. subst conn. reflexivity.
Qed.

(** The user disconnects an established connection; later the user and the
    reconnect timer call [connect()]. *)
Lemma disconnect_is_final_witness :
  let calls := [Connect; Send "PRIVMSG #kwirk :hello"; Reconnect; Connect] in
  let s0 := state (invoke_all [Disconnect None; End] established) in
  (Connection._connected (fst established) = true /\ admissible calls s0)
  /\ dead (state (invoke_all calls s0))
  /\ Forall (fun e => on_the_wire e = false) (events (invoke_all calls s0)).
Proof.
  intros calls s0.
  assert (Ha : admissible calls s0)
    by (cbn [admissible on_socket]; repeat split; intros H; discriminate H).
  split; [split; [reflexivity | exact Ha] |].
  split.
  - exact (proj1 (disconnect_is_final None calls established eq_refl Ha)).
  - exact (proj1 (proj2 (disconnect_is_final None calls established eq_refl Ha))).
Defined.

(** *** Nothing is written before the socket has connected *)

Lemma send_keeps_down data : keeps down not_a_push (IrcConnection.send data).
Proof.
  intros [c w] Hd. destruct c as [srv ra rd conn delay pong rt hd hl sock].
  unfold down in *. cbn in Hd. subst. cbn. split; [reflexivity | constructor].
Qed.

#[local] Hint Resolve send_keeps_down : keeps.

Lemma invoke_keeps_down (i : invocation) :
  before_setup i = true -> keeps down not_a_push (invoke i).
Proof. destruct i; cbn [before_setup invoke]; intros H; try discriminate H; keep. Qed.

Lemma pushes_none (evs : list event) :
  Forall (fun e => not_a_push e = true) evs -> pushes evs = [].
Proof.
  induction 1 as [| e evs He _ IH]; [reflexivity |].
  unfold pushes in *. cbn [flat_map]. rewrite IH.
  now destruct e.
Qed.

(** A connection that is not connected writes nothing: whatever it is
    called with, as long as the socket's connect event has not run
    [connectionSetup], no chunk is pushed to the write stream, and the
    connection stays not connected. *)
Theorem nothing_is_written_while_down (calls : list invocation) (s : IrcConnection.Self) :
  down s ->
  forallb before_setup calls = true ->
  admissible calls s ->
  pushes (events (invoke_all calls s)) = []
  /\ down (state (invoke_all calls s)).
Proof.
  intros Hd Hb Ha.
  destruct (invoke_all_keeps down not_a_push before_setup
              (fun i s Hi _ => invoke_keeps_down i Hi s) calls s Hb Ha Hd) as [H E].
  split; [now apply pushes_none | exact H].
Qed.

(** A fresh connection is asked to send, to disconnect and to connect; the
    socket reports an error and is closed. *)
Lemma nothing_is_written_while_down_witness :
  let fresh := (IrcConnection.new 1, Sample.pool) in
  let calls := [Send "PRIVMSG #kwirk :hello"; Disconnect None; Connect;
                OnError "EPIPE"; OnClose; Dispose None] in
  (down fresh /\ forallb before_setup calls = true /\ admissible calls fresh)
  /\ pushes (events (invoke_all calls fresh)) = [].
Proof.
  intros fresh calls.
  assert (Ha : admissible calls fresh)
    by (cbn [admissible on_socket]; repeat split;
        try (intros H; discriminate H); intros _; reflexivity).
  split; [split; [reflexivity | split; [reflexivity | exact Ha]] |].
  exact (proj1 (nothing_is_written_while_down calls fresh eq_refl eq_refl Ha)).
Defined.

(** *** Every write is a line *)

Lemma ends_with_app (s suffix : string) : ends_with suffix (s ++ suffix) = true.
Proof.
  induction s as [| c s IH]; cbn [String.append].
  - destruct suffix; cbn; [reflexivity | now rewrite Ascii.eqb_refl, String.eqb_refl].
  - cbn [ends_with]. rewrite IH. apply orb_true_r.
Qed.

Lemma send_keeps_lines data : keeps anything is_line (IrcConnection.send data).
Proof. apply keeps_send. cbn [is_line]. apply ends_with_app. Qed.

#[local] Hint Resolve send_keeps_lines : keeps.

Lemma invoke_keeps_lines (i : invocation) : keeps anything is_line (invoke i).
Proof. destruct i; cbn [invoke]; keep. Qed.

Lemma pushes_Forall (P : string -> Prop) (Q : event -> bool) (evs : list event) :
  (forall chunk, Q (buffer_push chunk) = true -> P chunk) ->
  Forall (fun e => Q e = true) evs -> Forall P (pushes evs).
Proof.
  intros HQ. induction 1 as [| e evs He _ IH]; [constructor |].
  unfold pushes in *. cbn [flat_map].
  destruct e; cbn [app]; try exact IH. constructor; [now apply HQ | exact IH].
Qed.

(** Whatever a connection is called with, every chunk it pushes to the
    write stream ends with CR LF. *)
Theorem every_write_is_a_line (calls : list invocation) (s : IrcConnection.Self) :
  admissible calls s ->
  Forall (fun chunk => ends_with IrcConnection.CRLF chunk = true)
         (pushes (events (invoke_all calls s))).
Proof.
  intros Ha.
  destruct (invoke_all_keeps anything is_line (fun _ => true)
              (fun i s _ _ => invoke_keeps_lines i s) calls s) as [_ E];
    [clear; now induction calls | exact Ha | exact I |].
  apply (pushes_Forall _ is_line); [| exact E]. intros chunk H. exact H.
Qed.

(** A handshake, a keep-alive and a disconnect. *)
Lemma every_write_is_a_line_witness :
  let fresh := (IrcConnection.new 1, Sample.pool) in
  let calls := [Connect; ConnectionSetup; Pong None false; Disconnect None] in
  admissible calls fresh
  /\ length (pushes (events (invoke_all calls fresh))) = 6%nat
  /\ Forall (fun chunk => ends_with IrcConnection.CRLF chunk = true)
            (pushes (events (invoke_all calls fresh))).
Proof.
  intros fresh calls.
  assert (Ha : admissible calls fresh)
    by (cbn [admissible on_socket]; repeat split;
        try (intros H; discriminate H); intros _; reflexivity).
  split; [exact Ha | split; [reflexivity |]].
  exact (every_write_is_a_line calls fresh Ha).
Defined.

(** *** A connection makes each of its timers once *)

Lemma timers_made_app (a b : list event) :
  timers_made (a ++ b) = (timers_made a + timers_made b)%nat.
Proof. unfold timers_made. now rewrite List.filter_app, length_app. Qed.

Section Spends.
Context {S : Type} (B : S -> nat).

Lemma spends_ret {A} (a : A) : spends B (ret a).
Proof. intros s. cbn. lia. Qed.

Lemma spends_gets {A} (f : S -> A) : spends B (gets f).
Proof. intros s. cbn. lia. Qed.

Lemma spends_call (e : event) : is_new_Timer e = false -> spends B (call e).
Proof. intros H s. unfold timers_made. cbn. rewrite H. cbn. lia. Qed.

Lemma spends_modify (f : S -> S) : (forall s, (B (f s) <= B s)%nat) -> spends B (modify f).
Proof. intros H s. cbn. apply H. Qed.

Lemma spends_bind {A C} (m : M S A) (k : A -> M S C) :
  spends B m -> (forall a, spends B (k a)) -> spends B (bind m k).
Proof.
  intros Hm Hk s. unfold bind. cbn [events state fst snd]. rewrite timers_made_app.
  pose proof (Hm s) as H1. pose proof (Hk (result (m s)) (state (m s))) as H2.
  cbn in *. lia.
Qed.

Lemma spends_when (b : bool) (m : M S unit) : spends B m -> spends B (when b m).
Proof. destruct b; [trivial | intros _; apply spends_ret]. Qed.

Lemma spends_for_each {A} (l : list A) (body : A -> M S unit) :
  (forall a, spends B (body a)) -> spends B (for_each l body).
Proof.
  intros H. induction l as [| a l IH]; cbn [for_each].
  - apply spends_ret.
  - apply spends_bind; [apply H | intros _; exact IH].
Qed.

End Spends.

Lemma spends_on_network {A} (m : M World A) :
  (forall w, events (m w) = []) ->
  spends timers_missing (IrcConnection.on_network m).
Proof.
  intros H [c w]. unfold IrcConnection.on_network. cbn [events state fst snd].
  rewrite H. unfold timers_missing. cbn. lia.
Qed.

Lemma reconnect_spends : spends timers_missing IrcConnection.reconnect.
Proof.
  intros [c w]. destruct c as [srv ra rd conn delay pong rt hd hl sock].
  unfold IrcConnection.reconnect, timers_missing.
  destruct pong, rt; cbn; lia.
Qed.

Lemma spends_after_gets {S A C} (B : S -> nat) (f : S -> A) (m : A -> M S unit)
      (k : M S C) :
  (forall s, (timers_made (events (m (f s) s)) + B (state (m (f s) s)) <= B s)%nat) ->
  spends B k ->
  spends B (bind (gets f) (fun a => bind (m a) (fun _ => k))).
Proof.
  intros Hm Hk s. unfold bind, gets. cbn [events state result fst snd app].
  rewrite timers_made_app. pose proof (Hm s) as H1.
  pose proof (Hk (state (m (f s) s))) as H2. lia.
Qed.

Lemma spends_parse_lines (B : IrcConnection.Self -> nat) (encoding : string)
      (lines : list Buffer) :
  (forall line, spends B (IrcConnection.parseMessage line)) ->
  spends B (IrcConnection.parse_lines encoding lines).
Proof.
  intros Hp.
  induction lines as [| line lines IH]; cbn [IrcConnection.parse_lines].
  - apply spends_ret.
  - destruct (Buffer_toString encoding line).
    + apply spends_bind; [apply Hp | intros _; exact IH].
    + apply spends_bind; [now apply spends_call | intros _; exact IH].
    + now apply spends_call.
Qed.

Create HintDb spends discriminated.
#[local] Hint Resolve reconnect_spends : spends.

Ltac spend_side :=
  solve [ reflexivity
        | intros [[] ?]; unfold timers_missing; cbn; lia ].

Ltac spend_step :=
  lazymatch goal with
  | |- spends _ (ret _) => apply spends_ret
  | |- spends _ (gets _) => apply spends_gets
  | |- spends _ (call _) => apply spends_call; spend_side
  | |- spends _ (bind _ _) => apply spends_bind; [| intros ?]
  | |- spends _ (when _ _) => apply spends_when
  | |- spends _ (for_each _ _) => apply spends_for_each; intros ?
  | |- spends _ (modify _) => apply spends_modify; spend_side
  | |- spends _ (if ?b then _ else _) => destruct b
  | |- spends _ (match ?o with _ => _ end) => destruct o
  | |- spends _ (let _ := _ in _) => cbv zeta
  | |- spends _ (IrcConnection.on_network _) =>
      apply spends_on_network; intros ?; reflexivity
  | |- spends _ (IrcConnection.parse_lines _ _) => apply spends_parse_lines; intros ?
  | |- spends _ ?m =>
      first [ solve [auto with spends] | let h := head_of m in progress unfold h ]
  end.

Ltac spend := repeat spend_step.

Lemma connectionSetup_spends : spends timers_missing IrcConnection.connectionSetup.
Proof.
  unfold IrcConnection.connectionSetup.
  repeat lazymatch goal with
         | |- spends _ (bind (IrcConnection.this Connection.pong_timer) _) => fail
         | |- spends _ (bind _ _) => apply spends_bind; [spend | intros ?]
         end.
  unfold IrcConnection.this at 1. apply spends_after_gets; [| spend].
  intros [c w]. destruct c as [srv ra rd conn delay pong rt hd hl sock].
  unfold timers_missing. destruct pong, rt; cbn; lia.
Qed.
#[local] Hint Resolve connectionSetup_spends : spends.

Lemma invoke_spends (i : invocation) : spends timers_missing (invoke i).
Proof. destruct i; cbn [invoke]; spend. Qed.

(** A connection makes each of its timers once. Whatever it is called
    with, the timers it asks the factory for are timers it did not have:
    at most two in its life (the keep-alive timer and the reconnect
    timer), and none once it has both. *)
Theorem timers_are_made_once (calls : list invocation) (s : IrcConnection.Self) :
  admissible calls s ->
  (timers_made (events (invoke_all calls s))
   + timers_missing (state (invoke_all calls s))
   <= timers_missing s)%nat
  /\ (timers_made (events (invoke_all calls s)) <= 2)%nat.
Proof.
  intros _.
  assert (H : (timers_made (events (invoke_all calls s))
               + timers_missing (state (invoke_all calls s))
               <= timers_missing s)%nat).
  { unfold invoke_all. revert s.
    change (spends timers_missing (for_each calls invoke)).
    apply spends_for_each. apply invoke_spends. }
  split; [exact H |].
  assert (timers_missing s <= 2)%nat
    by (unfold timers_missing;
        destruct (Connection.pong_timer (fst s)), (Connection.reconnect_timer (fst s));
        cbn; lia).
  lia.
Qed.

(** Two rounds of connecting, handshake and loss of the socket: the
    keep-alive timer and the reconnect timer are made in the first round
    and used again in the second. *)
Lemma timers_are_made_once_witness :
  let fresh := (IrcConnection.new 1, Sample.pool) in
  let round := [Connect; ConnectionSetup; OnClose] in
  admissible (round ++ round) fresh
  /\ timers_made (events (invoke_all round fresh)) = 2%nat
  /\ timers_made (events (invoke_all (round ++ round) fresh)) = 2%nat
  /\ (timers_made (events (invoke_all (round ++ round) fresh)) <= 2)%nat.
Proof.
  intros fresh round.
  assert (Ha : admissible (round ++ round) fresh)
    by (cbn [admissible on_socket app]; repeat split;
        try (intros H; discriminate H); intros _; reflexivity).
  split; [exact Ha | split; [reflexivity | split; [reflexivity |]]].
  exact (proj2 (timers_are_made_once (round ++ round) fresh Ha)).
Defined.

(** ** Nick generation *)

Lemma outcome_ext {S A} (r r' : A * S * list event) :
  result r = result r' -> state r = state r' -> events r = events r' -> r = r'.
Proof. destruct r as [[a s] e], r' as [[a' s'] e']. cbn. congruence. Qed.

Lemma generate_nick_step (fuel : nat) (nick : string) (force : bool) (w : World) :
  let filled := fill_wildcards (Math_random w) (draws w) nick in
  let newnick := string_filter nick_char (fst filled) in
  let w1 := set_draws (snd filled) w in
  IRC.generate_nick (S fuel) nick force w
  = if force && String.eqb nick newnick then
      if JS.truthy (Some (altnick (Net.options (network w))))
         && negb (String.eqb nick (altnick (Net.options (network w)))) then
        IRC.generate_nick fuel (altnick (Net.options (network w))) true w1
      else if match IRC.last_char newnick with
              | Some c => Ascii.eqb c "_"
              | None => false
              end then
        IRC.generate_nick fuel (newnick ++ "?")%string true w1
      else
        (Some (nick ++ "_")%string,
         set_network (Net.set_nick (nick ++ "_")%string (network w1)) w1, [])
    else
      (Some newnick, set_network (Net.set_nick newnick (network w1)) w1, []).
Proof.
  intros filled newnick w1. subst filled newnick w1.
  cbn [IRC.generate_nick].
  destruct (force && String.eqb nick _) eqn:E1;
    [destruct (JS.truthy _ && negb _) eqn:E2;
     [| destruct (match IRC.last_char _ with Some c => Ascii.eqb c "_" | None => false end)
          eqn:E3] |];
    apply outcome_ext;
    cbn -[IRC.generate_nick fill_wildcards string_filter String.eqb JS.truthy
          String.append IRC.last_char];
    rewrite ?E1; cbn -[IRC.generate_nick fill_wildcards string_filter String.eqb JS.truthy
          String.append IRC.last_char];
    rewrite ?E2; cbn -[IRC.generate_nick fill_wildcards string_filter String.eqb JS.truthy
          String.append IRC.last_char];
    rewrite ?E3; reflexivity.
Qed.

Lemma all_of_filter (p : ascii -> bool) (s : string) :
  all_of p (string_filter p s) = true.
Proof.
  induction s as [| c s IH]; cbn [string_filter]; [reflexivity |].
  destruct (p c) eqn:E; [cbn [all_of]; now rewrite E | exact IH].
Qed.

Lemma all_of_app (p : ascii -> bool) (a b : string) :
  all_of p (a ++ b) = all_of p a && all_of p b.
Proof.
  induction a as [| c a IH]; cbn [String.append all_of]; [reflexivity |].
  now rewrite IH, andb_assoc.
Qed.

Lemma filter_all (p : ascii -> bool) (s : string) :
  all_of p s = true -> string_filter p s = s.
Proof.
  induction s as [| c s IH]; cbn [all_of string_filter]; [reflexivity |].
  intros H. apply andb_prop in H as [Hc Hs]. now rewrite Hc, IH.
Qed.

Lemma letter_is_nick_char (k : nat) : nick_char (ascii_of_nat (97 + k mod 26)) = true.
Proof.
  unfold nick_char.
  assert (Hk : (k mod 26 < 26)%nat) by (apply Nat.mod_upper_bound; lia).
  rewrite nat_ascii_embedding by lia.
  replace (97 <=? 97 + k mod 26)%nat with true by (symmetry; apply Nat.leb_le; lia).
  replace (97 + k mod 26 <=? 122)%nat with true by (symmetry; apply Nat.leb_le; lia).
  cbn [andb]. now rewrite orb_true_r.
Qed.

Lemma fill_wildcards_last (random : nat -> nat) (i : nat) (s : string) :
  all_of nick_char s = true ->
  fill_wildcards random i (s ++ "?")
  = ((s ++ String (ascii_of_nat (97 + random i mod 26)) "")%string, S i).
Proof.
  induction s as [| c s IH]; cbn [all_of String.append fill_wildcards]; [reflexivity |].
  intros H. apply andb_prop in H as [Hc Hs]. rewrite (IH Hs).
  destruct (Ascii.eqb_spec c "?") as [-> | _]; [discriminate Hc | reflexivity].
Qed.

Lemma length_append (s t : string) :
  String.length (s ++ t) = (String.length s + String.length t)%nat.
Proof. induction s as [| a s IH]; cbn; [reflexivity | now rewrite IH]. Qed.

Lemma append_longer (s t : string) : t <> "" -> (s ++ t)%string <> s.
Proof.
  intros Ht E. apply (f_equal String.length) in E.
  rewrite length_append in E. destruct t; [congruence | cbn in E; lia].
Qed.

(** A forced call for a nick that ends the way [s ++ "?"] does: the
    wildcard becomes the next random letter. *)
Lemma generate_nick_appends_a_letter (fuel : nat) (s : string) (w : World) :
  all_of nick_char s = true ->
  IRC.generate_nick (S fuel) (s ++ "?") true w
  = (Some (s ++ String (next_letter w) "")%string,
     set_network (Net.set_nick (s ++ String (next_letter w) "")%string (network w))
                 (set_draws (S (draws w)) w),
     []).
Proof.
  intros Hs. rewrite generate_nick_step. cbn zeta.
  rewrite (fill_wildcards_last _ _ _ Hs). cbn [fst snd].
  fold (next_letter w).
  assert (Hn : all_of nick_char (s ++ String (next_letter w) "") = true).
  { rewrite all_of_app, Hs. cbn [all_of]. unfold next_letter.
    now rewrite letter_is_nick_char. }
  rewrite (filter_all _ _ Hn).
  assert (Hne : String.eqb (s ++ "?") (s ++ String (next_letter w) "") = false).
  { apply String.eqb_neq. intros E.
    assert (Hq : all_of nick_char (s ++ "?") = true) by (now rewrite E).
    rewrite all_of_app, Hs in Hq. discriminate Hq. }
  rewrite Hne. reflexivity.
Qed.

Lemma generated_clean (newnick : string) (w : World) :
  Net.nick (network w) = newnick ->
  all_of nick_char newnick = true ->
  generated (Some newnick, w, []) newnick.
Proof. intros Hn H. repeat split; assumption. Qed.

Lemma eqb_filter_clean (nick : string) (t : string) :
  String.eqb nick (string_filter nick_char t) = true -> all_of nick_char nick = true.
Proof. intros E. apply String.eqb_eq in E. subst nick. apply all_of_filter. Qed.

(** A forced call for the alternate nick itself settles within two
    calls. *)
Lemma generate_nick_alternate (fuel : nat) (w : World) :
  exists n,
    generated (IRC.generate_nick (S (S fuel)) (altnick (Net.options (network w))) true w) n.
Proof.
  rewrite generate_nick_step. cbn zeta.
  set (alt := altnick (Net.options (network w))).
  set (newnick := string_filter nick_char _).
  assert (Hn : all_of nick_char newnick = true) by apply all_of_filter.
  destruct (true && String.eqb alt newnick) eqn:E1.
  - rewrite String.eqb_refl. cbn [negb]. rewrite andb_false_r.
    assert (Ha : all_of nick_char alt = true) by (eapply eqb_filter_clean; exact E1).
    destruct (match IRC.last_char newnick with Some c => Ascii.eqb c "_" | None => false end).
    + rewrite generate_nick_appends_a_letter by exact Hn.
      eexists. apply generated_clean; [reflexivity |].
      rewrite all_of_app, Hn. cbn [all_of]. unfold next_letter.
      now rewrite letter_is_nick_char.
    + eexists. apply generated_clean; [reflexivity |]. rewrite all_of_app, Ha. reflexivity.
  - eexists. apply generated_clean; [reflexivity | exact Hn].
Qed.

Lemma generate_nick_generates (fuel : nat) (nick : string) (force : bool) (w : World) :
  exists n, generated (IRC.generate_nick (S (S (S fuel))) nick force w) n.
Proof.
  rewrite generate_nick_step. cbn zeta.
  set (newnick := string_filter nick_char _).
  assert (Hn : all_of nick_char newnick = true) by apply all_of_filter.
  destruct (force && String.eqb nick newnick) eqn:E1.
  - apply andb_prop in E1 as [_ E1].
    assert (Ha : all_of nick_char nick = true) by (eapply eqb_filter_clean; exact E1).
    destruct (JS.truthy _ && negb _).
    + apply (generate_nick_alternate fuel
               (set_draws (snd (fill_wildcards (Math_random w) (draws w) nick)) w)).
    + destruct (match IRC.last_char newnick with Some c => Ascii.eqb c "_" | None => false end).
      * rewrite generate_nick_appends_a_letter by exact Hn.
        eexists. apply generated_clean; [reflexivity |].
        rewrite all_of_app, Hn. cbn [all_of]. unfold next_letter.
        now rewrite letter_is_nick_char.
      * eexists. apply generated_clean; [reflexivity |]. rewrite all_of_app, Ha. reflexivity.
  - eexists. apply generated_clean; [reflexivity | exact Hn].
Qed.

(** Without an alternate nick to fall back to, a forced call returns a
    nick other than the one it was given. *)
Lemma generate_nick_forced_changes (fuel : nat) (nick : string) (w : World) :
  altnick (Net.options (network w)) = "" \/ altnick (Net.options (network w)) = nick ->
  result (IRC.generate_nick (S (S fuel)) nick true w) <> Some nick.
Proof.
  intros Halt. rewrite generate_nick_step. cbn zeta.
  set (newnick := string_filter nick_char _).
  assert (Hc : JS.truthy (Some (altnick (Net.options (network w))))
               && negb (String.eqb nick (altnick (Net.options (network w)))) = false).
  { destruct Halt as [-> | ->]; [reflexivity |].
    rewrite String.eqb_refl. apply andb_false_r. }
  rewrite Hc. cbn [andb].
  destruct (String.eqb_spec nick newnick) as [E | Hne].
  - destruct (match IRC.last_char newnick with Some c => Ascii.eqb c "_" | None => false end).
    + rewrite generate_nick_appends_a_letter by apply all_of_filter.
      cbn [result fst]. rewrite <- E. intros [= H]. now apply append_longer in H.
    + cbn [result fst]. intros [= H]. now apply append_longer in H.
  - cbn [result fst]. congruence.
Qed.

(** The call that the connection makes, with the default arguments. *)
Lemma generate_nick_default (fuel : nat) (w : World) :
  IRC.generate_nick (S fuel) (Net.nick (network w)) false w
  = (Some (result (generate_nick w)), state (generate_nick w), []).
Proof. rewrite generate_nick_step. destruct w as [n o r d]. reflexivity. Qed.

(** [generate_nick( nick, force )] returns after at most three calls of
    itself. What it returns is made of the characters [0-9a-zA-Z-_./]
    only (no wildcard is left), it is the network's nick from then on, and
    no call is made on a collaborator. Without [force] it is the nick it
    was given with every ['?'] replaced by a random letter and every
    other character outside that set removed. With [force], and no
    alternate nick other than the nick itself, it is not the nick it was
    given. *)
Theorem generate_nick_returns_a_clean_nick
        (fuel : nat) (nick : string) (force : bool) (w : World) :
  (3 <= fuel)%nat ->
  let r := IRC.generate_nick fuel nick force w in
  (exists n, generated r n)
  /\ (force = false ->
      result r
      = Some (string_filter nick_char
                (fst (fill_wildcards (Math_random w) (draws w) nick))))
  /\ (force = true ->
      altnick (Net.options (network w)) = ""
      \/ altnick (Net.options (network w)) = nick ->
      result r <> Some nick).
Proof.
  intros Hf r. subst r.
  destruct fuel as [| [| [| fuel]]]; try lia. clear Hf.
  split; [apply generate_nick_generates | split].
  - intros ->. now rewrite generate_nick_step.
  - intros -> Halt. now apply generate_nick_forced_changes.
Qed.

(** A forced call for the alternate nick [kw?rk], when the first random
    letter is [a]. *)
Lemma generate_nick_returns_a_clean_nick_witness :
  let w := Sample.pool in
  (3 <= 3)%nat
  /\ (exists n, generated (IRC.generate_nick 3 "kw?rk" true w) n)
  /\ result (IRC.generate_nick 3 "kw?rk" true w) = Some "kwark"
  /\ result (IRC.generate_nick 3 "kw?rk" true w) <> Some "kw?rk".
Proof.
  intros w. split; [lia | split; [| split; [reflexivity |]]].
  - exact (proj1 (generate_nick_returns_a_clean_nick 3 "kw?rk" true w (le_n 3))).
  - exact (proj2 (proj2 (generate_nick_returns_a_clean_nick 3 "kw?rk" true w (le_n 3)))
             eq_refl (or_intror eq_refl)).
Defined.

(** With an alternate nick, [force] does not make sure that the nick
    changes: the alternate nick [kw?rk] can come out as the nick that was
    given. *)
Example generate_nick_forced_may_return_the_same :
  result (IRC.generate_nick 3 "kwark" true Sample.pool) = Some "kwark".
Proof. reflexivity. Qed.

(** ** Server selection: what is selected *)

Lemma next_server_result (index : option Z) (w : World) :
  result (IRC.next_server index w)
  = match looked_at index w with
    | Some s => if IrcServer.disabled (objects w !!! s) then first_enabled w else Some s
    | None => None
    end.
Proof.
  unfold IRC.next_server, looked_at, at_cursor, first_enabled.
  destruct index as [n |]; exec;
    [destruct ((0 <=? n) && (n <? Z.of_nat (length (Net.servers (network w)))))%Z |];
    exec;
    match goal with
    | |- context [?l !! ?i] => destruct (l !! i) as [s |] eqn:E
    end; exec; try reflexivity;
    match goal with
    | |- context [IrcServer.disabled ?x] => destruct (IrcServer.disabled x) eqn:D
    end; exec; try reflexivity;
    match goal with
    | |- context [List.find ?f ?l] => destruct (List.find f l) eqn:F
    end; reflexivity.
Qed.

Lemma first_enabled_In (w : World) (s : nat) :
  first_enabled w = Some s ->
  In s (Net.servers (network w)) /\ IrcServer.enabled (objects w !!! s) = true.
Proof. unfold first_enabled. intros H. now apply List.find_some in H. Qed.

Lemma first_enabled_None (w : World) :
  first_enabled w = None <->
  forall s, In s (Net.servers (network w)) -> IrcServer.enabled (objects w !!! s) = false.
Proof.
  unfold first_enabled. split.
  - intros H s Hin. exact (List.find_none _ _ H s Hin).
  - intros H. destruct (List.find _ _) as [s |] eqn:F; [| reflexivity].
    apply List.find_some in F as [Hin He]. rewrite (H s Hin) in He. discriminate.
Qed.

Lemma looked_at_In (index : option Z) (w : World) (s : nat) :
  looked_at index w = Some s -> In s (Net.servers (network w)).
Proof.
  unfold looked_at, at_cursor. intros H.
  apply list_elem_of_In.
  destruct index as [n |];
    [destruct ((0 <=? n) && (n <? Z.of_nat (length (Net.servers (network w)))))%Z |];
    eapply list_elem_of_lookup_2; exact H.
Qed.

Lemma next_server_Some (index : option Z) (w : World) (s : nat) :
  result (IRC.next_server index w) = Some s ->
  In s (Net.servers (network w)) /\ IrcServer.enabled (objects w !!! s) = true.
Proof.
  rewrite next_server_result.
  destruct (looked_at index w) as [s0 |] eqn:L; [| discriminate].
  destruct (IrcServer.disabled (objects w !!! s0)) eqn:D.
  - apply first_enabled_In.
  - intros [= <-]. split; [exact (looked_at_In index w s0 L) |].
    unfold IrcServer.disabled in D. now apply negb_false_iff in D.
Qed.

(** [next_server( index )] never returns a disabled server, nor a server
    that is not in the pool. When the cursor is in range, it returns no
    server exactly when no server of the pool is enabled. *)
Theorem next_server_returns_an_enabled_member (index : option Z) (w : World) :
  (forall s,
      result (IRC.next_server index w) = Some s ->
      In s (Net.servers (network w)) /\ IrcServer.enabled (objects w !!! s) = true)
  /\ (cursor_in_range w ->
      (result (IRC.next_server None w) = None <-> first_enabled w = None)).
Proof.
  split.
  - intros s. apply next_server_Some.
  - intros Hc. rewrite next_server_result. cbn [looked_at].
    unfold cursor_in_range in Hc. unfold at_cursor.
    destruct (Net.servers (network w) !! Net._index (network w)) as [s |] eqn:E.
    + destruct (IrcServer.disabled (objects w !!! s)) eqn:D; [reflexivity |].
      split; [discriminate |]. intros F.
      assert (Hin : In s (Net.servers (network w)))
        by (apply list_elem_of_In; eapply list_elem_of_lookup_2; exact E).
      pose proof (proj1 (first_enabled_None w) F s Hin) as He.
      unfold IrcServer.disabled in D. unfold IrcServer.enabled in He.
      rewrite He in D. discriminate.
    + split; [intros _ | reflexivity].
      apply lookup_ge_None in E.
      destruct (Net.servers (network w)) as [| x l] eqn:Es;
        [unfold first_enabled; now rewrite Es |].
      cbn [length] in *. lia.
Qed.

(** The pool [A(disabled), B, C], its cursor at 0. *)
Lemma next_server_returns_an_enabled_member_witness :
  cursor_in_range Sample.pool
  /\ result (IRC.next_server None Sample.pool) = Some 1%nat
  /\ (In 1%nat (Net.servers (network Sample.pool))
      /\ IrcServer.enabled (objects Sample.pool !!! 1%nat) = true)
  /\ (result (IRC.next_server None Sample.pool) = None
      <-> first_enabled Sample.pool = None).
Proof.
  assert (Hc : cursor_in_range Sample.pool) by (vm_compute; lia).
  split; [exact Hc | split; [reflexivity | split]].
  - exact (proj1 (next_server_returns_an_enabled_member None Sample.pool) 1%nat eq_refl).
  - exact (proj2 (next_server_returns_an_enabled_member None Sample.pool) Hc).
Defined.

(** ** A server that cannot be reached *)

Lemma onError_gives_up (code : string) (c : Connection.t) (w : World) :
  gives_up code c w ->
  IrcConnection.onError code (c, w)
  = (tt, (c, set_objects (alter IrcServer.disable (Connection.server c) (objects w)) w),
     [console_log "onError" [Str code]]).
Proof.
  intros [-> | [-> Hlt]]; unfold IrcConnection.onError.
  - apply outcome_eq; reflexivity.
  - apply Z.ltb_lt in Hlt.
    apply outcome_eq; cbn -[Z.ltb alter]; rewrite Hlt; reflexivity.
Qed.

(** When the socket reports that the network is unreachable, or that the
    connection timed out while the attempts are below the network's
    ceiling, [onError] disables the server of the connection and does
    nothing else: no other server changes, no timer is started, no
    reconnection is attempted. Selection does not return that server
    afterwards. *)
Theorem unreachable_server_is_given_up (code : string) (c : Connection.t) (w : World) :
  gives_up code c w ->
  (Connection.server c < length (objects w))%nat ->
  let r := IrcConnection.onError code (c, w) in
  events r = [console_log "onError" [Str code]]
  /\ fst (state r) = c
  /\ network (snd (state r)) = network w
  /\ IrcServer.disabled (objects (snd (state r)) !!! Connection.server c) = true
  /\ (forall s, s <> Connection.server c ->
                objects (snd (state r)) !!! s = objects w !!! s)
  /\ (forall index s,
         result (IRC.next_server index (snd (state r))) = Some s ->
         s <> Connection.server c).
Proof.
  intros Hg Hlt r. subst r. rewrite (onError_gives_up code c w Hg).
  cbn [events state fst snd objects set_objects network].
  assert (Hd : IrcServer.disabled
                 (alter IrcServer.disable (Connection.server c) (objects w)
                    !!! Connection.server c) = true).
  { now rewrite list_lookup_total_alter_eq by exact Hlt. }
  repeat split; try assumption.
  - intros s Hne. now rewrite list_lookup_total_alter_ne by congruence.
  - intros index s Hr ->.
    apply next_server_Some in Hr as [_ He].
    cbn [objects set_objects] in He.
    unfold IrcServer.disabled in Hd. unfold IrcServer.enabled in He.
    rewrite He in Hd. discriminate.
Qed.

(** The connection to server B learns that the network is unreachable. *)
Lemma unreachable_server_is_given_up_witness :
  let c := IrcConnection.new 1 in
  let r := IrcConnection.onError "ENETUNREACH" (c, Sample.pool) in
  (gives_up "ENETUNREACH" c Sample.pool
   /\ (Connection.server c < length (objects Sample.pool))%nat)
  /\ events r = [console_log "onError" [Str "ENETUNREACH"]]
  /\ IrcServer.disabled (objects (snd (state r)) !!! 1%nat) = true
  /\ result (IRC.next_server None (snd (state r))) = Some 2%nat.
Proof.
  intros c r.
  assert (Hg : gives_up "ENETUNREACH" c Sample.pool) by (left; reflexivity).
  assert (Hl : (Connection.server c < length (objects Sample.pool))%nat)
    by (vm_compute; lia).
  split; [split; assumption | split; [| split; [| reflexivity]]].
  - exact (proj1 (unreachable_server_is_given_up _ c Sample.pool Hg Hl)).
  - exact (proj1 (proj2 (proj2 (proj2
             (unreachable_server_is_given_up _ c Sample.pool Hg Hl))))).
Defined.

(** ** Adding and removing servers *)

Lemma removeServer_preserves_pool (s : nat) : preserves pool_of (IRC.removeServer s).
Proof.
  unfold IRC.removeServer, IRC.this, IRC.update.
  preserve; auto with pool.
Qed.
#[local] Hint Resolve removeServer_preserves_pool : pool.

Lemma removeServerByHost_preserves_pool (h : string) :
  preserves pool_of (IRC.removeServerByHost h).
Proof.
  unfold IRC.removeServerByHost, IRC.this.
  preserve; auto with pool.
Qed.
#[local] Hint Resolve removeServerByHost_preserves_pool : pool.

Lemma pool_of_hosts (w w' : World) :
  pool_of w' = pool_of w -> hosts w' = hosts w /\ (allocated w -> allocated w').
Proof.
  unfold pool_of, hosts, allocated. intros [= Hs Ho]. rewrite Hs, Ho. tauto.
Qed.

(** A host that was added stays taken: after [removeServerByHost( host )]
    (or [removeServer] of that server) the pool holds the same hosts, and
    [addServer] for that host is refused as before, with the '<name>
    server exists' notification. *)
Theorem removed_host_stays_taken
        (host : string) (serve : IIrcServerOptions) (has_callback : bool) (w : World) :
  allocated w ->
  In host (hosts w) ->
  IrcServer.host serve = host ->
  let w' := state (IRC.removeServerByHost host w) in
  hosts w' = hosts w
  /\ Net.servers (network (state (IRC.addServer serve has_callback w')))
     = Net.servers (network w)
  /\ events (IRC.addServer serve has_callback w')
     = bot_emit (name (Net.options (network w')) ++ " server exists")
                [Network; Server (length (objects w))]
         :: (if has_callback
             then [callback [Err "network server hosts must be unique";
                             Server (length (objects w))]]
             else []).
Proof.
  intros Ha Hin <- w'.
  pose proof (removeServerByHost_preserves_pool (IrcServer.host serve) w) as Hp.
  fold w' in Hp.
  destruct (pool_of_hosts w w' Hp) as [Hh Hal].
  assert (Hs : Net.servers (network w') = Net.servers (network w))
    by (unfold pool_of in Hp; congruence).
  assert (Ho : objects w' = objects w) by (unfold pool_of in Hp; congruence).
  rewrite (addServer_existing serve has_callback w' (Hal Ha)) by (now rewrite Hh).
  cbn [state events fst snd]. rewrite Ho. repeat split; [exact Hh | exact Hs].
Qed.

(** Server B is removed by host and added again. *)
Lemma removed_host_stays_taken_witness :
  let serve := Sample.server "b.example.net" true in
  let w' := state (IRC.removeServerByHost "b.example.net" Sample.pool) in
  (allocated Sample.pool /\ In "b.example.net" (hosts Sample.pool))
  /\ hosts w' = ["a.example.net"; "b.example.net"; "c.example.net"]
  /\ Net.servers (network (state (IRC.addServer serve true w'))) = [0; 1; 2]%nat.
Proof.
  intros serve w'.
  assert (Ha : allocated Sample.pool) by (repeat constructor).
  assert (Hin : In "b.example.net" (hosts Sample.pool)) by (right; left; reflexivity).
  split; [split; assumption | split].
  - exact (proj1 (removed_host_stays_taken "b.example.net" serve true Sample.pool
                    Ha Hin eq_refl)).
  - exact (proj1 (proj2 (removed_host_stays_taken "b.example.net" serve true Sample.pool
                           Ha Hin eq_refl))).
Defined.

Lemma existsb_eqb_In (h : string) (l : list string) :
  existsb (String.eqb h) l = true <-> In h l.
Proof.
  rewrite existsb_exists. split.
  - intros [x [Hin E]]. apply String.eqb_eq in E. now subst x.
  - intros Hin. exists h. split; [exact Hin | apply String.eqb_refl].
Qed.

Lemma addServer_hosts (serve : IIrcServerOptions) (cb : bool) (w : World) :
  allocated w ->
  allocated (state (IRC.addServer serve cb w))
  /\ hosts (state (IRC.addServer serve cb w)) = add_hosts (hosts w) [IrcServer.host serve]
  /\ exists more,
       Net.servers (network (state (IRC.addServer serve cb w)))
       = Net.servers (network w) ++ more.
Proof.
  intros Ha. cbn [add_hosts].
  assert (Hw : allocated (with_object serve w)).
  { unfold allocated, with_object in *. cbn [network objects set_objects].
    eapply List.Forall_impl; [| exact Ha]. intros s Hs. rewrite length_app. cbn in *. lia. }
  destruct (existsb (String.eqb (IrcServer.host serve)) (hosts w)) eqn:E.
  - apply existsb_eqb_In in E.
    rewrite (addServer_existing serve cb w Ha E). cbn [state fst snd].
    split; [exact Hw | split; [now apply hosts_with_object |]].
    exists []. now rewrite app_nil_r.
  - assert (Hnin : ~ In (IrcServer.host serve) (hosts w)).
    { intros Hin. apply existsb_eqb_In in Hin. congruence. }
    rewrite (addServer_fresh serve cb w Ha Hnin). cbn [state fst snd].
    split; [| split; [| now exists [length (objects w)]]].
    + unfold allocated in *. cbn [network set_network Net.servers Net.set_servers].
      apply List.Forall_app. split; [exact Hw |].
      constructor; [cbn; rewrite length_app; cbn; lia | constructor].
    + pose proof (hosts_with_object serve w Ha) as Hh.
      unfold hosts, with_object in *.
      cbn [network objects set_network set_objects Net.servers Net.set_servers] in *.
      rewrite map_app, Hh. cbn [map].
      rewrite lookup_total_app_r by lia. now rewrite Nat.sub_diag.
Qed.

(** The hosts of the pool after a sequence of [addServer] calls are the
    hosts it had, followed by the hosts offered that were not there yet, in
    the order of the calls: the first server offered for a host is the one
    that is kept. The servers that were in the pool stay where they
    were. *)
Theorem addServer_keeps_the_first_of_each_host
        (calls : list (IIrcServerOptions * bool)) (w : World) :
  allocated w ->
  hosts (add_servers calls w)
  = add_hosts (hosts w) (map (fun call => IrcServer.host (fst call)) calls)
  /\ exists more,
       Net.servers (network (add_servers calls w)) = Net.servers (network w) ++ more.
Proof.
  revert w. induction calls as [| [serve cb] rest IH]; intros w Ha.
  - split; [reflexivity | exists []; now rewrite app_nil_r].
  - destruct (addServer_hosts serve cb w Ha) as (Ha' & Hh & more & Hs).
    destruct (IH _ Ha') as [IHh [more' IHs]].
    cbn [add_servers map fst]. split.
    + rewrite IHh, Hh. reflexivity.
    + exists (more ++ more'). now rewrite IHs, Hs, app_assoc.
Qed.

(** Four calls to the empty pool; the third and the fourth repeat a
    host. *)
Lemma addServer_keeps_the_first_of_each_host_witness :
  let a := Sample.server "a.example.net" true in
  let b := Sample.server "b.example.net" true in
  let a' := Sample.server "a.example.net" false in
  let calls := [(a, false); (b, true); (a', true); (b, false)] in
  allocated Sample.empty
  /\ hosts (add_servers calls Sample.empty) = ["a.example.net"; "b.example.net"]
  /\ Net.servers (network (add_servers calls Sample.empty)) = [0; 1]%nat
  /\ IrcServer.enabled (objects (add_servers calls Sample.empty) !!! 0%nat) = true.
Proof.
  intros a b a' calls.
  assert (Ha : allocated Sample.empty) by constructor.
  split; [exact Ha | split; [| split; reflexivity]].
  exact (proj1 (addServer_keeps_the_first_of_each_host calls Sample.empty Ha)).
Defined.

(** ** Jumping *)

(** [jump()] on a connected network does not connect to any server. It
    has the connection quit, and the [connect()] that follows returns at
    once because the network is still marked connected: no socket is
    opened and the active server stays what it was. *)
Theorem jump_does_not_connect (w : World) (c : Connection.t) :
  Net._connected (network w) = true ->
  Net.connection (network w) = Some c ->
  let quit :=
    IrcConnection.disconnect (Some "jumping to next available server") (c, w) in
  events (IRC.jump w)
  = events quit
      ++ (if is_some (Net.auto_disabled_timer (network w))
          then [Logger_info "network has been autodisabled"
                            [Str (name (Net.options (network w)))]]
          else [])
  /\ Forall (fun e => opens_socket e = false) (events (IRC.jump w))
  /\ Net.active_server (network (state (IRC.jump w))) = Net.active_server (network w)
  /\ Net._connected (network (state (IRC.jump w))) = true
  /\ Net.connection (network (state (IRC.jump w))) = Some (fst (state quit)).
Proof.
  intros Hup Hconn quit.
  assert (Hq : snd (state quit) = w
               /\ Forall (fun e => opens_socket e = false) (events quit)).
  { subst quit. destruct c as [srv ra rd conn delay pong rt hd hl sock].
    unfold IrcConnection.disconnect, IrcConnection.stop_pong_timer, IrcConnection.send.
    destruct conn, sock, pong; cbn; split; repeat constructor; destruct w; reflexivity. }
  destruct Hq as [Hw Hq].
  assert (He : events (IRC.jump w)
               = events quit
                   ++ (if is_some (Net.auto_disabled_timer (network w))
                       then [Logger_info "network has been autodisabled"
                                         [Str (name (Net.options (network w)))]]
                       else [])).
  { unfold IRC.jump, IRC.disconnect, IRC.connect.
    destruct w as [n o r d]. destruct n. cbn in Hup, Hconn. subst.
    cbn [snd] in Hw.
    destruct _enable, auto_disabled_timer;
      cbn -[IrcConnection.disconnect String.append];
      fold quit; rewrite Hw;
      cbn -[IrcConnection.disconnect String.append];
      rewrite ?app_nil_r; reflexivity. }
  split; [exact He | split].
  - rewrite He. apply List.Forall_app. split; [exact Hq |].
    destruct (is_some _); repeat constructor.
  - unfold IRC.jump, IRC.disconnect, IRC.connect.
    destruct w as [n o r d]. destruct n. cbn in Hup, Hconn. subst.
    cbn [snd] in Hw.
    destruct _enable, auto_disabled_timer;
      cbn -[IrcConnection.disconnect String.append];
      fold quit; rewrite Hw;
      cbn -[IrcConnection.disconnect String.append];
      repeat split.
Qed.

(** A network that is connected to B has its active server jump. *)
Lemma jump_does_not_connect_witness :
  (Net._connected (network online) = true
   /\ exists c, Net.connection (network online) = Some c)
  /\ pushes (events (IRC.jump online))
     = [("QUIT : jumping to next available server" ++ Sample.CRLF)%string]
  /\ Forall (fun e => opens_socket e = false) (events (IRC.jump online))
  /\ Net.active_server (network (state (IRC.jump online))) = Some 1%nat.
Proof.
  assert (Hup : Net._connected (network online) = true) by (vm_compute; reflexivity).
  assert (Hc : exists c, Net.connection (network online) = Some c)
    by (eexists; vm_compute; reflexivity).
  split; [split; assumption |].
  destruct Hc as [c Hc].
  destruct (jump_does_not_connect online c Hup Hc) as (_ & Hno & Hact & _).
  split; [vm_compute; reflexivity | split; [exact Hno |]].
  rewrite Hact. vm_compute. reflexivity.
Defined.

(** ** The server a network dials *)

Lemma next_server_beside (index : option Z) :
  preserves beside_selection (IRC.next_server index).
Proof.
  unfold IRC.next_server, IRC.findEnabled, IRC.disable, IRC.deref, IRC.this,
    IRC.update, IRC.opt, IRC.this.
  preserve.
Qed.

Lemma dispose_preserves_target message :
  preserves target (IrcConnection.dispose message).
Proof.
  unfold IrcConnection.dispose, IrcConnection.disconnect, IrcConnection.disposeSocket,
    IrcConnection.stop_pong_timer, IrcConnection.send, IrcConnection.stop,
    IrcConnection.connected, IrcConnection.this, IrcConnection.opt, IrcConnection.net,
    IrcConnection.update.
  preserve.
Qed.

Lemma connection_connect_preserves_target : preserves target IrcConnection.connect.
Proof.
  unfold IrcConnection.connect, IrcConnection.connected, IrcConnection.this,
    IrcConnection.update, IrcConnection.opt, IrcConnection.net, IrcConnection.server.
  preserve.
Qed.

Lemma connection_connect_dials (c : Connection.t) (w : World) :
  Forall (fun e => dials (objects w !!! Connection.server c) e = true)
         (events (IrcConnection.connect (c, w))).
Proof.
  destruct c as [srv ra rd conn delay pong rt hd hl sock].
  unfold IrcConnection.connect. cbn [Connection.server].
  destruct conn; [repeat constructor |].
  destruct (IrcServer.ssl (objects w !!! srv)) eqn:E;
    cbn -[lookup_total Z.eqb String.eqb]; rewrite E;
    cbn -[lookup_total Z.eqb String.eqb];
    repeat constructor; cbn [dials]; now rewrite Z.eqb_refl, String.eqb_refl.
Qed.

Section Triple.
Context {S : Type} (Q : event -> bool).

Lemma triple_bind {A C} (P R I : S -> Prop) (m : M S A) (k : A -> M S C) :
  triple P m R Q -> (forall a, triple R (k a) I Q) -> triple P (bind m k) I Q.
Proof.
  intros Hm Hk s H. destruct (Hm s H) as [H1 E1].
  destruct (Hk (result (m s)) (state (m s)) H1) as [H2 E2].
  split; [exact H2 |]. unfold bind. cbn [events snd].
  apply List.Forall_app. split; assumption.
Qed.

(** What was read from the state is known to the rest of the method. *)
Lemma triple_gets_bind {A C} (P I : S -> Prop) (f : S -> A) (k : A -> M S C) :
  (forall v, triple (fun s => P s /\ f s = v) (k v) I Q) ->
  triple P (bind (gets f) k) I Q.
Proof. intros H s Hs. exact (H (f s) s (conj Hs eq_refl)). Qed.

Lemma triple_ret_bind {A C} (P I : S -> Prop) (a : A) (k : A -> M S C) :
  triple P (k a) I Q -> triple P (bind (ret a) k) I Q.
Proof. intros H s Hs. exact (H s Hs). Qed.

Lemma triple_weaken {A} (P P' I : S -> Prop) (m : M S A) :
  (forall s, P s -> P' s) -> triple P' m I Q -> triple P m I Q.
Proof. intros HP H s Hs. apply H. now apply HP. Qed.

End Triple.

Lemma keeps_relax {S A} (I : S -> Prop) (Q Q' : event -> bool) (m : M S A) :
  (forall e, Q e = true -> Q' e = true) -> keeps I Q m -> keeps I Q' m.
Proof.
  intros HQ H s Hs. destruct (H s Hs) as [H1 E1]. split; [exact H1 |].
  eapply List.Forall_impl; [| exact E1]. exact HQ.
Qed.

Lemma opens_none_dials (server : IrcServer.t) (e : event) :
  opens_none e = true -> dials server e = true.
Proof. now destruct e. Qed.

Lemma dispose_opens_none message :
  keeps anything opens_none (IrcConnection.dispose message).
Proof. keep. Qed.

Lemma next_server_opens_none index : keeps any_world opens_none (IRC.next_server index).
Proof. keep. Qed.

Ltac as_keeps :=
  lazymatch goal with
  | |- triple ?I ?m ?I ?Q => change (keeps I Q m)
  end.

Lemma next_server_aims index k objs : keeps (aims k objs) opens_none (IRC.next_server index).
Proof.
  intros w Ha. split; [| now apply next_server_opens_none].
  pose proof (next_server_beside index w) as Hb. unfold beside_selection in Hb.
  injection Hb as Hc Ho _ _ _. unfold aims in *. now rewrite Hc, Ho.
Qed.

(** A call of [dispose] or [connect] on the connection the network has. *)
Lemma on_connection_aims (m : M IrcConnection.Self unit) (Q : event -> bool)
      (c : Connection.t) (k : nat) (objs : list IrcServer.t) :
  preserves target m ->
  (forall w, objects w = objs -> Connection.server c = k ->
             Forall (fun e => Q e = true) (events (m (c, w)))) ->
  triple (fun w => aims k objs w /\ Net.connection (network w) = Some c)
         (IRC.on_connection m c) (aims k objs) Q.
Proof.
  intros Ht HQ w [[[c' [Hc' Hk]] Ho] Hc].
  assert (c' = c) by congruence. subst c'.
  split; [| now apply HQ].
  unfold IRC.on_connection. cbn [state fst snd].
  pose proof (Ht (c, w)) as E. unfold target in E. cbn [fst snd] in E.
  injection E as Es Ew. unfold aims. cbn. rewrite Ew. split; [| exact Ho].
  eexists. split; [reflexivity | congruence].
Qed.

(** A network dials the server its connection was made for. [connect()]
    makes a connection only when the network has none; a network that has
    one keeps it, whatever [next_server()] returns, and the only socket
    [connect()] opens is one to the server that this connection was made
    for. *)
Theorem connect_dials_the_first_server (w : World) (c : Connection.t) :
  Net.connection (network w) = Some c ->
  (exists c',
      Net.connection (network (state (IRC.connect w))) = Some c'
      /\ Connection.server c' = Connection.server c)
  /\ objects (state (IRC.connect w)) = objects w
  /\ Forall (fun e => dials (objects w !!! Connection.server c) e = true)
            (events (IRC.connect w)).
Proof.
  intros Hconn.
  set (k := Connection.server c). set (objs := objects w).
  assert (H : keeps (aims k objs) (dials (objs !!! k)) IRC.connect).
  { unfold IRC.connect.
    keep_step. { keep. } keep_step. { keep. } keep_step. { keep. }
    destruct (negb a || a0); [keep |].
    unfold IRC.this at 1. apply triple_gets_bind. intros conn.
    eapply triple_bind with (R := aims k objs).
    { destruct conn as [c0 |].
      - apply on_connection_aims; [apply dispose_preserves_target |].
        intros w' _ _. eapply List.Forall_impl; [apply opens_none_dials |].
        exact (proj2 (dispose_opens_none None (c0, w') I)).
      - intros w' [Ha _]. split; [exact Ha | constructor]. }
    intros _. as_keeps. keep_step.
    { eapply keeps_relax; [apply opens_none_dials | apply next_server_aims]. }
    keep_step.
    { apply keeps_modify. intros w' Ha. exact Ha. }
    destruct a2 as [s |]; [| keep].
    unfold IRC.this at 1. apply triple_gets_bind. intros conn'.
    destruct conn' as [c0 |].
    - apply triple_ret_bind. apply on_connection_aims;
        [apply connection_connect_preserves_target |].
      intros w' <- <-. apply connection_connect_dials.
    - intros w' [[[c' [Hc' _]] _] Hn]. congruence. }
  destruct (H w) as [[[c' [Hc' Hk]] Ho] He].
  { split; [now exists c | reflexivity]. }
  split; [now exists c' | split; [exact Ho | exact He]].
Qed.

(** The network keeps dialling B after it has given B up: B is reported
    unreachable and disabled, the next [connect()] selects C as the active
    server, and the socket it opens is one to B. *)
Lemma connect_dials_the_first_server_witness :
  let w := state ((IRC.connect ;; deliver (OnError "ENETUNREACH")) Sample.pool) in
  (exists c, Net.connection (network w) = Some c /\ Connection.server c = 1%nat)
  /\ IrcServer.disabled (objects w !!! 1%nat) = true
  /\ Net.active_server (network (state (IRC.connect w))) = Some 2%nat
  /\ List.filter opens_socket (events (IRC.connect w))
     = [socket_connect 6667 "b.example.net"]
  /\ (exists c', Net.connection (network (state (IRC.connect w))) = Some c'
                 /\ Connection.server c' = 1%nat).
Proof.
  intros w.
  assert (Hc : exists c, Net.connection (network w) = Some c /\ Connection.server c = 1%nat)
    by (eexists; split; vm_compute; reflexivity).
  split; [exact Hc | split; [vm_compute; reflexivity |]].
  split; [vm_compute; reflexivity | split; [vm_compute; reflexivity |]].
  destruct Hc as [c [Hc Hs]].
  destruct (proj1 (connect_dials_the_first_server w c Hc)) as [c' [Hc' Hs']].
  exists c'. split; [exact Hc' | congruence].
Defined.

(** ** The pool in every state a network can reach *)

Lemma host_lookup_total (objs objs' : list IrcServer.t) (s : nat) :
  map IrcServer.host objs' = map IrcServer.host objs ->
  IrcServer.host (objs' !!! s) = IrcServer.host (objs !!! s).
Proof.
  revert objs' s. induction objs as [| x l IH]; intros [| x' l'] s H; try discriminate H.
  - reflexivity.
  - injection H as Hx Hl. destruct s as [| s]; [exact Hx |].
    change (IrcServer.host (l' !!! s) = IrcServer.host (l !!! s)). now apply IH.
Qed.

Lemma sound_pool_same (w w' : World) :
  Net.servers (network w') = Net.servers (network w) ->
  map IrcServer.host (objects w') = map IrcServer.host (objects w) ->
  Net._index (network w') = Net._index (network w) ->
  sound_pool w -> sound_pool w'.
Proof.
  intros Hs Ho Hi [[Ha Hn] Hc].
  assert (Hlen : length (objects w') = length (objects w)).
  { apply (f_equal (@length string)) in Ho. now rewrite !length_map in Ho. }
  assert (Hall : allocated w') by (unfold allocated in *; now rewrite Hs, Hlen).
  split; [split; [exact Hall |] |].
  - assert (Hh : hosts w' = hosts w); [| now rewrite Hh].
    unfold hosts. rewrite Hs. apply map_ext_in. intros s Hin.
    now apply host_lookup_total.
  - unfold cursor_in_range in *. now rewrite Hs, Hi.
Qed.

Lemma map_host_alter (f : IrcServer.t -> IrcServer.t) (s : nat) (objs : list IrcServer.t) :
  (forall x, IrcServer.host (f x) = IrcServer.host x) ->
  map IrcServer.host (alter f s objs) = map IrcServer.host objs.
Proof.
  intros Hf. revert s. induction objs as [| x l IH]; intros [| s]; cbn; try reflexivity.
  - now rewrite Hf.
  - f_equal. apply IH.
Qed.

Lemma sound_pool_flag (f : IrcServer.t -> IrcServer.t) (s : nat) (w : World) :
  (forall x, IrcServer.host (f x) = IrcServer.host x) ->
  sound_pool w -> sound_pool (set_objects (alter f s (objects w)) w).
Proof.
  intros Hf. apply sound_pool_same; try reflexivity.
  cbn [objects set_objects]. now apply map_host_alter.
Qed.

Lemma sound_pool_enable (s : nat) (w : World) :
  sound_pool w -> sound_pool (set_objects (alter IrcServer.enable s (objects w)) w).
Proof. apply sound_pool_flag. reflexivity. Qed.

Lemma server_disable_sound :
  keeps sound_pool_of_self anything_goes IrcConnection.server_disable.
Proof.
  intros [c w] H. split; [| constructor].
  unfold IrcConnection.server_disable, sound_pool_of_self. cbn.
  apply sound_pool_flag; [reflexivity | exact H].
Qed.

Lemma next_server_index (index : option Z) (w : World) :
  Net._index (network (state (IRC.next_server index w))) = Net._index (network w)
  \/ Net._index (network (state (IRC.next_server index w)))
     = IRC.advance (Net._index (network w)) (length (Net.servers (network w))).
Proof.
  unfold IRC.next_server.
  destruct index as [n |]; exec;
    [destruct ((0 <=? n) && (n <? Z.of_nat (length (Net.servers (network w)))))%Z |];
    exec;
    match goal with
    | |- context [?l !! ?i] => destruct (l !! i) as [s |] eqn:E
    end; exec; auto;
    match goal with
    | |- context [IrcServer.disabled ?x] => destruct (IrcServer.disabled x) eqn:D
    end; exec; auto;
    match goal with
    | |- context [List.find ?f ?l] => destruct (List.find f l) eqn:F
    end; exec; auto.
Qed.

Lemma advance_in_range (i len : nat) : (IRC.advance i len < Nat.max 1 len)%nat.
Proof.
  unfold IRC.advance. destruct (Nat.eqb_spec len 0) as [-> | Hne]; [cbn; lia |].
  pose proof (Nat.mod_upper_bound (i + 1) len Hne). lia.
Qed.

Lemma next_server_sound (index : option Z) :
  keeps sound_pool anything_goes (IRC.next_server index).
Proof.
  intros w [Hu Hc]. split; [| apply List.Forall_forall; reflexivity].
  pose proof (next_server_preserves_pool index w) as Hp.
  unfold pool_of in Hp. injection Hp as Hs Ho.
  pose proof (next_server_index index w) as Hi.
  split.
  - unfold unique_hosts, allocated, hosts in *. now rewrite Hs, Ho.
  - unfold cursor_in_range in *. rewrite Hs.
    destruct Hi as [-> | ->]; [exact Hc | apply advance_in_range].
Qed.

Lemma addServer_sound serve cb : keeps sound_pool anything_goes (IRC.addServer serve cb).
Proof.
  intros w [Hu Hc]. split; [| apply List.Forall_forall; reflexivity].
  split; [now apply addServer_unique_hosts |].
  destruct Hu as [Ha _].
  destruct (addServer_hosts serve cb w Ha) as (_ & _ & more & Hs).
  assert (Hi : Net._index (network (state (IRC.addServer serve cb w)))
               = Net._index (network w)).
  { destruct (in_dec string_dec (IrcServer.host serve) (hosts w)) as [Hin | Hnin].
    - now rewrite (addServer_existing serve cb w Ha Hin).
    - now rewrite (addServer_fresh serve cb w Ha Hnin). }
  unfold cursor_in_range in *. rewrite Hs, Hi, length_app. lia.
Qed.

Lemma default_generate_nick_sound : keeps sound_pool anything_goes generate_nick.
Proof. intros w H. split; [exact H | constructor]. Qed.

#[local] Hint Resolve sound_pool_enable server_disable_sound next_server_sound
  addServer_sound default_generate_nick_sound : keeps.

Lemma keeps_on_connection (I : World -> Prop) (Q : event -> bool)
      (m : M IrcConnection.Self unit) (c : Connection.t) :
  (forall w cn, I w -> I (set_network (Net.set_connection cn (network w)) w)) ->
  keeps (fun s => I (snd s)) Q m ->
  keeps I Q (IRC.on_connection m c).
Proof.
  intros HI Hm w Hw. destruct (Hm (c, w) Hw) as [H E]. split; [| exact E].
  unfold IRC.on_connection. cbn [state fst snd]. now apply HI.
Qed.

Lemma invoke_sound (i : invocation) : keeps sound_pool_of_self anything_goes (invoke i).
Proof. destruct i; cbn [invoke]; unfold sound_pool_of_self; keep. Qed.

Lemma generate_nick_sound (fuel : nat) :
  forall nick force, keeps sound_pool anything_goes (IRC.generate_nick fuel nick force).
Proof.
  induction fuel as [| fuel IH]; intros nick force; cbn [IRC.generate_nick]; [keep |].
  keep; apply IH.
Qed.

Lemma on_connection_sound (m : M IrcConnection.Self unit) (c : Connection.t) :
  keeps sound_pool_of_self anything_goes m ->
  keeps sound_pool anything_goes (IRC.on_connection m c).
Proof. apply keeps_on_connection. intros w cn H. exact H. Qed.

#[local] Hint Resolve invoke_sound generate_nick_sound : keeps.

Ltac keep_pool :=
  repeat first
    [ lazymatch goal with
      | |- keeps _ _ (IRC.on_connection ?m _) =>
          apply on_connection_sound;
          lazymatch goal with
          | |- keeps _ _ (invoke _) => apply invoke_sound
          | |- keeps _ _ (IrcConnection.dispose ?m) => exact (invoke_sound (Dispose m))
          | |- keeps _ _ (IrcConnection.disconnect ?m) => exact (invoke_sound (Disconnect m))
          | |- keeps _ _ IrcConnection.connect => exact (invoke_sound Connect)
          end
      end
    | keep_step ].

Lemma connect_sound : keeps sound_pool anything_goes IRC.connect.
Proof.
  unfold IRC.connect. keep_pool.
Qed.

Lemma disconnect_sound message cb :
  keeps sound_pool anything_goes (IRC.disconnect message cb).
Proof.
  unfold IRC.disconnect. keep_pool.
Qed.

#[local] Hint Resolve connect_sound disconnect_sound : keeps.

Lemma perform_sound (r : request) : keeps sound_pool anything_goes (perform r).
Proof.
  destruct r; cbn [perform]; unfold deliver; keep_pool.
Qed.

(** The invariant of the pool holds in every state a network reaches:
    whatever is asked of it, the servers of the pool are server objects
    with pairwise different hosts and the cursor of the selection points
    into the pool. A network that has just been constructed satisfies
    it. *)
Theorem pool_stays_sound (requests : list request) (w : World) :
  sound_pool w -> sound_pool (state (perform_all requests w)).
Proof.
  intros H. unfold perform_all.
  apply (keeps_for_each sound_pool anything_goes requests perform perform_sound w H).
Qed.

(** A network is built, three servers are offered to it (two for the
    same host), it connects, loses a server, jumps and is re-enabled. *)
Lemma pool_stays_sound_witness :
  let w := new_world Sample.options true (fun i => i) in
  let requests :=
    [AddServer (Sample.server "a.example.net" false) false;
     AddServer (Sample.server "b.example.net" true) true;
     AddServer (Sample.server "a.example.net" true) true;
     ConnectNetwork; Deliver (OnError "ENETUNREACH"); Jump;
     RemoveServerByHost "b.example.net"; DisableCheck; NextServer (Some 7%Z)] in
  sound_pool w
  /\ sound_pool (state (perform_all requests w))
  /\ hosts (state (perform_all requests w)) = ["a.example.net"; "b.example.net"].
Proof.
  intros w requests.
  assert (H : sound_pool w).
  { split; [split; constructor | vm_compute; lia]. }
  split; [exact H | split; [| vm_compute; reflexivity]].
  exact (pool_stays_sound requests w H).
Defined.

(** ** The servers a network refers to *)

Lemma generate_nick_anchored k l a :
  keeps (anchored k l a) anything_goes (IrcConnection.on_network generate_nick).
Proof. intros [c w] H. split; [exact H | constructor]. Qed.
#[local] Hint Resolve generate_nick_anchored : keeps.

Lemma invoke_anchored (i : invocation) k l a :
  keeps (anchored k l a) anything_goes (invoke i).
Proof. destruct i; cbn [invoke]; keep. Qed.

Lemma on_connection_selected (m : M IrcConnection.Self unit) (c : Connection.t)
      (extra : World -> Prop) :
  (forall k l a, keeps (anchored k l a) anything_goes m) ->
  (forall w, selected w -> extra w ->
             In (Connection.server c) (Net.servers (network w))) ->
  triple (fun w => selected w /\ extra w) (IRC.on_connection m c) selected anything_goes.
Proof.
  intros Hm Hin w [Hs He]. pose proof (Hin w Hs He) as Hin'. destruct Hs as [Ha Hc].
  split; [| apply List.Forall_forall; reflexivity].
  destruct (Hm _ _ _ (c, w) (conj eq_refl (conj eq_refl eq_refl))) as [(Hk & Hl & Hact) _].
  unfold IRC.on_connection, selected, member. cbn.
  rewrite Hk, Hl, Hact. split; [exact Ha | exact Hin'].
Qed.

Lemma current_connection_is_member (c : Connection.t) (w : World) :
  selected w -> Net.connection (network w) = Some c ->
  In (Connection.server c) (Net.servers (network w)).
Proof. intros [_ Hc] E. rewrite E in Hc. exact Hc. Qed.

Lemma next_server_selected index (w : World) :
  selected w ->
  selected (state (IRC.next_server index w))
  /\ member (state (IRC.next_server index w)) (result (IRC.next_server index w)).
Proof.
  intros Hs.
  pose proof (next_server_preserves_pool index w) as Hp.
  unfold pool_of in Hp. injection Hp as Hl Ho.
  split.
  - assert (H : keeps selected anything_goes (IRC.next_server index)) by keep.
    exact (proj1 (H w Hs)).
  - destruct (result (IRC.next_server index w)) as [s |] eqn:E; [| exact I].
    unfold member. rewrite Hl. now apply next_server_Some in E.
Qed.

Lemma next_server_keeps_selected index :
  keeps selected anything_goes (IRC.next_server index).
Proof.
  intros w H. split; [exact (proj1 (next_server_selected index w H)) |].
  apply List.Forall_forall. reflexivity.
Qed.

(** What [next_server] returns is known to the rest of [connect]. *)
Lemma triple_next_server_bind {C} index (k : option nat -> M World C) :
  (forall v, triple (fun w => selected w /\ member w v) (k v) selected anything_goes) ->
  triple selected (bind (IRC.next_server index) k) selected anything_goes.
Proof.
  intros Hk w Hs. destruct (next_server_selected index w Hs) as [H1 H2].
  destruct (Hk _ _ (conj H1 H2)) as [H3 _].
  split; [exact H3 | apply List.Forall_forall; reflexivity].
Qed.

Lemma connection_of_a_member (s : nat) (w : World) :
  selected w /\ member w (Some s) ->
  selected (set_network (Net.set_connection (Some (IrcConnection.new s)) (network w)) w)
  /\ In (Connection.server (IrcConnection.new s))
        (Net.servers
           (network (set_network (Net.set_connection (Some (IrcConnection.new s))
                                                     (network w)) w))).
Proof. intros [[Ha _] Hm]. repeat split; assumption. Qed.

Lemma connect_selected : keeps selected anything_goes IRC.connect.
Proof.
  unfold IRC.connect.
  keep_step. { keep. } keep_step. { keep. } keep_step. { keep. }
  destruct (negb a || a0); [keep |].
  unfold IRC.this at 1. apply triple_gets_bind. intros conn.
  eapply triple_bind with (R := selected).
  { destruct conn as [c0 |].
    - apply on_connection_selected;
        [exact (invoke_anchored (Dispose None)) | apply current_connection_is_member].
    - intros w [Hs _]. split; [exact Hs | constructor]. }
  intros _. apply triple_next_server_bind. intros server.
  eapply triple_bind with (R := fun w => selected w /\ member w server).
  { intros w [[_ Hc] Hm]. split; [| constructor]. repeat split; assumption. }
  intros _. destruct server as [s |].
  - unfold IRC.this at 1. apply triple_gets_bind. intros conn'.
    destruct conn' as [c0 |].
    + apply triple_ret_bind.
      eapply triple_weaken;
        [| apply (on_connection_selected IrcConnection.connect c0
                    (fun w => Net.connection (network w) = Some c0)
                    (invoke_anchored Connect) (current_connection_is_member c0))].
      intros w [[Hs _] Hc]. split; assumption.
    + intros w [[Hs Hm] _].
      destruct (connection_of_a_member s w (conj Hs Hm)) as [Hs' Hin].
      exact (on_connection_selected IrcConnection.connect (IrcConnection.new s)
               (fun w' => In s (Net.servers (network w')))
               (invoke_anchored Connect) (fun _ _ H => H) _ (conj Hs' Hin)).
  - intros w [Hs _]. split; [exact Hs | repeat constructor].
Qed.

Lemma disconnect_selected message cb :
  keeps selected anything_goes (IRC.disconnect message cb).
Proof.
  unfold IRC.disconnect.
  keep_step. { keep. } destruct a; [keep |].
  unfold IRC.this at 1. apply triple_gets_bind. intros conn.
  destruct conn as [c0 |].
  - eapply triple_bind with (R := selected); [| intros _; as_keeps; keep].
    apply on_connection_selected;
      [exact (invoke_anchored (Disconnect message)) | apply current_connection_is_member].
  - eapply triple_weaken; [intros w H; exact (proj1 H) |]. as_keeps. keep.
Qed.

Lemma deliver_selected (i : invocation) : keeps selected anything_goes (deliver i).
Proof.
  unfold deliver.
  unfold IRC.this at 1. apply triple_gets_bind. intros conn.
  destruct conn as [c0 |].
  - destruct (on_socket i && negb (is_some (Connection.socket c0))).
    + intros w [Hs _]. split; [exact Hs | constructor].
    + apply on_connection_selected;
        [exact (invoke_anchored i) | apply current_connection_is_member].
  - intros w [Hs _]. split; [exact Hs | constructor].
Qed.

Lemma addServer_selected serve cb : keeps selected anything_goes (IRC.addServer serve cb).
Proof.
  assert (H : forall w w',
             (exists more, Net.servers (network w') = Net.servers (network w) ++ more) ->
             Net.active_server (network w') = Net.active_server (network w) ->
             Net.connection (network w') = Net.connection (network w) ->
             selected w -> selected w').
  { intros w w' [more Hl] Ha Hc [H1 H2]. unfold selected, member in *.
    rewrite Ha, Hc, Hl. split.
    - destruct (Net.active_server (network w)); [apply in_or_app; now left | exact I].
    - destruct (option_map _ _); [apply in_or_app; now left | exact I]. }
  intros w Hs. split; [| apply List.Forall_forall; reflexivity].
  apply (H w); [| | | exact Hs]; unfold IRC.addServer;
    cbn -[IRC.serverExists app];
    destruct (result (IRC.serverExists _ _));
    cbn -[IRC.serverExists app]; destruct cb; cbn;
    first [reflexivity | now exists [] ; rewrite app_nil_r | eexists; reflexivity].
Qed.

Lemma forget_active_server (w : World) :
  selected w -> selected (set_network (Net.set_active_server None (network w)) w).
Proof. intros [_ Hc]. split; [exact I | exact Hc]. Qed.

#[local] Hint Resolve next_server_keeps_selected connect_selected disconnect_selected
  deliver_selected addServer_selected forget_active_server : keeps.

Lemma generate_nick_selected (fuel : nat) :
  forall nick force, keeps selected anything_goes (IRC.generate_nick fuel nick force).
Proof.
  induction fuel as [| fuel IH]; intros nick force; cbn [IRC.generate_nick]; [keep |].
  keep; apply IH.
Qed.
#[local] Hint Resolve generate_nick_selected : keeps.

Lemma perform_selected (r : request) : keeps selected anything_goes (perform r).
Proof. destruct r; cbn [perform]; keep. Qed.

(** A network refers to servers of its pool only. In every state it
    reaches, whatever is asked of it, the active server and the server
    that the connection was made for are servers of the pool, and so are
    server objects of the store. *)
Theorem selected_servers_are_in_the_pool (requests : list request) (w : World) :
  sound_pool w ->
  selected w ->
  let w' := state (perform_all requests w) in
  selected w'
  /\ (forall c, Net.connection (network w') = Some c ->
                (Connection.server c < length (objects w'))%nat)
  /\ (forall a, Net.active_server (network w') = Some a ->
                (a < length (objects w'))%nat).
Proof.
  intros Hp Hs w'.
  assert (Hs' : selected w').
  { exact (proj1 (keeps_for_each selected anything_goes requests perform
                    perform_selected w Hs)). }
  assert (Hp' : sound_pool w').
  { exact (proj1 (keeps_for_each sound_pool anything_goes requests perform
                    perform_sound w Hp)). }
  destruct Hp' as [[Ha _] _]. unfold allocated in Ha. rewrite List.Forall_forall in Ha.
  destruct Hs' as [H1 H2]. repeat split; try assumption.
  - intros c Hc. rewrite Hc in H2. now apply Ha.
  - intros a Hact. rewrite Hact in H1. now apply Ha.
Qed.

(** A network is built and given three servers; it connects, loses B,
    connects again and jumps. *)
Lemma selected_servers_are_in_the_pool_witness :
  let w := new_world Sample.options true (fun i => i) in
  let requests :=
    [AddServer (Sample.server "a.example.net" false) false;
     AddServer (Sample.server "b.example.net" true) true;
     AddServer (Sample.server "c.example.net" true) true;
     ConnectNetwork; Deliver (OnError "ENETUNREACH"); ConnectNetwork; Jump] in
  (sound_pool w /\ selected w)
  /\ selected (state (perform_all requests w))
  /\ Net.active_server (network (state (perform_all requests w))) = Some 2%nat
  /\ option_map Connection.server
                (Net.connection (network (state (perform_all requests w))))
     = Some 1%nat.
Proof.
  intros w requests.
  assert (Hp : sound_pool w) by (split; [split; constructor | vm_compute; lia]).
  assert (Hs : selected w) by (split; exact I).
  split; [split; assumption | split; [| split; vm_compute; reflexivity]].
  exact (proj1 (selected_servers_are_in_the_pool requests w Hp Hs)).
Defined.

(** ** Framing: the chunk that is left behind *)

Lemma frame_without_LF (d : Buffer) (c : Connection.t) (w : World) :
  no_LF d ->
  (held_length c + length d <= IrcConnection.max_buffer_size)%nat ->
  result (IrcConnection.frame d (c, w)) = []
  /\ Connection.hold_last (fst (state (IrcConnection.frame d (c, w))))
     = Connection.hold_last c.
Proof.
  intros Hno Hlen. unfold IrcConnection.frame.
  rewrite (scan_no_LF d d 0 0 [] Hno).
  destruct c as [srv ra rd conn delay pong rt hd hl sock].
  unfold held_length in Hlen. cbn [Connection.held_data] in Hlen.
  apply Nat.ltb_ge in Hlen.
  exec_frame. rewrite Hlen. exec_frame. split; reflexivity.
Qed.

Lemma frame_unmerged (d : Buffer) (c : Connection.t) (w : World) :
  Connection.hold_last c = false ->
  within_bound [] d ->
  result (IrcConnection.frame d (c, w)) = fst (lines_of [] d).
Proof.
  intros Hh Hb. unfold within_bound in Hb.
  destruct (scan_whole d) as (H1 & H2 & H3).
  unfold IrcConnection.frame.
  destruct (IrcConnection.scan d d 0 0 []) as [lines ls] eqn:Esc.
  cbn [fst snd] in H1, H2, H3. rewrite <- H1. rewrite <- H2, length_drop in Hb.
  destruct c as [srv ra rd conn delay pong rt hd hl sock].
  cbn [Connection.hold_last] in Hh. subst hl.
  apply Nat.ltb_ge in Hb.
  destruct lines as [| first others]; [destruct hd; reflexivity |].
  destruct hd as [h |]; exec_frame;
    destruct (Nat.ltb_spec ls (length d)); exec_frame; try reflexivity;
    rewrite Hb; reflexivity.
Qed.



(** ** From the socket to the parser *)

Lemma bytes_app (a b : string) :
  Sample.bytes (a ++ b) = Sample.bytes a ++ Sample.bytes b.
Proof.
  unfold Sample.bytes, list_byte_of_string.
  induction a as [| c a IH]; cbn [String.append list_ascii_of_string map app];
    [reflexivity | now rewrite IH].
Qed.

Lemma append_assoc (a b c : string) : ((a ++ b) ++ c = a ++ (b ++ c))%string.
Proof. induction a as [| x a IH]; cbn; [reflexivity | now rewrite IH]. Qed.

Lemma parseMessage_events_state (line : string) (s s' : IrcConnection.Self) :
  events (IrcConnection.parseMessage line s) = events (IrcConnection.parseMessage line s').
Proof.
  unfold IrcConnection.parseMessage.
  destruct (negb _); [reflexivity |]. now destruct (Regex.exec _ _).
Qed.

Lemma parseMessage_with_CR (line : string) (s : IrcConnection.Self) :
  line <> "" ->
  events (IrcConnection.parseMessage (line ++ Sample.CR) s)
  = events (IrcConnection.parseMessage line s).
Proof.
  intros Hne. unfold IrcConnection.parseMessage, JS.truthy.
  pose proof (trim_surrounded "" line Sample.CR eq_refl eq_refl) as Ht.
  cbn [String.append] in Ht. rewrite Ht.
  destruct (String.eqb_spec line "") as [-> | _]; [congruence |].
  destruct (String.eqb_spec (line ++ Sample.CR) "") as [E | _]; [| reflexivity].
  destruct line; discriminate E.
Qed.

(** The line is decoded with the encoding of the network. The bytes
    C2 A0 are a no-break space in 'utf8', the default: the line is white
    space only and is logged as malformed; in 'latin1' they are two
    characters, of which the first is a command. The bytes E2 82 AC are the
    euro sign in 'utf8', a code unit above 255: the call of the parser is
    recorded, and the line after it is parsed. With an encoding that Node
    does not know, [toString] throws at the first line. *)
Example onData_decodes_with_the_encoding :
  let fresh := fun w : World => (Sample.connection, w) in
  let nbsp := [xc2; xa0; x0d; x0a] in
  let euro := [xe2; x82; xac; x0d; x0a; x50; x0d; x0a] in
  events (IrcConnection.onData nbsp (fresh Sample.pool))
  = [Logger_warn "Malformed IRC line: %s" [Str ""]]
  /\ events (IrcConnection.onData nbsp (fresh (with_encoding "latin1" Sample.pool))) = []
  /\ events (IrcConnection.onData euro (fresh Sample.pool))
     = [parseMessage_wide [xe2; x82; xac; x0d]]
  /\ events (IrcConnection.onData euro (fresh (with_encoding "utf9" Sample.pool)))
     = [throw (Err "Unknown encoding: utf9")].
Proof. vm_compute. repeat split. Qed.

Lemma utf8Slice_seven_bit (s : string) :
  all_of seven_bit s = true -> utf8Slice (Sample.bytes s) = Some s.
Proof.
  unfold Sample.bytes, list_byte_of_string.
  induction s as [| c s IH]; [reflexivity |].
  cbn [all_of list_ascii_of_string map utf8Slice]. intros H.
  apply andb_prop in H as [Hc Hs]. rewrite (IH Hs).
  assert (E : (Byte.to_N (byte_of_ascii c) <? 128)%N = true).
  { revert Hc. destruct c as [[] [] [] [] [] [] [] []]; vm_compute; congruence. }
  rewrite E. cbn [option_map]. now rewrite ascii_of_byte_of_ascii.
Qed.

Lemma asciiSlice_seven_bit (s : string) :
  all_of seven_bit s = true -> asciiSlice (Sample.bytes s) = Some s.
Proof.
  unfold asciiSlice, Sample.bytes, list_byte_of_string. intros H. f_equal.
  induction s as [| c s IH]; [reflexivity |].
  cbn [all_of] in H. apply andb_prop in H as [Hc Hs].
  cbn [list_ascii_of_string map string_of_list_ascii]. rewrite (IH Hs). f_equal.
  revert Hc. destruct c as [[] [] [] [] [] [] [] []]; vm_compute; congruence.
Qed.

(** A buffer of 7-bit bytes is read as written. *)
Lemma toString_seven_bit (encoding s : string) :
  reads_as_written encoding ->
  all_of seven_bit s = true ->
  Buffer_toString encoding (Sample.bytes s) = text s.
Proof.
  intros He Hs. unfold Buffer_toString.
  destruct (Sample.bytes s) as [| b rest] eqn:Eb.
  - destruct s; [reflexivity | discriminate Eb].
  - rewrite <- Eb. clear Eb b rest.
    assert (Hops : exists slice,
               getEncodingOps encoding = Some slice /\ slice (Sample.bytes s) = Some s).
    { unfold reads_as_written in He. cbn [In] in He. unfold getEncodingOps.
      destruct He as [E | [E | [E | [E | [E | []]]]]]; rewrite <- E.
      - exists utf8Slice. split; [reflexivity | now apply utf8Slice_seven_bit].
      - exists utf8Slice. split; [reflexivity | now apply utf8Slice_seven_bit].
      - exists latin1Slice. split; [reflexivity |].
        unfold latin1Slice, Sample.bytes. now rewrite string_of_list_byte_of_string.
      - exists latin1Slice. split; [reflexivity |].
        unfold latin1Slice, Sample.bytes. now rewrite string_of_list_byte_of_string.
      - exists asciiSlice. split; [reflexivity | now apply asciiSlice_seven_bit]. }
    destruct Hops as (slice & -> & ->). reflexivity.
Qed.

(** A line that arrives whole is parsed as the line itself. When the
    encoding of the network is 'utf8', the default, or a one-byte encoding,
    and a connection that holds nothing receives, in one chunk, the bytes
    of a line of 7-bit characters that is not empty, followed by CR LF,
    [onData] does what [parseMessage] does for that line and nothing else:
    the one line it decodes is the line followed by CR, which parses to
    what the line parses to. *)
Theorem line_received_is_line_parsed (line : string) (c : Connection.t) (w : World) :
  holding c [] ->
  reads_as_written (encoding (Net.options (network w))) ->
  line <> "" ->
  all_of seven_bit line = true ->
  no_LF (Sample.bytes (line ++ Sample.CR)) ->
  let data := Sample.bytes (line ++ Sample.CRLF) in
  events (IrcConnection.onData data (c, w))
  = events (IrcConnection.parseMessage line (c, w))
  /\ map (Buffer_toString (encoding (Net.options (network w))))
         (result (IrcConnection.frame data (c, w)))
     = [text (line ++ Sample.CR)]
  /\ IrcConnection.parse (line ++ Sample.CR) = IrcConnection.parse line.
Proof.
  intros Hh Henc Hne H7 Hno data.
  assert (Hd : data = Sample.bytes (line ++ Sample.CR) ++ [IrcConnection.LF]).
  { subst data. unfold Sample.CRLF, IrcConnection.CRLF, Sample.CR.
    change (String "013" (String "010" "")) with (String "013" "" ++ String "010" "")%string.
    now rewrite <- append_assoc, bytes_app. }
  assert (Hl : lines_of [] data = ([Sample.bytes (line ++ Sample.CR)], [])).
  { rewrite Hd, lines_of_app, (lines_of_no_LF [] _ Hno). reflexivity. }
  destruct (frame_lines_of c w [] data Hh) as (Hres & _ & Hw & Hev).
  { right; left. rewrite Hd. apply in_or_app. right. now left. }
  { unfold within_bound. rewrite Hl. cbn. lia. }
  rewrite Hl in Hres. cbn [fst] in Hres.
  assert (H7' : all_of seven_bit (line ++ Sample.CR) = true).
  { clear - H7. induction line as [| a line IH]; [reflexivity |].
    cbn [all_of String.append] in *. apply andb_prop in H7 as [Ha Hl].
    now rewrite Ha, (IH Hl). }
  assert (Hs : Buffer_toString (encoding (Net.options (network w)))
                               (Sample.bytes (line ++ Sample.CR))
               = text (line ++ Sample.CR))
    by now apply toString_seven_bit.
  split; [| split].
  - unfold IrcConnection.onData.
    unfold bind at 1. cbn [events snd]. rewrite Hev, Hres. cbn [app].
    destruct (state (IrcConnection.frame data (c, w))) as [c' w'] eqn:Es.
    cbn [snd] in Hw. subst w'.
    unfold bind at 1.
    cbn [events snd result state fst IrcConnection.parse_lines IrcConnection.opt
         IrcConnection.net gets ret app].
    rewrite Hs.
    unfold bind. cbn [events snd ret]. rewrite app_nil_r.
    rewrite (parseMessage_events_state (line ++ Sample.CR) (c', w) (c, w)).
    now apply parseMessage_with_CR.
  - rewrite Hres. cbn [map]. now rewrite Hs.
  - pose proof (trim_surrounded "" line Sample.CR eq_refl eq_refl) as Ht.
    cbn [String.append] in Ht.
    now rewrite parse_trim, Ht, <- parse_trim.
Qed.

(** [PING :abc] and its line end, on a network with the default encoding. *)
Lemma line_received_is_line_parsed_witness :
  (holding Sample.connection []
   /\ reads_as_written (encoding (Net.options (network Sample.pool)))
   /\ "PING :abc" <> ""
   /\ all_of seven_bit "PING :abc" = true
   /\ no_LF (Sample.bytes ("PING :abc" ++ Sample.CR)))
  /\ events (IrcConnection.onData (Sample.bytes ("PING :abc" ++ Sample.CRLF))
                                  (Sample.connection, Sample.pool))
     = events (IrcConnection.parseMessage "PING :abc" (Sample.connection, Sample.pool)).
Proof.
  assert (Hh : holding Sample.connection []) by (split; reflexivity).
  assert (He : reads_as_written (encoding (Net.options (network Sample.pool))))
    by (left; vm_compute; reflexivity).
  assert (Hne : "PING :abc" <> "") by discriminate.
  assert (H7 : all_of seven_bit "PING :abc" = true) by (vm_compute; reflexivity).
  assert (Hno : no_LF (Sample.bytes ("PING :abc" ++ Sample.CR)))
    by (intros H; vm_compute in H; intuition discriminate).
  split; [split; [exact Hh | split; [exact He | split; [exact Hne | split;
           [exact H7 | exact Hno]]]] |].
  exact (proj1 (line_received_is_line_parsed "PING :abc" Sample.connection Sample.pool
                  Hh He Hne H7 Hno)).
Defined.

(** ** Parsing: lines that are accepted *)

(** A greedy repetition reads all of a run of the class when what
    follows the run lets the match go on. *)
Lemma rep_greedy_all (cls : ascii -> bool) (pre s' : string) :
  forall (min pos : nat) (k : nat -> string -> option Regex.captures) res,
    all_of cls pre = true ->
    (min <= String.length pre)%nat ->
    match s' with String a _ => cls a = false | EmptyString => True end ->
    k (pos + String.length pre)%nat s' = Some res ->
    Regex.rep true cls min pos (pre ++ s') k = Some res.
Proof.
  induction pre as [| a pre IH]; intros min pos k res Hall Hmin Hstop Hk.
  - cbn [String.append String.length] in *. rewrite Nat.add_0_r in Hk.
    assert (min = 0%nat) by lia. subst min.
    destruct s' as [| b s']; cbn [Regex.rep Nat.eqb]; [exact Hk |].
    now rewrite Hstop.
  - cbn [all_of] in Hall. apply andb_prop in Hall as [Ha Hall].
    cbn [String.append Regex.rep]. rewrite Ha.
    rewrite (IH (Nat.pred min) (S pos) k res Hall); [reflexivity | | exact Hstop |].
    + cbn [String.length] in Hmin. lia.
    + cbn [String.length] in Hk.
      now replace (S pos + String.length pre)%nat with (pos + S (String.length pre))%nat
        by lia.
Qed.

Lemma append_nil (s : string) : (s ++ "")%string = s.
Proof. induction s as [| a s IH]; cbn; [reflexivity | now rewrite IH]. Qed.

Lemma substring_all (s : string) : String.substring 0 (String.length s) s = s.
Proof. pose proof (substring_prefix s "") as H. now rewrite append_nil in H. Qed.

(** The groups of a plain command, alone or followed by a trailing
    parameter. *)
Lemma exec_plain_command (cmd : string) :
  plain_command cmd ->
  Regex.exec Grammar.parse_regex cmd = Some [(6%nat, cmd)].
Proof.
  intros [Hall Hhead]. destruct cmd as [| c0 cmd']; [destruct Hhead |].
  destruct Hhead as [E1 E2].
  unfold Regex.exec, Grammar.parse_regex, Grammar.tags_part, Grammar.source_part,
    Grammar.plus.
  cbn [Regex.cat Regex.run Nat.eqb]. rewrite E1, E2.
  rewrite <- (append_nil (String c0 cmd')) at 1.
  apply rep_greedy_all; [exact Hall | cbn; lia | exact I |].
  cbn [Nat.add]. rewrite Nat.sub_0_r, ?append_nil, substring_all. reflexivity.
Qed.

Lemma exec_command_trailing (cmd trail : string) :
  plain_command cmd ->
  all_of Grammar.dot trail = true ->
  Regex.exec Grammar.parse_regex (cmd ++ " :" ++ trail)
  = Some [(8%nat, trail); (6%nat, cmd)].
Proof.
  intros [Hall Hhead] Hdot. destruct cmd as [| c0 cmd']; [destruct Hhead |].
  destruct Hhead as [E1 E2].
  unfold Regex.exec, Grammar.parse_regex, Grammar.tags_part, Grammar.source_part,
    Grammar.plus.
  cbn [Regex.cat Regex.run Nat.eqb String.append]. rewrite E1, E2.
  change (String c0 (cmd' ++ String " " (String ":" trail)))
    with (String c0 cmd' ++ String " " (String ":" trail))%string.
  apply rep_greedy_all; [exact Hall | cbn; lia | reflexivity |].
  cbn [Nat.add]. rewrite Nat.sub_0_r, substring_prefix.
  cbn [Regex.run Ascii.eqb Bool.eqb andb].
  rewrite <- (append_nil trail) at 1.
  erewrite rep_greedy_all; [reflexivity | exact Hdot | lia | exact I |].
  set (n := String.length (String c0 cmd')).
  replace (S (S n) + String.length trail =? n)%nat with false
    by (symmetry; apply Nat.eqb_neq; lia).
  replace (S (S n) + String.length trail - S (S n))%nat with (String.length trail) by lia.
  now rewrite substring_all.
Qed.

Lemma strip_end_fixed_app (p : ascii -> bool) (x t : string) :
  JS.strip_end p t = t -> t <> "" -> JS.strip_end p (x ++ t) = (x ++ t)%string.
Proof.
  intros Ht Hne. induction x as [| c x IH]; cbn [String.append]; [exact Ht |].
  cbn [JS.strip_end]. rewrite IH.
  destruct (x ++ t)%string eqn:E; [| reflexivity].
  destruct x; cbn in E; [congruence | discriminate].
Qed.

Lemma strip_end_none (p : ascii -> bool) (s : string) :
  all_of (fun c => negb (p c)) s = true -> JS.strip_end p s = s.
Proof.
  induction s as [| c s IH]; cbn [all_of JS.strip_end]; [reflexivity |].
  intros H. apply andb_prop in H as [Hc Hs]. rewrite (IH Hs).
  apply negb_true_iff in Hc. rewrite Hc. now destruct s.
Qed.

(** What a smaller class would strip is stripped by the larger one. *)
Lemma strip_end_sub (p q : ascii -> bool) (s : string) :
  (forall c, q c = true -> p c = true) ->
  JS.strip_end p s = s -> JS.strip_end q s = s.
Proof.
  intros Hq. induction s as [| c s IH]; cbn [JS.strip_end]; [reflexivity |].
  destruct (JS.strip_end p s) as [| a r] eqn:E.
  - destruct (p c) eqn:Ep; [discriminate |]. intros [= <-]. cbn [JS.strip_end].
    destruct (q c) eqn:Eq; [| reflexivity]. apply Hq in Eq. congruence.
  - intros [= <-]. rewrite (IH eq_refl). reflexivity.
Qed.

Lemma is_cr_is_space (c : ascii) : JS.is_cr c = true -> JS.is_space c = true.
Proof. unfold JS.is_cr. intros H. apply Ascii.eqb_eq in H. now subst c. Qed.

(** A line that starts with a plain command and ends without white
    space is the line that the pattern is run on. *)
Lemma plain_line_is_kept (cmd rest : string) :
  plain_command cmd ->
  JS.strip_end JS.is_space (cmd ++ rest) = (cmd ++ rest)%string ->
  JS.replace_cr (JS.trim (cmd ++ rest)) = (cmd ++ rest)%string.
Proof.
  intros [Hall Hhead] Hend. destruct cmd as [| c0 cmd']; [destruct Hhead |].
  cbn [all_of] in Hall. apply andb_prop in Hall as [H0 _].
  unfold Grammar.S_ in H0. apply negb_true_iff in H0.
  unfold JS.trim. cbn [String.append JS.drop_while] in *. rewrite H0, Hend.
  unfold JS.replace_cr.
  destruct (JS.is_cr c0) eqn:Ec; [apply is_cr_is_space in Ec; congruence |].
  exact (strip_end_sub JS.is_space JS.is_cr _ is_cr_is_space Hend).
Qed.

(** Lines that are accepted. A plain command (a word that starts with
    neither ['@'] nor [':']) is a message of its own; followed by [" :"]
    and a trailing parameter that holds no line terminator and does not
    end in white space, it is a message with that one parameter (with
    none when the trailing parameter is empty). *)
Theorem plain_command_lines_parse (cmd trail : string) :
  plain_command cmd ->
  all_of Grammar.dot trail = true ->
  JS.strip_end JS.is_space trail = trail ->
  IrcConnection.parse cmd = Some (bare_message cmd [])
  /\ IrcConnection.parse (cmd ++ " :" ++ trail)
     = Some (bare_message cmd (if String.eqb trail "" then [] else [trail])).
Proof.
  intros Hp Hdot Hend.
  assert (Hne : forall rest, String.eqb (cmd ++ rest) "" = false).
  { intros rest. destruct Hp as [_ Hh]. destruct cmd; [destruct Hh | reflexivity]. }
  split.
  - unfold IrcConnection.parse, JS.truthy.
    pose proof (Hne "") as Hn. rewrite append_nil in Hn. rewrite Hn. cbn [negb].
    pose proof (plain_line_is_kept cmd "" Hp) as Hk. rewrite append_nil in Hk.
    rewrite Hk by (apply strip_end_none; exact (proj1 Hp)).
    now rewrite (exec_plain_command cmd Hp).
  - unfold IrcConnection.parse, JS.truthy. rewrite Hne. cbn [negb].
    rewrite (plain_line_is_kept cmd (" :" ++ trail) Hp).
    + rewrite (exec_command_trailing cmd trail Hp Hdot).
      unfold IrcConnection.build_msg_obj, bare_message, JS.truthy.
      cbn [Regex.group Nat.eqb]. rewrite Hend.
      destruct (String.eqb trail ""); reflexivity.
    + apply strip_end_fixed_app; [| discriminate].
      cbn [String.append JS.strip_end]. rewrite Hend. now destruct trail.
Qed.

(** [PING] and [PING :abc]. *)
Lemma plain_command_lines_parse_witness :
  (plain_command "PING" /\ all_of Grammar.dot "abc" = true
   /\ JS.strip_end JS.is_space "abc" = "abc")
  /\ IrcConnection.parse "PING" = Some (bare_message "PING" [])
  /\ IrcConnection.parse "PING :abc" = Some (bare_message "PING" ["abc"]).
Proof.
  assert (Hp : plain_command "PING") by (repeat split).
  split; [split; [exact Hp | split; reflexivity] |].
  exact (plain_command_lines_parse "PING" "abc" Hp eq_refl eq_refl).
Defined.

(** ** A network without an enabled server *)

Lemma connect_when_disabled (w : World) :
  Net._enable (network w) = false ->
  IRC.connect w
  = (tt, w,
     if is_some (Net.auto_disabled_timer (network w))
     then [Logger_info "network has been autodisabled" [Str (name (Net.options (network w)))]]
     else []).
Proof.
  destruct w as [n o r d]. destruct n. cbn [network Net._enable]. intros ->.
  unfold IRC.connect. destruct auto_disabled_timer; reflexivity.
Qed.

Lemma dispose_keeps_exhausted (s : nat) (c : Connection.t) :
  keeps (exhausted s) opens_none (IRC.on_connection (IrcConnection.dispose None) c).
Proof.
  intros w H. split; [| exact (proj2 (dispose_opens_none None (c, w) I))].
  unfold IRC.on_connection. cbn [state fst snd].
  pose proof (dispose_preserves_target None (c, w)) as E. unfold target in E.
  cbn [fst snd] in E. injection E as _ Ew. rewrite Ew. exact H.
Qed.

Lemma exhausted_selection (s : nat) (w : World) :
  exhausted s w ->
  result (IRC.next_server None w) = None
  /\ auto_disabled (state (IRC.next_server None w))
  /\ Forall (fun e => opens_none e = true) (events (IRC.next_server None w)).
Proof.
  intros (_ & _ & Hc & Hd & Hf). rewrite (next_server_exhausted w s Hc Hd Hf).
  repeat split. repeat constructor.
Qed.

Lemma connect_when_exhausted (s : nat) :
  triple (exhausted s) IRC.connect
         (fun w => auto_disabled w /\ Net.active_server (network w) = None)
         opens_none.
Proof.
  unfold IRC.connect.
  unfold IRC.enabled, IRC.this at 1. apply triple_gets_bind. intros on.
  unfold IRC.connected, IRC.this at 1. apply triple_gets_bind. intros up.
  unfold IRC.opt, IRC.this at 1. apply triple_gets_bind. intros name.
  destruct (negb on || up) eqn:G.
  { intros w [[[(He & Hu & _) Eon] Eup] _]. subst on up.
    rewrite He, Hu in G. discriminate G. }
  eapply triple_weaken with (P' := exhausted s); [intros w H; apply H |].
  unfold IRC.this at 1. apply triple_gets_bind. intros conn.
  eapply triple_bind with (R := exhausted s).
  { eapply triple_weaken with (P' := exhausted s); [intros w H; apply H |].
    destruct conn as [c0 |]; [apply dispose_keeps_exhausted |].
    intros w H. split; [exact H | constructor]. }
  intros _ w H. destruct (exhausted_selection s w H) as (Hr & Ha & Hev).
  match goal with
  | |- context [bind ?m ?k w] =>
      change (state (bind m k w)) with (state (k (result (m w)) (state (m w))));
      change (events (bind m k w))
        with (events (m w) ++ events (k (result (m w)) (state (m w))))
  end.
  rewrite Hr.
  split; [split; [exact Ha | reflexivity] |].
  apply List.Forall_app. split; [exact Hev | repeat constructor].
Qed.

(** A network without an enabled server stops dialling. When the server
    at the cursor and every other server of the pool are disabled,
    [connect()] opens no socket and leaves the network disabled, with its
    auto-disable timer armed and no active server; every [connect()] after
    that does nothing but log that the network has been auto-disabled. *)
Theorem exhausted_network_stops_dialling (s : nat) (w : World) :
  exhausted s w ->
  let w1 := state (IRC.connect w) in
  Forall (fun e => opens_socket e = false) (events (IRC.connect w))
  /\ auto_disabled w1
  /\ Net.active_server (network w1) = None
  /\ IRC.connect w1
     = (tt, w1,
        [Logger_info "network has been autodisabled"
                     [Str (name (Net.options (network w1)))]]).
Proof.
  intros H w1. destruct (connect_when_exhausted s w H) as [[Ha Hact] Hev].
  fold w1 in Ha, Hact. split; [| split; [exact Ha | split; [exact Hact |]]].
  - eapply List.Forall_impl; [| exact Hev]. intros e He.
    unfold opens_none in He. now apply negb_true_iff in He.
  - destruct Ha as [Hd Ht]. rewrite (connect_when_disabled w1 Hd). now rewrite Ht.
Qed.

(** The network whose only server is disabled. *)
Lemma exhausted_network_stops_dialling_witness :
  exhausted 0 lone_server_down
  /\ auto_disabled (state (IRC.connect lone_server_down))
  /\ events (IRC.connect (state (IRC.connect lone_server_down)))
     = [Logger_info "network has been autodisabled" [Str "freenode"]].
Proof.
  assert (H : exhausted 0 lone_server_down) by (repeat split).
  split; [exact H | split].
  - exact (proj1 (proj2 (exhausted_network_stops_dialling 0%nat lone_server_down H))).
  - exact (f_equal events
             (proj2 (proj2 (proj2 (exhausted_network_stops_dialling 0%nat
                                     lone_server_down H))))).
Defined.

(** ** The reconnection counter *)

Lemma invoke_keeps_counter (k : Z) (i : invocation) :
  counts i = false ->
  keeps (fun s => counter s = k) anything_goes (invoke i).
Proof.
  intros Hi. destruct i; cbn [invoke counts] in *; keep.
Qed.

Lemma invoke_keeps_stored_delay (d : Z) (i : invocation) :
  reschedules i = false ->
  keeps (fun s => stored_delay s = d) anything_goes (invoke i).
Proof.
  intros Hi. destruct i; cbn [invoke reschedules] in *; try discriminate Hi; keep.
Qed.

Lemma state_bind {S A B} (m : M S A) (k : A -> M S B) (s : S) :
  state (bind m k s) = state (k (result (m s)) (state (m s))).
Proof. reflexivity. Qed.

(** A timeout error that is counted: the world is left alone, the counter
    goes up by one, and the stored delay is multiplied by the new count. *)
Lemma timeout_counted (c : Connection.t) (w : World) :
  (Net.connection_attempts (network w) <= Connection.reconnect_attempts c)%Z ->
  let k := (Connection.reconnect_attempts c + 1)%Z in
  let delay :=
    IrcConnection.num_or (Connection.reconnect_delay c * k) (Connection.reconnect_delay c) in
  counter (timeout (c, w)) = k
  /\ stored_delay (timeout (c, w)) = delay
  /\ configured_interval (timeout (c, w)) = Some delay
  /\ snd (timeout (c, w)) = w.
Proof.
  intros Hk k delay. subst k delay.
  assert (E : timeout (c, w)
              = state (IrcConnection.reconnect
                         (Connection.set_reconnect_attempts
                            (Connection.reconnect_attempts c + 1) c, w))).
  { unfold timeout, IrcConnection.onError.
    change ("ETIMEDOUT" =? "EPIPE")%string with false.
    change ("ETIMEDOUT" =? "ENETUNREACH")%string with false.
    change ("ETIMEDOUT" =? "ETIMEDOUT")%string with true.
    cbv iota. rewrite !state_bind.
    unfold IrcConnection.this, IrcConnection.net. 
    cbn [call gets result state fst snd].
    destruct (Connection.reconnect_attempts c <? Net.connection_attempts (network w))%Z
      eqn:E; [apply Z.ltb_lt in E; lia |].
    rewrite state_bind. reflexivity. }
  rewrite E. unfold counter, stored_delay.
  destruct (reconnect_outcome
              (Connection.set_reconnect_attempts (Connection.reconnect_attempts c + 1) c) w)
    as (Hd & Hi & _ & Ha & Hw).
  split; [exact Ha | split; [exact Hd | split; [exact Hi | exact Hw]]].
Qed.

Lemma timeout_not_counted (c : Connection.t) (w : World) :
  (Connection.reconnect_attempts c < Net.connection_attempts (network w))%Z ->
  counter (timeout (c, w)) = Connection.reconnect_attempts c
  /\ stored_delay (timeout (c, w)) = Connection.reconnect_delay c
  /\ Connection.reconnect_timer (fst (timeout (c, w))) = Connection.reconnect_timer c.
Proof.
  intros Hk. unfold counter, stored_delay, timeout, IrcConnection.onError.
  cbn -[IrcConnection.reconnect Z.ltb alter].
  destruct (Connection.reconnect_attempts c <? Net.connection_attempts (network w))%Z
    eqn:E; [| apply Z.ltb_ge in E; lia].
  repeat split.
Qed.

Lemma num_or_product (d k : Z) : (1 <= k)%Z -> IrcConnection.num_or (d * k) d = (d * k)%Z.
Proof.
  intros Hk. unfold IrcConnection.num_or.
  destruct (Z.eqb_spec (d * k) 0) as [E | _]; [| reflexivity]. nia.
Qed.

(** Timeouts that are all counted, from a counter at 0. *)
Lemma timeouts_compound (c : Connection.t) (w : World) (n : nat) :
  Connection.reconnect_attempts c = 0%Z ->
  (Net.connection_attempts (network w) <= 0)%Z ->
  counter (Nat.iter n timeout (c, w)) = Z.of_nat n
  /\ stored_delay (Nat.iter n timeout (c, w))
     = (Connection.reconnect_delay c * Z.of_nat (fact n))%Z
  /\ snd (Nat.iter n timeout (c, w)) = w
  /\ ((1 <= n)%nat ->
      configured_interval (Nat.iter n timeout (c, w))
      = Some (Connection.reconnect_delay c * Z.of_nat (fact n))%Z).
Proof.
  intros H0 Hc. induction n as [| n IH].
  - cbn [Nat.iter nat_rect fact]. unfold counter, stored_delay. cbn [fst snd].
    rewrite H0. repeat split; lia.
  - destruct IH as (Hk & Hd & Hw & _).
    cbn [Nat.iter nat_rect]. fold (Nat.iter n timeout (c, w)).
    destruct (Nat.iter n timeout (c, w)) as [c' w'].
    cbn [snd] in Hw. subst w'. unfold counter, stored_delay in Hk, Hd. cbn [fst] in Hk, Hd.
    destruct (timeout_counted c' w) as (Hk' & Hd' & Hi' & Hw'); [lia |].
    rewrite num_or_product in Hd', Hi' by lia.
    assert (E : (Connection.reconnect_delay c' * (Connection.reconnect_attempts c' + 1)
                 = Connection.reconnect_delay c * Z.of_nat (fact (S n)))%Z).
    { rewrite Hk, Hd. change (fact (S n)) with (S n * fact n)%nat.
      rewrite Nat2Z.inj_mul, Nat2Z.inj_succ. ring. }
    rewrite E in Hd', Hi'.
    split; [rewrite Hk', Hk; lia | split; [exact Hd' | split; [exact Hw' |]]].
    intros _. exact Hi'.
Qed.

(** *** The counter of the connection a network holds *)

Lemma on_connection_counted (m : M IrcConnection.Self unit) (c : Connection.t) (k : Z) :
  keeps (fun s => counter s = k) anything_goes m ->
  triple (fun w => counted k w /\ Net.connection (network w) = Some c)
         (IRC.on_connection m c) (counted k) anything_goes.
Proof.
  intros Hm w [[c' [Hc' Hk]] Hc].
  assert (c' = c) by congruence. subst c'.
  destruct (Hm (c, w) Hk) as [H E]. split; [| exact E].
  unfold IRC.on_connection, counted. cbn [state fst snd].
  eexists. split; [reflexivity | exact H].
Qed.

Lemma skip_counted (k : Z) (P : World -> Prop) :
  triple (fun w => counted k w /\ P w) (ret tt) (counted k) anything_goes.
Proof. intros w [H _]. split; [exact H | constructor]. Qed.

Lemma next_server_counted (k : Z) (index : option Z) :
  keeps (counted k) anything_goes (IRC.next_server index).
Proof. keep. Qed.

Lemma generate_nick_counted (k : Z) (fuel : nat) :
  forall nick force, keeps (counted k) anything_goes (IRC.generate_nick fuel nick force).
Proof.
  induction fuel as [| fuel IH]; intros nick force; cbn [IRC.generate_nick]; [keep |].
  keep; apply IH.
Qed.

Lemma connect_counted (k : Z) : keeps (counted k) anything_goes IRC.connect.
Proof.
  unfold IRC.connect.
  keep_step. { keep. } keep_step. { keep. } keep_step. { keep. }
  destruct (negb a || a0); [keep |].
  unfold IRC.this at 1. apply triple_gets_bind. intros conn.
  eapply triple_bind with (R := counted k).
  { destruct conn as [c0 |]; [| apply skip_counted].
    apply on_connection_counted. exact (invoke_keeps_counter k (Dispose None) eq_refl). }
  intros _. as_keeps. keep_step; [apply next_server_counted |].
  keep_step. { apply keeps_modify. intros w' Ha. exact Ha. }
  destruct a2 as [s |]; [| keep].
  unfold IRC.this at 1. apply triple_gets_bind. intros conn'.
  destruct conn' as [c0 |].
  - apply triple_ret_bind. apply on_connection_counted.
    exact (invoke_keeps_counter k Connect eq_refl).
  - intros w' [[c' [Hc' _]] Hn]. congruence.
Qed.

Lemma disconnect_counted (k : Z) message cb :
  keeps (counted k) anything_goes (IRC.disconnect message cb).
Proof.
  unfold IRC.disconnect.
  keep_step. { keep. }
  destruct a; [keep |].
  unfold IRC.this at 1. apply triple_gets_bind. intros conn.
  destruct conn as [c0 |].
  - eapply triple_bind with (R := counted k); [| intros _; as_keeps; keep].
    apply on_connection_counted.
    exact (invoke_keeps_counter k (Disconnect message) eq_refl).
  - intros w' [[c' [Hc' _]] Hn]. congruence.
Qed.

Lemma deliver_counted (k : Z) (i : invocation) :
  counts i = false -> keeps (counted k) anything_goes (deliver i).
Proof.
  intros Hi. unfold deliver.
  unfold IRC.this at 1. apply triple_gets_bind. intros conn.
  destruct conn as [c0 |]; [| apply skip_counted].
  destruct (on_socket i && negb (is_some (Connection.socket c0))); [apply skip_counted |].
  apply on_connection_counted. now apply invoke_keeps_counter.
Qed.

Lemma new_IrcServer_counted (k : Z) (serve : IIrcServerOptions) :
  keeps (counted k) anything_goes (IRC.new_IrcServer serve).
Proof. intros w H. split; [exact H | constructor]. Qed.

#[local] Hint Resolve next_server_counted generate_nick_counted connect_counted
  disconnect_counted new_IrcServer_counted : keeps.

Lemma perform_counted (k : Z) (r : request) :
  counting r = false -> keeps (counted k) anything_goes (perform r).
Proof.
  intros Hr. destruct r; cbn [perform counting] in *;
    try solve [keep]; now apply deliver_counted.
Qed.

(** C5, amended. With all numbers in the range that JavaScript holds
    exactly: a [reconnect()] made while the reconnect-attempt counter is
    k >= 1 configures the reconnect timer with the stored delay multiplied by
    k, and the product becomes the stored delay; with the counter at 0, as
    in a fresh connection, the stored delay is used unmodified. So the
    interval is the base delay times k only while the stored delay is still
    the base delay, and compounds afterwards: n timeouts in a row that are
    all counted, from a counter at 0, configure the base delay times n!.
    The counter is not the number of reconnections and is not reset by a
    registration: a timeout error adds one to it when it has reached the
    network's [connection_attempts], and leaves it, the stored delay and
    the timer alone when it has not; no other call on the connection
    writes the counter, and none but [onClose], [onError] and [reconnect]
    writes the stored delay; [onRegistered] does not touch the connection,
    and whatever else is asked of the network, the connection it holds
    keeps its counter. *)
Theorem reconnect_delay_backoff :
  (forall (c : Connection.t) (w : World) (k : Z),
      Connection.reconnect_attempts c = k ->
      (1 <= k)%Z ->
      exact k ->
      exact (Connection.reconnect_delay c * k) ->
      let s := state (IrcConnection.reconnect (c, w)) in
      configured_interval s = Some (Connection.reconnect_delay c * k)%Z
      /\ stored_delay s = (Connection.reconnect_delay c * k)%Z
      /\ counter s = k)
  /\ (forall (c : Connection.t) (w : World),
         Connection.reconnect_attempts c = 0%Z ->
         let s := state (IrcConnection.reconnect (c, w)) in
         configured_interval s = Some (Connection.reconnect_delay c)
         /\ stored_delay s = Connection.reconnect_delay c
         /\ counter s = 0%Z)
  /\ (forall (c : Connection.t) (w : World) (n : nat),
         Connection.reconnect_attempts c = 0%Z ->
         (Net.connection_attempts (network w) <= 0)%Z ->
         (1 <= n)%nat ->
         exact (Z.of_nat n) ->
         exact (Connection.reconnect_delay c * Z.of_nat (fact n)) ->
         let s := Nat.iter n timeout (c, w) in
         configured_interval s = Some (Connection.reconnect_delay c * Z.of_nat (fact n))%Z
         /\ counter s = Z.of_nat n)
  /\ (forall (c : Connection.t) (w : World),
         (Connection.reconnect_attempts c < Net.connection_attempts (network w))%Z ->
         let s := timeout (c, w) in
         counter s = Connection.reconnect_attempts c
         /\ stored_delay s = Connection.reconnect_delay c
         /\ Connection.reconnect_timer (fst s) = Connection.reconnect_timer c)
  /\ (forall (c : Connection.t) (w : World),
         (Net.connection_attempts (network w) <= Connection.reconnect_attempts c)%Z ->
         exact (Connection.reconnect_attempts c) ->
         exact (Connection.reconnect_attempts c + 1) ->
         exact (Connection.reconnect_delay c * (Connection.reconnect_attempts c + 1)) ->
         let s := timeout (c, w) in
         counter s = (Connection.reconnect_attempts c + 1)%Z
         /\ configured_interval s
            = Some (Connection.reconnect_delay c * (Connection.reconnect_attempts c + 1))%Z
         /\ stored_delay s
            = (Connection.reconnect_delay c * (Connection.reconnect_attempts c + 1))%Z)
  /\ (forall (i : invocation) (s : IrcConnection.Self),
         counts i = false -> counter (state (invoke i s)) = counter s)
  /\ (forall (i : invocation) (s : IrcConnection.Self),
         reschedules i = false -> stored_delay (state (invoke i s)) = stored_delay s)
  /\ (forall w : World,
         Net.connection (network (state (IRC.onRegistered w)))
         = Net.connection (network w))
  /\ (forall (r : request) (w : World) (k : Z),
         counting r = false -> counted k w -> counted k (state (perform r w))).
Proof.
  split; [| split; [| split; [| split; [| split; [| split; [| split; [| split]]]]]]].
  - intros c w k Hk H1 _ _ s. subst s.
    destruct (reconnect_outcome c w) as (Hd & Hi & _ & Ha & _).
    unfold stored_delay, counter. rewrite Hi, Hd, Ha, Hk.
    rewrite (num_or_product _ _ H1). repeat split.
  - intros c w H0 s. subst s.
    destruct (reconnect_outcome c w) as (Hd & Hi & _ & Ha & _).
    unfold stored_delay, counter. rewrite Hi, Hd, Ha, H0.
    unfold IrcConnection.num_or. rewrite Z.mul_0_r. repeat split.
  - intros c w n H0 Hc Hn _ _ s. subst s.
    destruct (timeouts_compound c w n H0 Hc) as (Hk & _ & _ & Hi).
    split; [exact (Hi Hn) | exact Hk].
  - intros c w Hlt s. subst s. now apply timeout_not_counted.
  - intros c w Hge [Ha _] _ _ s. subst s.
    destruct (timeout_counted c w Hge) as (Hk & Hd & Hi & _).
    rewrite num_or_product in Hd, Hi by lia.
    split; [exact Hk | split; [exact Hi | exact Hd]].
  - intros i s Hi. exact (proj1 (invoke_keeps_counter (counter s) i Hi s eq_refl)).
  - intros i s Hi.
    exact (proj1 (invoke_keeps_stored_delay (stored_delay s) i Hi s eq_refl)).
  - change (preserves (fun w => Net.connection (network w)) IRC.onRegistered).
    unfold IRC.onRegistered, IRC.update, IRC.this, IRC.opt, IRC.this. preserve.
  - intros r w k Hr Hk. exact (proj1 (perform_counted k r Hr w Hk)).
Qed.

(** A reconnection with the counter at 2 and one with the counter at 0;
    three counted timeouts in a row; the registration of a network whose
    connection has counted 3. *)
Lemma reconnect_delay_backoff_witness :
  let c := Connection.set_reconnect_attempts 2 Sample.connection in
  let s3 := Nat.iter 3 timeout (Sample.connection, impatient) in
  let w3 := set_network (Net.set_connection (Some (fst s3)) (network impatient))
                        impatient in
  (Connection.reconnect_attempts c = 2%Z /\ (1 <= 2)%Z /\ exact 2
   /\ exact (Connection.reconnect_delay c * 2))
  /\ configured_interval (state (IrcConnection.reconnect (c, Sample.pool)))
     = Some 10000%Z
  /\ configured_interval
       (state (IrcConnection.reconnect (Sample.connection, Sample.pool)))
     = Some 5000%Z
  /\ configured_interval s3 = Some 30000%Z
  /\ (counting OnRegistered = false /\ counted 3 w3)
  /\ counted 3 (state (perform OnRegistered w3)).
Proof.
  intros c s3 w3.
  assert (Hc : Connection.reconnect_attempts c = 2%Z) by reflexivity.
  assert (H2 : exact 2) by (unfold exact; lia).
  assert (Hd : exact (Connection.reconnect_delay c * 2)) by (vm_compute; split; congruence).
  assert (H3 : exact (Z.of_nat 3)) by (vm_compute; split; congruence).
  assert (H6 : exact (Connection.reconnect_delay Sample.connection * Z.of_nat (fact 3)))
    by (vm_compute; split; congruence).
  assert (Hk : counted 3 w3) by (eexists; split; vm_compute; reflexivity).
  split; [split; [exact Hc | split; [lia | split; [exact H2 | exact Hd]]] |].
  destruct reconnect_delay_backoff as (P1 & P2 & P3 & _ & _ & _ & _ & _ & P9).
  split; [exact (proj1 (P1 c Sample.pool 2%Z Hc ltac:(lia) H2 Hd)) |].
  split; [exact (proj1 (P2 Sample.connection Sample.pool eq_refl)) |].
  split.
  - refine (proj1 (P3 Sample.connection impatient 3%nat eq_refl _ _ H3 H6)).
    + vm_compute. congruence.
    + lia.
  - split; [split; [reflexivity | exact Hk] |].
    exact (P9 OnRegistered w3 3%Z eq_refl Hk).
Defined.

(** ** What removing the active server does *)

Lemma result_bind {S A B} (m : M S A) (k : A -> M S B) (s : S) :
  result (bind m k s) = result (k (result (m s)) (state (m s))).
Proof. reflexivity. Qed.

Lemma events_bind {S A B} (m : M S A) (k : A -> M S B) (s : S) :
  events (bind m k s) = events (m s) ++ events (k (result (m s)) (state (m s))).
Proof. reflexivity. Qed.

(** The cursor moves on whatever the selection returns. *)
Lemma next_server_moves_cursor (w : World) :
  Net._index (network (state (IRC.next_server None w)))
  = IRC.advance (Net._index (network w)) (length (Net.servers (network w))).
Proof.
  destruct (at_cursor w) as [s |] eqn:Ec; [| now rewrite (next_server_none w Ec)].
  destruct (IrcServer.disabled (objects w !!! s)) eqn:Ed;
    [| now rewrite (next_server_enabled w s Ec Ed)].
  destruct (first_enabled w) as [f |] eqn:Ef;
    [now rewrite (next_server_fallback w s f Ec Ed Ef)
    | now rewrite (next_server_exhausted w s Ec Ed Ef)].
Qed.

(** What the selection returns depends on the array of servers, the
    cursor and the server objects only. *)
Lemma next_server_result_ext (w w' : World) :
  Net.servers (network w') = Net.servers (network w) ->
  Net._index (network w') = Net._index (network w) ->
  objects w' = objects w ->
  result (IRC.next_server None w') = result (IRC.next_server None w).
Proof.
  intros Hs Hi Ho.
  assert (Hc : at_cursor w' = at_cursor w) by (unfold at_cursor; now rewrite Hs, Hi).
  assert (Hf : first_enabled w' = first_enabled w)
    by (unfold first_enabled; now rewrite Hs, Ho).
  destruct (at_cursor w) as [s |] eqn:Ec.
  - destruct (IrcServer.disabled (objects w !!! s)) eqn:Ed.
    + destruct (first_enabled w) as [f |] eqn:Ef.
      * rewrite (next_server_fallback w s f Ec Ed Ef).
        rewrite (next_server_fallback w' s f Hc); [reflexivity | now rewrite Ho | exact Hf].
      * rewrite (next_server_exhausted w s Ec Ed Ef).
        rewrite (next_server_exhausted w' s Hc); [reflexivity | now rewrite Ho | exact Hf].
    + rewrite (next_server_enabled w s Ec Ed).
      rewrite (next_server_enabled w' s Hc); [reflexivity | now rewrite Ho].
  - rewrite (next_server_none w Ec). now rewrite (next_server_none w' Hc).
Qed.

(** A call on the connection leaves everything of the network but the
    connection as the method of the connection leaves it. *)
Lemma on_connection_state (m : M IrcConnection.Self unit) (c : Connection.t) (w : World) :
  preserves target m ->
  state (IRC.on_connection m c w) = holding_connection (fst (state (m (c, w)))) w.
Proof.
  intros Hm. pose proof (Hm (c, w)) as E. unfold target in E. cbn [fst snd] in E.
  injection E as _ Ew. unfold IRC.on_connection, holding_connection.
  cbn [state fst snd]. now rewrite Ew.
Qed.

Lemma state_bind_gets {S A B} (f : S -> A) (k : A -> M S B) (s : S) :
  state (bind (gets f) k s) = state (k (f s) s).
Proof. reflexivity. Qed.

(** [connect()] on a network that is enabled and not connected: the active
    server becomes what the selection returns, and the cursor moves on. *)
Lemma connect_selects (w : World) :
  Net._enable (network w) = true ->
  Net._connected (network w) = false ->
  Net.active_server (network (state (IRC.connect w))) = result (IRC.next_server None w)
  /\ Net._index (network (state (IRC.connect w)))
     = IRC.advance (Net._index (network w)) (length (Net.servers (network w))).
Proof.
  intros Hen Hup.
  set (goal := fun w' : World =>
         Net.active_server (network w') = result (IRC.next_server None w)
         /\ Net._index (network w')
            = IRC.advance (Net._index (network w)) (length (Net.servers (network w)))).
  change (goal (state (IRC.connect w))).
  unfold IRC.connect, IRC.enabled, IRC.connected, IRC.opt, IRC.this.
  rewrite state_bind_gets, Hen. rewrite state_bind_gets, Hup.
  rewrite state_bind_gets. cbn [negb orb]. rewrite state_bind_gets.
  rewrite state_bind.
  set (w1 := state (match Net.connection (network w) with
                    | Some c => IRC.on_connection (IrcConnection.dispose None) c
                    | None => ret tt
                    end w)).
  assert (Hw1 : w1 = w \/ exists c, w1 = holding_connection c w).
  { subst w1. destruct (Net.connection (network w)) as [c |]; [right | now left].
    rewrite (on_connection_state _ c w (dispose_preserves_target None)).
    eexists. reflexivity. }
  clearbody w1.
  assert (Hres : result (IRC.next_server None w1) = result (IRC.next_server None w)).
  { destruct Hw1 as [-> | [c ->]]; [reflexivity | now apply next_server_result_ext]. }
  assert (Hidx : Net._index (network (state (IRC.next_server None w1)))
                 = IRC.advance (Net._index (network w)) (length (Net.servers (network w)))).
  { rewrite next_server_moves_cursor. destruct Hw1 as [-> | [c ->]]; reflexivity. }
  rewrite state_bind, Hres.
  set (w2 := state (IRC.next_server None w1)) in *. clearbody w2.
  rewrite state_bind. unfold IRC.update. cbn [modify result state fst snd].
  destruct (result (IRC.next_server None w)) as [s |].
  - rewrite state_bind_gets. cbn [network set_network Net.connection Net.set_active_server].
    destruct (Net.connection (network w2)) as [c |].
    + rewrite state_bind. cbn [ret result state fst snd].
      rewrite (on_connection_state _ _ _ connection_connect_preserves_target).
      split; [reflexivity | exact Hidx].
    + rewrite state_bind, state_bind. cbn [modify ret result state fst snd].
      rewrite (on_connection_state _ _ _ connection_connect_preserves_target).
      split; [reflexivity | exact Hidx].
  - cbn [call state fst snd]. split; [reflexivity | exact Hidx].
Qed.

Lemma connection_disconnect_preserves_target message :
  preserves target (IrcConnection.disconnect message).
Proof.
  unfold IrcConnection.disconnect, IrcConnection.stop_pong_timer, IrcConnection.send,
    IrcConnection.stop, IrcConnection.connected, IrcConnection.this, IrcConnection.opt,
    IrcConnection.net, IrcConnection.update.
  preserve.
Qed.

(** [jump()] on a network that is connected and has a connection: the
    connection is told to quit, and [connect()] returns at once. *)
Lemma jump_connected (w : World) (c : Connection.t) :
  Net._connected (network w) = true ->
  Net.connection (network w) = Some c ->
  let quit :=
    IrcConnection.disconnect (Some "jumping to next available server") (c, w) in
  state (IRC.jump w) = holding_connection (fst (state quit)) w
  /\ events (IRC.jump w) = events quit ++ autodisabled_log w.
Proof.
  intros Hup Hconn quit.
  assert (Hw : snd (state quit) = w).
  { pose proof (connection_disconnect_preserves_target
                  (Some "jumping to next available server") (c, w)) as E.
    unfold target in E. cbn [fst snd] in E. now injection E. }
  unfold IRC.jump, IRC.disconnect, IRC.connect, autodisabled_log, holding_connection.
  destruct w as [n o r d]. destruct n. cbn in Hup, Hconn. subst.
  cbn [snd] in Hw.
  destruct _enable, auto_disabled_timer;
    cbn -[IrcConnection.disconnect String.append];
    fold quit; rewrite Hw;
    cbn -[IrcConnection.disconnect String.append];
    rewrite ?app_nil_r; split; reflexivity.
Qed.

(** [jump()] on a network that is not connected is [connect()]. *)
Lemma jump_not_connected (w : World) :
  Net._connected (network w) = false ->
  state (IRC.jump w) = state (IRC.connect w)
  /\ events (IRC.jump w) = events (IRC.connect w).
Proof.
  intros Hup. unfold IRC.jump, IRC.connected, IRC.this.
  split.
  - rewrite state_bind_gets, Hup. now rewrite state_bind.
  - rewrite events_bind. cbn [gets events result state fst snd app].
    rewrite Hup. now rewrite events_bind.
Qed.

(** [connect()] on a network that is disabled, or connected, returns at
    once. *)
Lemma connect_returns_at_once (w : World) :
  Net._enable (network w) = false \/ Net._connected (network w) = true ->
  state (IRC.connect w) = w /\ events (IRC.connect w) = autodisabled_log w.
Proof.
  intros H. unfold IRC.connect, autodisabled_log.
  destruct w as [n o r d]. destruct n. cbn in H.
  destruct H as [-> | ->]; destruct auto_disabled_timer; try destruct _enable;
    try destruct _connected; split; reflexivity.
Qed.

Lemma removeServer_inactive (w : World) (s : nat) :
  ~ In s (Net.servers (network w)) \/ Net.active_server (network w) <> Some s ->
  state (IRC.removeServer s w) = w /\ events (IRC.removeServer s w) = [].
Proof.
  intros H. unfold IRC.removeServer. exec.
  destruct (IRC.indexOf s (Net.servers (network w))) as [i |] eqn:Ei; exec.
  - destruct H as [H | H]; [apply indexOf_None in H; congruence |].
    destruct (Net.active_server (network w)) as [a |] eqn:Ea; exec.
    + destruct (Nat.eqb_spec a s) as [-> | Hne]; [congruence |].
      split; reflexivity.
    + split; reflexivity.
  - split; reflexivity.
Qed.

Lemma removeServer_active (w : World) (s : nat) :
  active_member s w ->
  IRC.removeServer s w = IRC.jump (cleared w).
Proof.
  intros [Hin Hact]. unfold IRC.removeServer, cleared.
  destruct (IRC.jump _) as [[u w'] e] eqn:Ej.
  destruct (IRC.indexOf s (Net.servers (network w))) as [i |] eqn:Ei;
    [| apply indexOf_None in Ei; contradiction].
  apply outcome_eq; cbn -[IRC.jump IRC.indexOf]; rewrite Ei;
    cbn -[IRC.jump IRC.indexOf]; rewrite Hact;
    cbn -[IRC.jump IRC.indexOf]; rewrite Nat.eqb_refl;
    cbn -[IRC.jump IRC.indexOf]; rewrite Ej; try reflexivity; now destruct u.
Qed.

Lemma connection_disconnect_opens_none message :
  keeps anything opens_none (IrcConnection.disconnect message).
Proof. keep. Qed.

(** C10, as stated, fails: [active_server] is not the only state that
    [removeServer] changes, and the jump is not to another server. On the
    network that has dialled B from the pool [A(disabled), B, C], with the
    cursor at 1, [removeServer( B )] leaves the array as it is, and
    [jump()] selects from it again: the cursor moves from 1 to 2, a socket
    is opened, and the active server is B, the server that was to be
    removed. *)
Lemma removeServer_changes_more_than_active_server :
  let w := state (IRC.connect Sample.pool) in
  let r := IRC.removeServer 1 w in
  (Net.servers (network w) = [0; 1; 2]%nat
   /\ Net.active_server (network w) = Some 1%nat
   /\ Net._index (network w) = 1%nat)
  /\ Net.servers (network (state r)) = [0; 1; 2]%nat
  /\ Net.active_server (network (state r)) = Some 1%nat
  /\ Net._index (network (state r)) = 2%nat
  /\ existsb opens_socket (events r) = true.
Proof. vm_compute. repeat split. Qed.

(** C10, amended. [removeServer( s )] never changes the array [servers] nor
    a server object: no element is ever removed. When [s] is not in the
    array or is not the active server, nothing changes and no call is made.
    When [s] is in the array and is the active server, [active_server] is
    cleared and [jump()] runs, and [active_server] is not the only state
    that changes. On a network that is connected and has a connection, the
    connection is told to quit, which opens no socket, and [active_server]
    stays cleared. On a network that is neither connected nor enabled,
    clearing [active_server] is all that happens. On a network that is
    enabled and not connected, [connect()] selects from the unchanged
    array: the cursor moves on by one and [active_server] becomes what
    [next_server()] returns, which is [s] itself when [s] is the enabled
    server at the cursor. *)
Theorem removeServer_effects (w : World) (s : nat) :
  let r := IRC.removeServer s w in
  Net.servers (network (state r)) = Net.servers (network w)
  /\ objects (state r) = objects w
  /\ (~ In s (Net.servers (network w)) \/ Net.active_server (network w) <> Some s ->
      state r = w /\ events r = [])
  /\ (active_member s w ->
      (forall c : Connection.t,
          Net._connected (network w) = true ->
          Net.connection (network w) = Some c ->
          let quit :=
            IrcConnection.disconnect (Some "jumping to next available server")
                                     (c, cleared w) in
          state r = holding_connection (fst (state quit)) (cleared w)
          /\ events r = events quit ++ autodisabled_log w
          /\ Forall (fun e => opens_socket e = false) (events r))
      /\ (Net._connected (network w) = false ->
          Net._enable (network w) = false ->
          state r = cleared w /\ events r = autodisabled_log w)
      /\ (Net._connected (network w) = false ->
          Net._enable (network w) = true ->
          Net.active_server (network (state r)) = result (IRC.next_server None w)
          /\ Net._index (network (state r))
             = IRC.advance (Net._index (network w)) (length (Net.servers (network w)))
          /\ (at_cursor w = Some s ->
              IrcServer.disabled (objects w !!! s) = false ->
              Net.active_server (network (state r)) = Some s))).
Proof.
  intros r. subst r.
  assert (Hpool : pool_of (state (IRC.removeServer s w)) = pool_of w).
  { revert w. change (preserves pool_of (IRC.removeServer s)).
    unfold IRC.removeServer, IRC.this, IRC.update.
    preserve; auto with pool. }
  unfold pool_of in Hpool. injection Hpool as Hs Ho.
  split; [exact Hs | split; [exact Ho | split; [apply removeServer_inactive |]]].
  intros Ham. rewrite (removeServer_active w s Ham).
  split; [| split].
  - intros c Hup Hconn quit.
    destruct (jump_connected (cleared w) c Hup Hconn) as [Hst Hev].
    fold quit in Hst, Hev. split; [exact Hst | split; [exact Hev |]].
    rewrite Hev. apply List.Forall_app. split.
    + eapply List.Forall_impl;
        [| exact (proj2 (connection_disconnect_opens_none _ (c, cleared w) I))].
      intros e He. unfold opens_none in He. now apply negb_true_iff in He.
    + unfold autodisabled_log. destruct (is_some _); repeat constructor.
  - intros Hup Hen.
    destruct (jump_not_connected (cleared w) Hup) as [-> ->].
    apply (connect_returns_at_once (cleared w)). now left.
  - intros Hup Hen.
    destruct (jump_not_connected (cleared w) Hup) as [-> _].
    destruct (connect_selects (cleared w) Hen Hup) as [Hact Hidx].
    assert (Hres : result (IRC.next_server None (cleared w))
                   = result (IRC.next_server None w))
      by now apply next_server_result_ext.
    rewrite Hres in Hact.
    split; [exact Hact | split; [exact Hidx |]].
    intros Hc Hd. rewrite Hact. now rewrite (next_server_enabled w s Hc Hd).
Qed.

(** The active server B is removed from the network that has dialled it. *)
Lemma removeServer_effects_witness :
  let w := state (IRC.connect Sample.pool) in
  (active_member 1 w
   /\ Net._connected (network w) = false
   /\ Net._enable (network w) = true
   /\ at_cursor w = Some 1%nat
   /\ IrcServer.disabled (objects w !!! 1%nat) = false)
  /\ Net.servers (network (state (IRC.removeServer 1 w))) = Net.servers (network w)
  /\ Net._index (network (state (IRC.removeServer 1 w))) = 2%nat
  /\ Net.active_server (network (state (IRC.removeServer 1 w))) = Some 1%nat.
Proof.
  intros w.
  assert (Ham : active_member 1 w)
    by (split; [right; left; reflexivity | vm_compute; reflexivity]).
  assert (Hup : Net._connected (network w) = false) by (vm_compute; reflexivity).
  assert (Hen : Net._enable (network w) = true) by (vm_compute; reflexivity).
  assert (Hc : at_cursor w = Some 1%nat) by (vm_compute; reflexivity).
  assert (Hd : IrcServer.disabled (objects w !!! 1%nat) = false)
    by (vm_compute; reflexivity).
  split; [split; [exact Ham | split; [exact Hup | split; [exact Hen | split;
           [exact Hc | exact Hd]]]] |].
  destruct (removeServer_effects w 1) as (Hs & _ & _ & Hact).
  destruct (Hact Ham) as (_ & _ & Hsel).
  destruct (Hsel Hup Hen) as (_ & Hidx & Hsame).
  split; [exact Hs | split; [| exact (Hsame Hc Hd)]].
  rewrite Hidx. vm_compute. reflexivity.
Defined.
